(** * Arthron: the TEI parser of the digital edition (scripts/tei_parser.py)

    A shallow embedding of [TEIParser]: the lxml element tree it reads, the
    mixed-content walker [_parse_section_content], the section assembler
    [get_sections], the lexicon extractor [get_lexicon_entries] and the
    metadata extractors [get_metadata] / [get_cts_urn], followed by the
    properties of the edition's specification that concern them. *)

From Stdlib Require Import String Ascii DecimalString.
From Stdlib Require Import List ZArith NArith Lia Bool.
From Stdlib Require Import Permutation Sorted.
From Stdlib Require DecimalPos DecimalZ.
Import ListNotations.

Set Implicit Arguments.
Local Open Scope Z_scope.

(** ** Python strings

    A Python [str] is a sequence of Unicode code points.  Literals of the
    source are written [u "..."]: the UTF-8 bytes of the Rocq literal are
    decoded to code points. *)

Module Py.

Abbreviation char := N (only parsing).
Abbreviation str := (list N) (only parsing).

Fixpoint utf8 (pending : nat) (acc : N) (bs : list N) : str :=
  match bs with
  | [] => []
  | b :: bs' =>
      match pending with
      | S k =>
          let acc' := (acc * 64 + b mod 64)%N in
          match k with
          | O => acc' :: utf8 0 0%N bs'
          | _ => utf8 k acc' bs'
          end
      | O =>
          if (b <? 128)%N then b :: utf8 0 0%N bs'
          else if (b <? 224)%N then utf8 1 (b mod 32)%N bs'
          else if (b <? 240)%N then utf8 2 (b mod 16)%N bs'
          else utf8 3 (b mod 8)%N bs'
      end
  end.

Definition u (s : string) : str :=
  utf8 0 0%N (map N_of_ascii (list_ascii_of_string s)).

(** [a == b] *)
Fixpoint eqb (a b : str) : bool :=
  match a, b with
  | [], [] => true
  | x :: a', y :: b' => N.eqb x y && eqb a' b'
  | _, _ => false
  end.

Lemma eqb_eq (a b : str) : eqb a b = true <-> a = b.
Proof.
  revert b. induction a as [|x a IH]; intros [|y b]; simpl;
    try (split; [discriminate|discriminate]); [tauto|].
  rewrite andb_true_iff, N.eqb_eq, IH. split.
  - intros [-> ->]. reflexivity.
  - intros H. injection H as -> ->. split; reflexivity.
Qed.

Lemma eqb_refl (a : str) : eqb a a = true.
Proof. apply eqb_eq. reflexivity. Qed.

(** Truthiness of a [str] and of an [Optional[str]]. *)
Definition nonempty (s : str) : bool :=
  match s with [] => false | _ :: _ => true end.

Definition truthy (o : option str) : bool :=
  match o with Some s => nonempty s | None => false end.

(** [''.join(parts)] *)
Definition join (parts : list str) : str := concat parts.

(** [old] is a prefix of [s] *)
Fixpoint startswith (old s : str) : bool :=
  match old, s with
  | [], _ => true
  | _ :: _, [] => false
  | a :: old', b :: s' => N.eqb a b && startswith old' s'
  end.

(** [s.replace(old, new)] for a non-empty [old]: occurrences are found left
    to right and do not overlap.  [skip] counts the characters of a match
    still to be dropped. *)
Fixpoint replace_from (old new : str) (skip : nat) (s : str) : str :=
  match s with
  | [] => []
  | c :: s' =>
      match skip with
      | S k => replace_from old new k s'
      | O =>
          if startswith old s
          then new ++ replace_from old new (pred (length old)) s'
          else c :: replace_from old new 0 s'
      end
  end.

(** For the empty [old] Python puts [new] around every character. *)
Definition replace (old new s : str) : str :=
  match old with
  | [] => new ++ flat_map (fun c => c :: new) s
  | _ :: _ => replace_from old new 0 s
  end.

(** [str.isspace] on one code point (the Unicode white space of CPython). *)
Definition isspace (c : char) : bool :=
  ((9 <=? c) && (c <=? 13) || (28 <=? c) && (c <=? 32)
   || (c =? 133) || (c =? 160) || (c =? 5760)
   || (8192 <=? c) && (c <=? 8202)
   || (c =? 8232) || (c =? 8233) || (c =? 8239) || (c =? 8287)
   || (c =? 12288))%N.

Fixpoint lstrip (s : str) : str :=
  match s with
  | [] => []
  | c :: s' => if isspace c then lstrip s' else s
  end.

Definition rstrip (s : str) : str := rev (lstrip (rev s)).

(** [s.strip()] *)
Definition strip (s : str) : str := rstrip (lstrip s).

(** [str(i)] for a Python [int] *)
Definition of_int (i : Z) : str :=
  map N_of_ascii (list_ascii_of_string (NilZero.string_of_int (Z.to_int i))).

(** [needle in s] *)
Fixpoint contains (needle s : str) : bool :=
  startswith needle s ||
  match s with
  | [] => false
  | _ :: s' => contains needle s'
  end.

(** [s.split(sep)[-1]] for a non-empty [sep]: what follows the last
    occurrence of [sep] found by the left-to-right scan. *)
Fixpoint after_last (sep : str) (skip : nat) (cur s : str) : str :=
  match s with
  | [] => cur
  | c :: s' =>
      match skip with
      | S k => after_last sep k cur s'
      | O =>
          if startswith sep s
          then after_last sep (pred (length sep)) [] s'
          else after_last sep 0 (cur ++ [c]) s'
      end
  end.

(** [a <= b] in code-point order, the order of [list.sort] on [str] keys. *)
Fixpoint leb (a b : str) : bool :=
  match a, b with
  | [], _ => true
  | _ :: _, [] => false
  | x :: a', y :: b' => (x <? y)%N || ((x =? y)%N && leb a' b')
  end.

End Py.

Abbreviation str := (list N) (only parsing).
Abbreviation u := Py.u.

(** ** The lxml element tree

    What [etree.parse] hands to the parser: every node under the root is an
    element, a comment or a processing instruction; all three have a [tail],
    are returned by iteration over the parent and by [getnext()], and only
    an element has a [str] tag (the tag of the other two is a function
    object).  The text of a comment is its content. *)

Module Xml.

Record qname := QName { namespace : option str; localname : str }.

Definition qname_eqb (a b : qname) : bool :=
  match namespace a, namespace b with
  | Some x, Some y => Py.eqb x y
  | None, None => true
  | _, _ => false
  end && Py.eqb (localname a) (localname b).

Local Unset Elimination Schemes.

Inductive elem : Type :=
  Elem (tag : option qname) (attrib : list (str * str)) (text : option str)
       (children : list elem) (tail : option str).

Definition tag (e : elem) : option qname :=
  match e with Elem t _ _ _ _ => t end.
Definition attrib (e : elem) : list (str * str) :=
  match e with Elem _ a _ _ _ => a end.
Definition text (e : elem) : option str :=
  match e with Elem _ _ x _ _ => x end.
Definition children (e : elem) : list elem :=
  match e with Elem _ _ _ c _ => c end.
Definition tail (e : elem) : option str :=
  match e with Elem _ _ _ _ x => x end.

Local Set Elimination Schemes.

(** Induction over the tree, with the children as a [Forall]. *)
Section elem_induction.
Variable P : elem -> Prop.
Hypothesis step : forall t a x c tl, Forall P c -> P (Elem t a x c tl).

Fixpoint elem_induction (e : elem) : P e :=
  match e with
  | Elem t a x c tl =>
      step t a x tl
        ((fix all (l : list elem) : Forall P l :=
            match l with
            | [] => Forall_nil P
            | k :: l' => Forall_cons k (elem_induction k) (all l')
            end) c)
  end.
End elem_induction.

(** [isinstance(elem.tag, str)] *)
Definition is_element (e : elem) : bool :=
  match tag e with Some _ => true | None => false end.

(** [etree.QName(elem.tag).localname if isinstance(elem.tag, str) else None] *)
Definition local (e : elem) : option str :=
  match tag e with Some q => Some (localname q) | None => None end.

Definition local_is (name : str) (e : elem) : bool :=
  match local e with Some l => Py.eqb l name | None => false end.

Definition has_tag (q : qname) (e : elem) : bool :=
  match tag e with Some t => qname_eqb t q | None => false end.

(** [elem.get(key)] and [elem.get(key, default)] *)
Fixpoint lookup (key : str) (a : list (str * str)) : option str :=
  match a with
  | [] => None
  | (k, v) :: a' => if Py.eqb k key then Some v else lookup key a'
  end.

Definition get (e : elem) (key : str) : option str := lookup key (attrib e).

Definition get_or (e : elem) (key default : str) : str :=
  match get e key with Some v => v | None => default end.

(** [elem.get(key) == value] *)
Definition attr_is (key value : str) (e : elem) : bool :=
  match get e key with Some v => Py.eqb v value | None => false end.

Definition opt_list {A} (o : option A) : list A :=
  match o with Some a => [a] | None => [] end.

(** [elem.itertext()]: the text of the element, then for every child its
    own [itertext] followed by its tail; the text of a comment or of a
    processing instruction is left out, its tail is not. *)
Fixpoint itertext (e : elem) : list str :=
  match e with
  | Elem t _ x c _ =>
      (match t with Some _ => opt_list x | None => [] end)
      ++ flat_map (fun k => itertext k ++ opt_list (tail k)) c
  end.

(** [''.join(elem.itertext())] *)
Definition inner_text (e : elem) : str := Py.join (itertext e).

(** ElementPath [elem.findall('ns:name')] and [elem.find('ns:name')]:
    the direct children with that tag, and the first of them. *)
Definition findall (q : qname) (e : elem) : list elem :=
  filter (has_tag q) (children e).

Definition find (q : qname) (e : elem) : option elem :=
  hd_error (findall q e).

(** ElementPath [elem.findall('ns:name[@key="value"]')] *)
Definition findall_attr (q : qname) (key value : str) (e : elem) : list elem :=
  filter (fun c => has_tag q c && attr_is key value c) (children e).

(** The nodes of a subtree in document order, each with its chain of
    ancestors (the parent first): the elements, and the text nodes (the
    text of an element and the tails of its children; there is no empty
    text node).  XPath results are selections of this sequence. *)
Inductive node : Type :=
| NElem (anc : list elem) (e : elem)
| NText (anc : list elem) (s : str).

Definition text_node (anc : list elem) (o : option str) : list node :=
  match o with
  | Some s => if Py.nonempty s then [NText anc s] else []
  | None => []
  end.

Fixpoint nodes (anc : list elem) (e : elem) : list node :=
  match e with
  | Elem t a x c tl =>
      let self := Elem t a x c tl in
      NElem anc self
      :: (match t with Some _ => text_node (self :: anc) x | None => [] end)
      ++ flat_map (fun k => nodes (self :: anc) k
                            ++ text_node (self :: anc) (tail k)) c
  end.

(** The nodes strictly below a context node, for the relative paths
    [.//...]; the chains stop below the context node. *)
Definition nodes_below (ctx : elem) : list node :=
  (if is_element ctx then text_node [] (text ctx) else [])
  ++ flat_map (fun k => nodes [] k ++ text_node [] (tail k)) (children ctx).

(** A path [a/b/c] read from its last step: the innermost ancestors of a
    node satisfy the steps in turn. *)
Fixpoint chain (steps : list (elem -> bool)) (anc : list elem) : bool :=
  match steps, anc with
  | [], _ => true
  | _ :: _, [] => false
  | p :: ps, a :: anc' => p a && chain ps anc'
  end.

(** The same for a path that starts at the context node ([a/b], without
    [//]): the chain is exactly the path. *)
Definition chain_exact (steps : list (elem -> bool)) (anc : list elem) : bool :=
  Nat.eqb (length steps) (length anc) && chain steps anc.

(** Elements selected by a path whose last step is [last] and whose
    earlier steps, innermost first, are [steps]. *)
Definition select_elems (steps : list (elem -> bool)) (last : elem -> bool)
    (ns : list node) : list elem :=
  flat_map (fun n => match n with
                     | NElem anc e => if last e && chain steps anc then [e] else []
                     | NText _ _ => []
                     end) ns.

(** Text nodes selected by [.../text()]. *)
Definition select_texts (steps : list (elem -> bool)) (ns : list node)
    : list str :=
  flat_map (fun n => match n with
                     | NText anc s => if chain steps anc then [s] else []
                     | NElem _ _ => []
                     end) ns.

Definition select_texts_exact (steps : list (elem -> bool)) (ns : list node)
    : list str :=
  flat_map (fun n => match n with
                     | NText anc s => if chain_exact steps anc then [s] else []
                     | NElem _ _ => []
                     end) ns.

(** Attribute values selected by [.../@key]. *)
Definition select_attrs (steps : list (elem -> bool)) (last : elem -> bool)
    (key : str) (ns : list node) : list str :=
  flat_map (fun e => opt_list (get e key)) (select_elems steps last ns).

Definition NS_TEI : str := u "http://www.tei-c.org/ns/1.0".
Definition tei (name : string) : qname := QName (Some NS_TEI) (u name).
Definition XML_ID : str := u "{http://www.w3.org/XML/1998/namespace}id".
Definition XML_LANG : str := u "{http://www.w3.org/XML/1998/namespace}lang".

End Xml.

Import Xml.

(** ** Data model: the dataclasses of the parser *)

(** The [type] field of a [ContentNode] takes one of six string values. *)
Inductive node_type := TText | TApp | TTerm | TFolio | TGreek | TMentioned.

Module ContentNode.
Record t := mk {
  type : node_type;
  value : option str;
  id : option str;
  index : option Z;
  lem : option str;
  rdg_s : option str;
  note : option str;
  target : option str;
  text : option str;
  ed : option str;
  n : option str;
  ka : option str;
  grc : option str
}.
End ContentNode.

(** One entry of [AppEntry.readings]: a dict with the keys wit, text, note. *)
Module Reading.
Record t := mk { wit : str; text : str; note : option str }.
End Reading.

Module AppEntry.
Record t := mk {
  id : str;
  index : Z;
  lem : str;
  lem_wit : option str;
  readings : list Reading.t;
  note : option str
}.
End AppEntry.

(** One entry of [Section.folios]: a dict with the keys ed, n. *)
Module Folio.
Record t := mk { ed : str; n : str }.
End Folio.

Module SectionRecord.
Record t := mk {
  n : str;
  xml_id : str;
  urn : str;
  incipit : str;
  content : list ContentNode.t;
  folios : list Folio.t;
  apparatus : list AppEntry.t
}.
End SectionRecord.

(** The constructor calls of [process_element]. *)
Definition text_node_of (v : str) : ContentNode.t :=
  ContentNode.mk TText (Some v) None None None None None None None None None
    None None.

Definition app_node (id : str) (index : Z) (lem : str) (rdg_s note : option str)
    : ContentNode.t :=
  ContentNode.mk TApp None (Some id) (Some index) (Some lem) rdg_s note None
    None None None None None.

Definition term_node (target text : str) : ContentNode.t :=
  ContentNode.mk TTerm None None None None None None (Some target) (Some text)
    None None None None.

Definition folio_node (ed n : str) : ContentNode.t :=
  ContentNode.mk TFolio None None None None None None None None (Some ed)
    (Some n) None None.

Definition greek_node (text : str) : ContentNode.t :=
  ContentNode.mk TGreek None None None None None None None (Some text) None
    None None None.

Definition mentioned_node (ka : str) (grc : option str) : ContentNode.t :=
  ContentNode.mk TMentioned None None None None None None None None None None
    (Some ka) grc.

(** ** Exceptions and the state of one walk

    [_parse_section_content] owns two lists and the [nonlocal] counter; the
    closure [process_element] appends to the lists and increments the
    counter.  The one exception the walk can meet is the [ValueError] of
    [etree.QName] on a tag that is not a name. *)

Inductive exn := ValueError.

Inductive result (A : Type) : Type :=
| Ok (a : A)
| Raise (x : exn).
Arguments Ok {A} a.
Arguments Raise {A} x.

Record walk_state := WalkState {
  content : list ContentNode.t;
  apparatus : list AppEntry.t;
  app_counter : Z
}.

Definition M (A : Type) : Type := walk_state -> result (A * walk_state).

Definition ret {A} (a : A) : M A := fun st => Ok (a, st).

Definition bind {A B} (m : M A) (k : A -> M B) : M B :=
  fun st => match m st with
            | Ok (a, st') => k a st'
            | Raise x => Raise x
            end.

Definition lift {A} (r : result A) : M A :=
  fun st => match r with Ok a => Ok (a, st) | Raise x => Raise x end.

Notation "x <- m ;; k" := (bind m (fun x => k))
  (at level 61, m at next level, right associativity).
Notation "m ;; k" := (bind m (fun _ => k))
  (at level 61, right associativity).

(** [content.append(node)] *)
Definition append_content (nd : ContentNode.t) : M unit :=
  fun st => Ok (tt, WalkState (content st ++ [nd]) (apparatus st)
                      (app_counter st)).

(** [apparatus.append(entry)] *)
Definition append_apparatus (a : AppEntry.t) : M unit :=
  fun st => Ok (tt, WalkState (content st) (apparatus st ++ [a])
                      (app_counter st)).

(** [app_counter += 1], giving the new value *)
Definition increment_counter : M Z :=
  fun st => Ok (app_counter st + 1,
                WalkState (content st) (apparatus st) (app_counter st + 1)).

(** [if s: content.append(ContentNode(type='text', value=s))] *)
Definition append_text_if (o : option str) : M unit :=
  match o with
  | Some s => if Py.nonempty s then append_content (text_node_of s) else ret tt
  | None => ret tt
  end.

(** ** The mixed-content walker: [_parse_section_content] *)

(** The branch of the [if]/[elif] chain of [process_element] an element
    takes; the conditions are tested in the order of the source. *)
Inductive kind :=
| KApp | KTerm | KPb | KMilestone | KCb | KForeign | KMentioned | KGloss
| KPlain | KOther.

Definition classify (e : elem) : kind :=
  if local_is (u "app") e then KApp
  else if local_is (u "term") e then KTerm
  else if local_is (u "pb") e then KPb
  else if local_is (u "milestone") e && attr_is (u "unit") (u "folio") e
  then KMilestone
  else if local_is (u "cb") e then KCb
  else if local_is (u "foreign") e && attr_is XML_LANG (u "grc") e
  then KForeign
  else if local_is (u "mentioned") e then KMentioned
  else if local_is (u "gloss") e then KGloss
  else if local_is (u "persName") e || local_is (u "q") e then KPlain
  else KOther.

(** The body of the loop over [elem.findall('tei:rdg')]. *)
Definition rdg_wit (rdg : elem) : str :=
  Py.replace (u "#") (u "") (get_or rdg (u "wit") (u "")).

Definition rdg_text (rdg : elem) : str := Py.strip (inner_text rdg).

Definition rdg_note (rdg : elem) : option str :=
  match find (tei "note") rdg with
  | Some note_elem => text note_elem
  | None => None
  end.

Definition reading_of (rdg : elem) : Reading.t :=
  Reading.mk (rdg_wit rdg)
    (if negb (Py.truthy (rdg_note rdg)) then rdg_text rdg else u "")
    (rdg_note rdg).

(** [wit == 'S' and rdg_text] *)
Definition is_s_reading (rdg : elem) : bool :=
  Py.eqb (rdg_wit rdg) (u "S") && Py.nonempty (rdg_text rdg).

Definition rdg_step (acc : list Reading.t * option str) (rdg : elem)
    : list Reading.t * option str :=
  let '(readings, rdg_s_text) := acc in
  let rdg_s_text :=
    if is_s_reading rdg then Some (rdg_text rdg) else rdg_s_text in
  (readings ++ [reading_of rdg], rdg_s_text).

Definition collect_readings (app : elem) : list Reading.t * option str :=
  fold_left rdg_step (findall (tei "rdg") app) ([], None).

(** The [app] branch, for the counter value already incremented. *)
Definition app_id (app : elem) (counter : Z) : str :=
  get_or app XML_ID (u "app." ++ Py.of_int counter).

Definition lem_text (app : elem) : str :=
  match find (tei "lem") app with
  | Some lem_elem => inner_text lem_elem
  | None => u ""
  end.

Definition lem_wit (app : elem) : option str :=
  match find (tei "lem") app with
  | Some lem_elem =>
      Some (Py.replace (u "#") (u "") (get_or lem_elem (u "wit") (u "")))
  | None => None
  end.

Definition app_content_node (app : elem) (counter : Z) : ContentNode.t :=
  let '(readings, rdg_s_text) := collect_readings app in
  app_node (app_id app counter) counter (lem_text app) rdg_s_text
    (match readings with r :: _ => Reading.note r | [] => None end).

Definition app_entry (app : elem) (counter : Z) : AppEntry.t :=
  let '(readings, _) := collect_readings app in
  AppEntry.mk (app_id app counter) counter (lem_text app) (lem_wit app)
    readings None.

(** The [pb], [milestone] and [cb] branches. *)
Definition folio_ed (e : elem) : str :=
  Py.replace (u "#") (u "") (get_or e (u "ed") (u "")).

Definition cb_n (e : elem) : str :=
  let n := get_or e (u "n") (u "") in
  if Py.nonempty n then n else u "".

(** The lookahead of the [mentioned] branch on [elem.getnext()].  The tag
    of a comment or of a processing instruction is not a name, and
    [etree.QName] raises on it. *)
Definition lookahead (next_sib : option elem) : result (option str) :=
  match next_sib with
  | None => Ok None
  | Some sib =>
      match tag sib with
      | None => Raise ValueError
      | Some q =>
          if Py.eqb (localname q) (u "gloss")
          then match find (tei "foreign") sib with
               | Some foreign => Ok (Some (inner_text foreign))
               | None => Ok None
               end
          else Ok None
      end
  end.

(** [for child in elem: process_element(child); if child.tail: ...], the
    loop of the fallback branch and of every paragraph.  [getnext()] of a
    child is the element that follows it in the loop. *)
Section siblings.
Variable process : elem -> option elem -> M unit.

Fixpoint walk_children (cs : list elem) : M unit :=
  match cs with
  | [] => ret tt
  | child :: rest =>
      process child (hd_error rest) ;;
      append_text_if (tail child) ;;
      walk_children rest
  end.
End siblings.

(** [process_element(elem, tail_text)]; [next_sib] is [elem.getnext()]. *)
Fixpoint process_element (elem : elem) (next_sib : option Xml.elem)
    (tail_text : option str) {struct elem} : M unit :=
  match elem with
  | Elem t a x cs tl =>
      let self := Elem t a x cs tl in
      match classify self with
      | KApp =>
          counter <- increment_counter ;;
          append_content (app_content_node self counter) ;;
          append_apparatus (app_entry self counter)
      | KTerm =>
          append_content
            (term_node (Py.replace (u "#") (u "") (get_or self (u "target") (u "")))
               (inner_text self))
      | KPb | KMilestone =>
          append_content (folio_node (folio_ed self) (get_or self (u "n") (u "")))
      | KCb => append_content (folio_node (folio_ed self) (cb_n self))
      | KForeign => append_content (greek_node (inner_text self))
      | KMentioned =>
          grc <- lift (lookahead next_sib) ;;
          append_content (mentioned_node (inner_text self) grc)
      | KGloss => ret tt
      | KPlain => append_content (text_node_of (inner_text self))
      | KOther =>
          append_text_if x ;;
          walk_children (fun c nx => process_element c nx None) cs
      end ;;
      append_text_if tail_text
  end.

(** The nodes of a subtree below [div] matching [.//tei:p], in document
    order. *)
Definition paragraphs (div : elem) : list elem :=
  select_elems [] (has_tag (tei "p")) (nodes_below div).

Definition walk_paragraph (p : elem) : M unit :=
  append_text_if (text p) ;;
  walk_children (fun c nx => process_element c nx None) (children p).

Fixpoint walk_paragraphs (ps : list elem) : M unit :=
  match ps with
  | [] => ret tt
  | p :: ps' => walk_paragraph p ;; walk_paragraphs ps'
  end.

Definition _parse_section_content (div_elem : elem) (counter : Z)
    : result (list ContentNode.t * list AppEntry.t * Z) :=
  match walk_paragraphs (paragraphs div_elem) (WalkState [] [] counter) with
  | Ok (_, st) => Ok (content st, apparatus st, app_counter st)
  | Raise x => Raise x
  end.

(** ** Metadata and URN extractor *)

Definition is_idno_cts (e : elem) : bool :=
  has_tag (tei "idno") e && attr_is (u "type") (u "cts-urn") e.

Definition DEFAULT_URN : str := u "urn:cts:georgian:shanidze.arthron.ed2025".

(** [tree.xpath('//tei:idno[@type="cts-urn"]/text()')], first result or the
    default. *)
Definition get_cts_urn (tree : elem) : str :=
  match select_texts [is_idno_cts] (nodes [] tree) with
  | urn :: _ => urn
  | [] => DEFAULT_URN
  end.

Module Metadata.
Record t := mk {
  editor : str;
  publication_place : str;
  publication_year : str;
  source_title : str;
  cts_urn : str;
  github_url : str
}.
End Metadata.

Definition is_scholarly_editor (e : elem) : bool :=
  has_tag (tei "editor") e && attr_is (u "role") (u "scholarly") e.

Definition DEFAULT_EDITOR : str := u "აკაკი შანიძე".
Definition PUBLICATION_PLACE : str := u "თბილისი".
Definition PUBLICATION_YEAR : str := u "1990".
Definition SOURCE_TITLE : str := u "ძველი ქართული ენის კათედრის შრომები, 32".

Definition get_metadata (tree : elem) : Metadata.t :=
  let editor :=
    select_texts [has_tag (tei "persName"); is_scholarly_editor]
      (nodes [] tree) in
  Metadata.mk
    (match editor with e :: _ => e | [] => DEFAULT_EDITOR end)
    PUBLICATION_PLACE
    PUBLICATION_YEAR
    SOURCE_TITLE
    (get_cts_urn tree)
    (u "https://github.com").

(** ** Section assembler: [get_sections] *)

Definition is_section_div (e : elem) : bool :=
  has_tag (tei "div") e && attr_is (u "type") (u "section") e.

(** [tree.xpath('//tei:body/tei:div[@type="section"]')] *)
Definition section_divs (tree : elem) : list elem :=
  select_elems [has_tag (tei "body")] is_section_div (nodes [] tree).

Definition folio_of (e : elem) : Folio.t :=
  Folio.mk (folio_ed e) (get_or e (u "n") (u "")).

(** The two loops that fill [folios]. *)
Definition section_folios (div : elem) : list Folio.t :=
  map folio_of (findall (tei "pb") div)
  ++ map folio_of (findall_attr (tei "milestone") (u "unit") (u "folio") div).

(** [''.join(node.value for node in content if node.type == 'text' and
    node.value)] *)
Definition text_content (content : list ContentNode.t) : str :=
  Py.join
    (flat_map (fun nd =>
       match ContentNode.type nd, ContentNode.value nd with
       | TText, Some v => if Py.nonempty v then [v] else []
       | _, _ => []
       end) content).

Definition incipit_of (content : list ContentNode.t) : str :=
  let t := text_content content in
  if Py.nonempty t then Py.strip (firstn 50 t) else u "".

Definition build_section (base_urn : str) (div : elem)
    (content : list ContentNode.t) (apparatus : list AppEntry.t)
    : SectionRecord.t :=
  let n := get_or div (u "n") (u "") in
  SectionRecord.mk n
    (get_or div XML_ID (u "sec." ++ n))
    (base_urn ++ u ":" ++ n)
    (incipit_of content)
    content
    (section_folios div)
    apparatus.

(** The loop of [get_sections] over the section elements, with the
    sections built so far and the counter. *)
Fixpoint sections_loop (base_urn : str) (divs : list elem)
    (sections : list SectionRecord.t) (counter : Z)
    : result (list SectionRecord.t) :=
  match divs with
  | [] => Ok sections
  | div :: rest =>
      match _parse_section_content div counter with
      | Ok (content, apparatus, counter') =>
          sections_loop base_urn rest
            (sections ++ [build_section base_urn div content apparatus])
            counter'
      | Raise x => Raise x
      end
  end.

Definition get_sections (tree : elem) : result (list SectionRecord.t) :=
  sections_loop (get_cts_urn tree) (section_divs tree) [] 0.

(** ** Lexicon extractor: [get_lexicon_entries] *)

Module Sense.
Record t := mk { def_ka : str; def_en : str }.
End Sense.

Module Example.
Record t := mk { quote : str; ref : str }.
End Example.

Module LexiconEntry.
Record t := mk {
  id : str;
  lemma : str;
  pos : option str;
  greek : option str;
  senses : list Sense.t;
  examples : list Example.t;
  occurrences : list str;
  see_also : list str;
  note : option str;
  occurrence_count : Z
}.
End LexiconEntry.

Definition first_or (default : str) (l : list str) : str :=
  match l with x :: _ => x | [] => default end.

Definition tag_attr (name : string) (key value : str) (e : elem) : bool :=
  has_tag (tei name) e && attr_is key value e.

(** [entry.xpath('.//tei:etym/tei:mentioned/text()')] *)
Definition etym_mentioned_texts (entry : elem) : list str :=
  select_texts [has_tag (tei "mentioned"); has_tag (tei "etym")]
    (nodes_below entry).

(** [entry.xpath('.//tei:cit[@type="translation"]/tei:quote/text()')] *)
Definition translation_quote_texts (entry : elem) : list str :=
  select_texts [has_tag (tei "quote"); tag_attr "cit" (u "type") (u "translation")]
    (nodes_below entry).

(** The three statements that compute [greek]. *)
Definition entry_greek (entry : elem) : option str :=
  let greek := etym_mentioned_texts entry in
  let greek :=
    if negb (match greek with [] => false | _ :: _ => true end)
    then translation_quote_texts entry else greek in
  hd_error greek.

Definition sense_of (sense : elem) : Sense.t :=
  Sense.mk
    (first_or (u "")
       (select_texts_exact [tag_attr "def" XML_LANG (u "ka")] (nodes_below sense)))
    (first_or (u "")
       (select_texts_exact [tag_attr "def" XML_LANG (u "en")] (nodes_below sense))).

Definition example_of (cit : elem) : list Example.t :=
  let quote := select_texts_exact [has_tag (tei "quote")] (nodes_below cit) in
  let ref :=
    select_texts_exact [has_tag (tei "ref"); has_tag (tei "bibl")]
      (nodes_below cit) in
  match quote with
  | q :: _ => [Example.mk q (first_or (u "") ref)]
  | [] => []
  end.

Definition occurrence_of (ref : str) : list str :=
  if Py.contains (u "sec.") ref
  then [Py.after_last (u "sec.") 0 [] ref] else [].

Definition see_also_of (xr : elem) : list str :=
  match flat_map (fun r => opt_list (get r (u "target")))
          (findall (tei "ref") xr) with
  | ref_target :: _ => [Py.replace (u "#") (u "") ref_target]
  | [] => []
  end.

(** The body of the loop over [tree.xpath('//tei:entry')]. *)
Definition lexicon_entry_of (entry : elem) : LexiconEntry.t :=
  let entry_id := get_or entry XML_ID (u "") in
  let below := nodes_below entry in
  let orth :=
    select_texts [has_tag (tei "orth"); tag_attr "form" (u "type") (u "lemma")]
      below in
  let occurrences :=
    flat_map occurrence_of
      (select_attrs [has_tag (tei "bibl"); has_tag (tei "cit")]
         (has_tag (tei "ref")) (u "target") below) in
  LexiconEntry.mk
    (Py.replace (u "lex.") (u "") entry_id)
    (first_or (u "") orth)
    (hd_error (select_texts [has_tag (tei "pos")] below))
    (entry_greek entry)
    (map sense_of (select_elems [] (has_tag (tei "sense")) below))
    (flat_map example_of
       (select_elems [] (tag_attr "cit" (u "type") (u "example")) below))
    occurrences
    (flat_map see_also_of (select_elems [] (has_tag (tei "xr")) below))
    (hd_error (select_texts_exact [has_tag (tei "note")] below))
    (Z.of_nat (length occurrences)).

(** [entries.sort(key=lambda e: e.lemma)]: a stable sort on the code-point
    order of the headwords. *)
Fixpoint insert_by_lemma (x : LexiconEntry.t) (l : list LexiconEntry.t)
    : list LexiconEntry.t :=
  match l with
  | [] => [x]
  | y :: l' =>
      if Py.leb (LexiconEntry.lemma x) (LexiconEntry.lemma y)
      then x :: y :: l'
      else y :: insert_by_lemma x l'
  end.

Definition sort_by_lemma (l : list LexiconEntry.t) : list LexiconEntry.t :=
  fold_right insert_by_lemma [] l.

(** [tree.xpath('//tei:entry')] *)
Definition entry_elems (tree : elem) : list elem :=
  select_elems [] (has_tag (tei "entry")) (nodes [] tree).

Definition get_lexicon_entries (tree : elem) : list LexiconEntry.t :=
  sort_by_lemma (map lexicon_entry_of (entry_elems tree)).

(** ** Reasoning about the walk *)

Lemma bind_ok {A B} (m : M A) (k : A -> M B) st b st'' :
  bind m k st = Ok (b, st'') ->
  exists a st', m st = Ok (a, st') /\ k a st' = Ok (b, st'').
Proof.
  unfold bind. destruct (m st) as [[a st']|x]; [|discriminate].
  intros H. exists a, st'. split; [reflexivity|exact H].
Qed.

Lemma bind_raise {A B} (m : M A) (k : A -> M B) st x :
  m st = Raise x -> bind m k st = Raise x.
Proof. unfold bind. intros ->. reflexivity. Qed.

Lemma bind_step {A B} (m : M A) (k : A -> M B) st a st' :
  m st = Ok (a, st') -> bind m k st = k a st'.
Proof. unfold bind. intros ->. reflexivity. Qed.

(** The body of [process_element] up to the tail text, named for the proofs;
    [process_element_branch] shows that [process_element] is this branch
    followed by the tail text. *)
Definition branch (elem : elem) (next_sib : option Xml.elem) : M unit :=
  match classify elem with
  | KApp =>
      counter <- increment_counter ;;
      append_content (app_content_node elem counter) ;;
      append_apparatus (app_entry elem counter)
  | KTerm =>
      append_content
        (term_node (Py.replace (u "#") (u "") (get_or elem (u "target") (u "")))
           (inner_text elem))
  | KPb | KMilestone =>
      append_content (folio_node (folio_ed elem) (get_or elem (u "n") (u "")))
  | KCb => append_content (folio_node (folio_ed elem) (cb_n elem))
  | KForeign => append_content (greek_node (inner_text elem))
  | KMentioned =>
      grc <- lift (lookahead next_sib) ;;
      append_content (mentioned_node (inner_text elem) grc)
  | KGloss => ret tt
  | KPlain => append_content (text_node_of (inner_text elem))
  | KOther =>
      append_text_if (text elem) ;;
      walk_children (fun c nx => process_element c nx None) (children elem)
  end.

Lemma process_element_branch (e : elem) next_sib tail_text :
  process_element e next_sib tail_text
  = (branch e next_sib ;; append_text_if tail_text).
Proof. destruct e. reflexivity. Qed.

(** What one step of the walk adds to the state: nodes, entries, and the
    counter advanced by the number of entries. *)
Definition advance (st : walk_state) (ns : list ContentNode.t)
    (es : list AppEntry.t) : walk_state :=
  WalkState (content st ++ ns) (apparatus st ++ es)
    (app_counter st + Z.of_nat (length es)).

Lemma advance_nil st : advance st [] [] = st.
Proof.
  destruct st as [c a k]. unfold advance. simpl.
  rewrite !app_nil_r, Z.add_0_r. reflexivity.
Qed.

Lemma advance_advance st ns1 es1 ns2 es2 :
  advance (advance st ns1 es1) ns2 es2 = advance st (ns1 ++ ns2) (es1 ++ es2).
Proof.
  unfold advance. simpl. rewrite <- !app_assoc, length_app, Nat2Z.inj_add.
  f_equal. lia.
Qed.

Lemma append_content_advance nd st :
  append_content nd st = Ok (tt, advance st [nd] []).
Proof.
  unfold append_content, advance. simpl.
  rewrite app_nil_r, Z.add_0_r. reflexivity.
Qed.

(** The text node, if any, of [if s: content.append(...)]. *)
Definition text_if (o : option str) : list ContentNode.t :=
  if Py.truthy o
  then [text_node_of (match o with Some s => s | None => [] end)]
  else [].

Lemma append_text_if_advance o st :
  append_text_if o st = Ok (tt, advance st (text_if o) []).
Proof.
  unfold text_if. destruct o as [s|]; simpl.
  - destruct (Py.nonempty s).
    + apply append_content_advance.
    + unfold ret. rewrite advance_nil. reflexivity.
  - unfold ret. rewrite advance_nil. reflexivity.
Qed.

Lemma app_branch_advance (e : elem) st :
  (counter <- increment_counter ;;
   append_content (app_content_node e counter) ;;
   append_apparatus (app_entry e counter)) st
  = Ok (tt, advance st [app_content_node e (app_counter st + 1)]
              [app_entry e (app_counter st + 1)]).
Proof. reflexivity. Qed.

(** ** The apparatus numbering *)

Fixpoint zseq (start : Z) (len : nat) : list Z :=
  match len with
  | O => []
  | S n => start :: zseq (start + 1) n
  end.

Lemma zseq_app start a b :
  zseq start (a + b) = zseq start a ++ zseq (start + Z.of_nat a) b.
Proof.
  revert start. induction a as [|a IH]; intros start.
  - simpl. rewrite Z.add_0_r. reflexivity.
  - cbn [Nat.add zseq app]. rewrite IH.
    replace (start + Z.of_nat (S a)) with (start + 1 + Z.of_nat a) by lia.
    reflexivity.
Qed.

Lemma zseq_lower start len x : In x (zseq start len) -> start <= x.
Proof.
  revert start. induction len as [|n IH]; intros start; simpl.
  - intros [].
  - intros [<-|H]; [lia|]. apply IH in H. lia.
Qed.

Lemma zseq_sorted start len : StronglySorted Z.lt (zseq start len).
Proof.
  revert start. induction len as [|n IH]; intros start; simpl.
  - constructor.
  - constructor; [apply IH|]. apply Forall_forall. intros x H.
    apply zseq_lower in H. lia.
Qed.

(** The [(id, index)] of the [app] nodes of a content list, in order, and
    of the entries of an apparatus list. *)
Definition app_refs (ns : list ContentNode.t) : list (option str * option Z) :=
  flat_map (fun nd => match ContentNode.type nd with
                      | TApp => [(ContentNode.id nd, ContentNode.index nd)]
                      | _ => []
                      end) ns.

Definition entry_refs (es : list AppEntry.t) : list (option str * option Z) :=
  map (fun a => (Some (AppEntry.id a), Some (AppEntry.index a))) es.

(** Nodes and entries produced from counter value [k]: the entries are
    numbered [k+1, k+2, ...] and the [app] nodes carry the same identifiers
    and indices, pairwise. *)
Definition numbered (k : Z) (ns : list ContentNode.t) (es : list AppEntry.t)
    : Prop :=
  map AppEntry.index es = zseq (k + 1) (length es)
  /\ app_refs ns = entry_refs es.

Lemma numbered_nil k : numbered k [] [].
Proof. split; reflexivity. Qed.

Lemma numbered_app k ns1 es1 ns2 es2 :
  numbered k ns1 es1 ->
  numbered (k + Z.of_nat (length es1)) ns2 es2 ->
  numbered k (ns1 ++ ns2) (es1 ++ es2).
Proof.
  intros [H1 R1] [H2 R2]. split.
  - rewrite map_app, length_app, zseq_app, H1, H2.
    replace (k + 1 + Z.of_nat (length es1))
      with (k + Z.of_nat (length es1) + 1) by lia.
    reflexivity.
  - unfold app_refs, entry_refs in *.
    rewrite flat_map_app, map_app, R1, R2. reflexivity.
Qed.

Lemma numbered_text_if k o : numbered k (text_if o) [].
Proof. unfold text_if. destruct (Py.truthy o); split; reflexivity. Qed.

Lemma numbered_app_pair k (e : elem) :
  numbered k [app_content_node e (k + 1)] [app_entry e (k + 1)].
Proof.
  unfold app_content_node, app_entry.
  destruct (collect_readings e) as [readings rdg_s_text].
  split; reflexivity.
Qed.

(** A successful step of the walk advances the state by numbered output. *)
Definition advances (m : M unit) : Prop :=
  forall st st', m st = Ok (tt, st') ->
  exists ns es, st' = advance st ns es /\ numbered (app_counter st) ns es.

Lemma advances_bind (m k : M unit) :
  advances m -> advances k -> advances (m ;; k).
Proof.
  intros Hm Hk st st'' H.
  apply bind_ok in H. destruct H as ([] & st' & H1 & H2).
  apply Hm in H1. destruct H1 as (ns1 & es1 & -> & N1).
  apply Hk in H2. destruct H2 as (ns2 & es2 & -> & N2).
  exists (ns1 ++ ns2), (es1 ++ es2). split.
  - apply advance_advance.
  - apply numbered_app; assumption.
Qed.

Lemma advances_ret : advances (ret tt).
Proof.
  intros st st' H. injection H as <-. exists [], [].
  split; [symmetry; apply advance_nil | apply numbered_nil].
Qed.

Lemma advances_append_text_if o : advances (append_text_if o).
Proof.
  intros st st' H. rewrite append_text_if_advance in H. injection H as <-.
  exists (text_if o), []. split; [reflexivity | apply numbered_text_if].
Qed.

Lemma advances_append_content nd :
  ContentNode.type nd <> TApp -> advances (append_content nd).
Proof.
  intros Hty st st' H. rewrite append_content_advance in H. injection H as <-.
  exists [nd], []. split; [reflexivity|]. split; [reflexivity|].
  unfold app_refs. simpl.
  destruct (ContentNode.type nd); try reflexivity. congruence.
Qed.

Lemma advances_walk_children process cs :
  Forall (fun c => forall nx, advances (process c nx)) cs ->
  advances (walk_children process cs).
Proof.
  induction 1 as [|c cs Hc _ IH]; simpl.
  - apply advances_ret.
  - apply advances_bind; [apply Hc|].
    apply advances_bind; [apply advances_append_text_if | exact IH].
Qed.

Lemma advances_branch (e : elem) nx :
  Forall (fun c => forall nx tl, advances (process_element c nx tl)) (children e) ->
  advances (branch e nx).
Proof.
  intros IH. unfold branch. destruct (classify e);
    try (apply advances_append_content; discriminate).
  - intros st st' H. rewrite app_branch_advance in H. injection H as <-.
    eexists _, _. split; [reflexivity | apply numbered_app_pair].
  - intros st st' H. apply bind_ok in H. destruct H as (grc & st1 & H1 & H2).
    unfold lift in H1. destruct (lookahead nx); [|discriminate].
    injection H1 as <- <-. revert H2.
    apply advances_append_content. discriminate.
  - apply advances_ret.
  - apply advances_bind; [apply advances_append_text_if|].
    apply advances_walk_children.
    eapply Forall_impl; [|exact IH]. intros c Hc nx'. apply Hc.
Qed.

Lemma advances_process_element (e : elem) :
  forall nx tl, advances (process_element e nx tl).
Proof.
  induction e as [t a x cs tl' IH] using elem_induction. intros nx tl.
  rewrite process_element_branch.
  apply advances_bind; [|apply advances_append_text_if].
  apply advances_branch. exact IH.
Qed.

Lemma advances_walk_paragraphs ps : advances (walk_paragraphs ps).
Proof.
  induction ps as [|p ps IH]; simpl.
  - apply advances_ret.
  - apply advances_bind; [|exact IH]. unfold walk_paragraph.
    apply advances_bind; [apply advances_append_text_if|].
    apply advances_walk_children. apply Forall_forall.
    intros c _ nx. apply advances_process_element.
Qed.

Lemma parse_section_content_numbered div k c a k' :
  _parse_section_content div k = Ok (c, a, k') ->
  numbered k c a /\ k' = k + Z.of_nat (length a).
Proof.
  unfold _parse_section_content.
  destruct (walk_paragraphs (paragraphs div) (WalkState [] [] k))
    as [[[] st]|x] eqn:E; [|discriminate].
  intros H. injection H as <- <- <-.
  apply advances_walk_paragraphs in E.
  destruct E as (ns & es & -> & N). simpl in *. split; [exact N|reflexivity].
Qed.

(** The entries of all sections built so far, in document order. *)
Definition all_apparatus (sections : list SectionRecord.t) : list AppEntry.t :=
  flat_map SectionRecord.apparatus sections.

Definition paired (s : SectionRecord.t) : Prop :=
  app_refs (SectionRecord.content s) = entry_refs (SectionRecord.apparatus s).

(** The invariant of the loop of [get_sections]. *)
Definition sections_numbered (sections : list SectionRecord.t) (counter : Z)
    : Prop :=
  map AppEntry.index (all_apparatus sections)
    = zseq 1 (length (all_apparatus sections))
  /\ counter = Z.of_nat (length (all_apparatus sections))
  /\ Forall paired sections.

Lemma sections_loop_numbered base divs :
  forall sections counter out,
  sections_numbered sections counter ->
  sections_loop base divs sections counter = Ok out ->
  exists counter', sections_numbered out counter'.
Proof.
  induction divs as [|div rest IH]; intros sections counter out Inv; simpl.
  - intros H. injection H as <-. exists counter. exact Inv.
  - destruct (_parse_section_content div counter) as [[[c a] k']|x] eqn:E;
      [|discriminate].
    apply parse_section_content_numbered in E. destruct E as [[Hidx Hrefs] ->].
    apply IH. destruct Inv as (I1 & I2 & I3).
    unfold sections_numbered, all_apparatus in *.
    rewrite flat_map_app. simpl. rewrite app_nil_r.
    rewrite map_app, length_app, zseq_app, I1, Hidx, I2.
    repeat split.
    + rewrite Z.add_comm with (n := 1). reflexivity.
    + lia.
    + apply Forall_app. split; [exact I3|]. constructor; [exact Hrefs|constructor].
Qed.

(** ** The apparatus branch *)

Lemma fold_rdg_step rdgs : forall readings rdg_s_text,
  fold_left rdg_step rdgs (readings, rdg_s_text)
  = (readings ++ map reading_of rdgs,
     fold_left (fun acc rdg => if is_s_reading rdg then Some (rdg_text rdg)
                               else acc) rdgs rdg_s_text).
Proof.
  induction rdgs as [|rdg rest IH]; intros readings rdg_s_text; simpl.
  - rewrite app_nil_r. reflexivity.
  - rewrite IH, <- app_assoc. reflexivity.
Qed.

Lemma collect_readings_fst (app : elem) :
  fst (collect_readings app) = map reading_of (findall (tei "rdg") app).
Proof. unfold collect_readings. rewrite fold_rdg_step. reflexivity. Qed.

Lemma fold_rdg_s_none rdgs acc :
  (forall r, In r rdgs -> is_s_reading r = false) ->
  fold_left (fun acc rdg => if is_s_reading rdg then Some (rdg_text rdg)
                            else acc) rdgs acc = acc.
Proof.
  revert acc. induction rdgs as [|rdg rest IH]; intros acc H; simpl.
  - reflexivity.
  - rewrite (H rdg (or_introl eq_refl)). apply IH.
    intros r Hr. apply H. right. exact Hr.
Qed.

Lemma collect_readings_snd_last (app : elem) pre rdg post :
  findall (tei "rdg") app = pre ++ rdg :: post ->
  is_s_reading rdg = true ->
  (forall r, In r post -> is_s_reading r = false) ->
  snd (collect_readings app) = Some (rdg_text rdg).
Proof.
  intros E Hs Hpost. unfold collect_readings.
  rewrite fold_rdg_step, E. simpl.
  rewrite fold_left_app. simpl. rewrite Hs. apply fold_rdg_s_none. exact Hpost.
Qed.

Lemma collect_readings_snd_none (app : elem) :
  (forall r, In r (findall (tei "rdg") app) -> is_s_reading r = false) ->
  snd (collect_readings app) = None.
Proof.
  intros H. unfold collect_readings. rewrite fold_rdg_step. simpl.
  apply fold_rdg_s_none. exact H.
Qed.

Lemma process_app (app : elem) next_sib st :
  classify app = KApp ->
  process_element app next_sib None st
  = Ok (tt, WalkState
              (content st ++ [app_content_node app (app_counter st + 1)])
              (apparatus st ++ [app_entry app (app_counter st + 1)])
              (app_counter st + 1)).
Proof.
  intros H. rewrite process_element_branch. unfold branch. rewrite H.
  reflexivity.
Qed.

Lemma app_entry_readings (app : elem) k :
  AppEntry.readings (app_entry app k) = fst (collect_readings app).
Proof. unfold app_entry. destruct (collect_readings app). reflexivity. Qed.

Lemma app_content_node_rdg_s (app : elem) k :
  ContentNode.rdg_s (app_content_node app k) = snd (collect_readings app).
Proof. unfold app_content_node. destruct (collect_readings app). reflexivity. Qed.

Lemma app_content_node_note (app : elem) k :
  ContentNode.note (app_content_node app k)
  = match findall (tei "rdg") app with
    | rdg :: _ => rdg_note rdg
    | [] => None
    end.
Proof.
  unfold app_content_node.
  pose proof (collect_readings_fst app) as F.
  destruct (collect_readings app) as [readings s]. simpl in *. subst readings.
  destruct (findall (tei "rdg") app); reflexivity.
Qed.


(** ** Folio markers of a section *)

Definition is_pb (e : elem) : bool := has_tag (tei "pb") e.

Definition is_folio_milestone (e : elem) : bool :=
  has_tag (tei "milestone") e && attr_is (u "unit") (u "folio") e.

Definition is_folio_marker (e : elem) : bool :=
  is_pb e || is_folio_milestone e.

Lemma pb_not_milestone (e : elem) :
  is_pb e = true -> is_folio_milestone e = false.
Proof.
  unfold is_pb, is_folio_milestone, has_tag. destruct (tag e) as [q|]; [|discriminate].
  unfold qname_eqb. intros H. apply andb_true_iff in H. destruct H as [_ H].
  apply Py.eqb_eq in H. simpl in H. rewrite H.
  rewrite andb_false_intro1; [reflexivity|]. apply andb_false_intro2.
  reflexivity.
Qed.

Lemma filter_disjoint_perm {A} (p q : A -> bool) (l : list A) :
  (forall x, p x = true -> q x = false) ->
  Permutation (filter p l ++ filter q l) (filter (fun x => p x || q x) l).
Proof.
  intros D. induction l as [|x l IH]; simpl; [constructor|].
  destruct (p x) eqn:P; simpl.
  - rewrite (D x P). constructor. exact IH.
  - destruct (q x); [|exact IH].
    apply Permutation_sym, Permutation_cons_app, Permutation_sym. exact IH.
Qed.

(** The words of the specification for the folios of a section: the folio
    markers among the direct children that come before the first
    paragraph, in document order. *)
Fixpoint before_first (stop : elem -> bool) (cs : list elem) : list elem :=
  match cs with
  | [] => []
  | c :: rest => if stop c then [] else c :: before_first stop rest
  end.

Definition spec_leading_folios (div : elem) : list Folio.t :=
  map folio_of
    (filter is_folio_marker (before_first (has_tag (tei "p")) (children div))).

(** ** Header fields *)

(** The words of the specification for a header field: the text of the
    header element when the document has one, the fallback otherwise. *)
Definition header_texts (name : string) (tree : elem) : list str :=
  select_texts [has_tag (tei name)] (nodes [] tree).

Definition spec_metadata_read_from_header (tree : elem) : Prop :=
  let m := get_metadata tree in
  Metadata.publication_place m
    = first_or PUBLICATION_PLACE (header_texts "pubPlace" tree)
  /\ Metadata.publication_year m
    = first_or PUBLICATION_YEAR (header_texts "date" tree)
  /\ Metadata.source_title m
    = first_or SOURCE_TITLE (header_texts "title" tree).


(** ** The lexicon: sorting keeps the entries *)

Lemma insert_by_lemma_perm x l : Permutation (insert_by_lemma x l) (x :: l).
Proof.
  induction l as [|y l IH]; simpl; [apply Permutation_refl|].
  destruct (Py.leb (LexiconEntry.lemma x) (LexiconEntry.lemma y)).
  - apply Permutation_refl.
  - eapply Permutation_trans; [apply perm_skip, IH | apply perm_swap].
Qed.

Lemma sort_by_lemma_perm l : Permutation (sort_by_lemma l) l.
Proof.
  induction l as [|x l IH]; simpl; [constructor|].
  eapply Permutation_trans; [apply insert_by_lemma_perm|].
  apply perm_skip, IH.
Qed.

(** Every exposed entry is built from an entry element of the document,
    and every entry element gives an exposed entry. *)
Lemma lexicon_entries_from_elems (tree : elem) (le : LexiconEntry.t) :
  In le (get_lexicon_entries tree)
  <-> exists entry, In entry (entry_elems tree) /\ le = lexicon_entry_of entry.
Proof.
  unfold get_lexicon_entries. split.
  - intros H. apply (Permutation_in _ (sort_by_lemma_perm _)) in H.
    apply in_map_iff in H. destruct H as (entry & <- & Hin).
    exists entry. split; [exact Hin|reflexivity].
  - intros (entry & Hin & ->).
    apply (Permutation_in _ (Permutation_sym (sort_by_lemma_perm _))).
    apply in_map. exact Hin.
Qed.

(** ** [str.replace] with the marker of the lexicon identifiers *)

Definition LEX : str := [108; 101; 120; 46]%N.

Lemma LEX_literal : u "lex." = LEX.
Proof. reflexivity. Qed.

Lemma startswith_length (old s : str) :
  Py.startswith old s = true -> (length old <= length s)%nat.
Proof.
  revert s. induction old as [|a old IH]; intros [|b s]; simpl;
    try congruence; try lia.
  intros H. apply andb_true_iff in H. destruct H as [_ H].
  apply IH in H. lia.
Qed.

(** No occurrence of the marker straddles the end of a text and a marker
    that follows it. *)
Lemma LEX_no_straddle (c : N) (s b : str) :
  Py.startswith LEX (c :: s ++ LEX ++ b) = Py.startswith LEX (c :: s).
Proof.
  unfold LEX.
  destruct s as [|c2 [|c3 [|c4 s]]]; simpl;
    repeat match goal with
           | |- context [N.eqb ?x ?y] => destruct (N.eqb x y); simpl
           end; reflexivity.
Qed.

Lemma replace_from_scan (old new : str) (c : N) (s : str) :
  Py.replace_from old new 0 (c :: s)
  = if Py.startswith old (c :: s)
    then new ++ Py.replace_from old new (pred (length old)) s
    else c :: Py.replace_from old new 0 s.
Proof. reflexivity. Qed.

Lemma replace_LEX_app (a b : str) : forall skip,
  (skip <= length a)%nat ->
  Py.replace_from LEX [] skip (a ++ LEX ++ b)
  = Py.replace_from LEX [] skip a ++ Py.replace_from LEX [] 0 b.
Proof.
  induction a as [|c a IH]; intros skip Hskip.
  - simpl in Hskip. replace skip with O by lia.
    destruct b; reflexivity.
  - change ((c :: a) ++ LEX ++ b) with (c :: (a ++ LEX ++ b)).
    destruct skip as [|k].
    + rewrite !replace_from_scan, LEX_no_straddle.
      change (pred (length LEX)) with 3%nat.
      match goal with
      | |- context [if ?cond then _ else _] => destruct cond eqn:E
      end.
      * apply startswith_length in E. simpl in E.
        rewrite !app_nil_l. apply IH. lia.
      * rewrite <- app_comm_cons. f_equal. apply IH. lia.
    + simpl in Hskip. cbn [Py.replace_from]. apply IH. lia.
Qed.

Lemma replace_LEX_absent (s : str) :
  Py.contains LEX s = false -> Py.replace_from LEX [] 0 s = s.
Proof.
  induction s as [|c s IH]; [reflexivity|].
  rewrite replace_from_scan. cbn [Py.contains]. intros H.
  apply orb_false_iff in H.
  destruct H as [H1 H2]. rewrite H1. f_equal. apply IH. exact H2.
Qed.


(** ** Failure of the walk

    The walk raises in one place only, the lookahead of the [mentioned]
    branch on a sibling that is not an element.  [walk_safe] tells whether
    the walk of an element meets that case. *)

Definition lookahead_ok (next_sib : option elem) : bool :=
  match next_sib with
  | Some sib => is_element sib
  | None => true
  end.

Fixpoint walk_safe (e : elem) (next_sib : option elem) {struct e} : bool :=
  match e with
  | Elem t a x cs tl =>
      match classify (Elem t a x cs tl) with
      | KMentioned => lookahead_ok next_sib
      | KOther =>
          (fix all (l : list elem) : bool :=
             match l with
             | [] => true
             | c :: rest => walk_safe c (hd_error rest) && all rest
             end) cs
      | _ => true
      end
  end.

Fixpoint children_safe (cs : list elem) : bool :=
  match cs with
  | [] => true
  | c :: rest => walk_safe c (hd_error rest) && children_safe rest
  end.

Lemma walk_safe_branch (e : elem) next_sib :
  walk_safe e next_sib
  = match classify e with
    | KMentioned => lookahead_ok next_sib
    | KOther => children_safe (children e)
    | _ => true
    end.
Proof. destruct e. simpl. destruct (classify _); reflexivity. Qed.

(** The tags with a branch of their own. *)
Definition recognized_tags : list str :=
  [u "app"; u "term"; u "pb"; u "milestone"; u "cb"; u "foreign";
   u "mentioned"; u "gloss"; u "persName"; u "q"].

Definition unrecognized (e : elem) : bool :=
  match local e with
  | Some l => negb (existsb (Py.eqb l) recognized_tags)
  | None => true
  end.

Lemma unrecognized_other (e : elem) : unrecognized e = true -> classify e = KOther.
Proof.
  unfold unrecognized, classify, local_is.
  destruct (local e) as [l|]; [|reflexivity].
  unfold recognized_tags. cbn [existsb]. intros H.
  apply negb_true_iff in H. repeat (apply orb_false_iff in H; destruct H as [? H]).
  repeat match goal with
         | E : Py.eqb l ?s = false |- _ => rewrite E; clear E
         end.
  reflexivity.
Qed.

Definition total (m : M unit) : Prop :=
  forall st, exists st', m st = Ok (tt, st').

Definition raises (m : M unit) : Prop :=
  forall st, m st = Raise ValueError.

Lemma total_bind (m k : M unit) : total m -> total k -> total (m ;; k).
Proof.
  intros Hm Hk st. destruct (Hm st) as [st1 H1]. destruct (Hk st1) as [st2 H2].
  exists st2. rewrite (bind_step _ _ _ H1). exact H2.
Qed.

Lemma total_ret : total (ret tt).
Proof. intros st. exists st. reflexivity. Qed.

Lemma total_append_content nd : total (append_content nd).
Proof. intros st. eexists. reflexivity. Qed.

Lemma total_append_text_if o : total (append_text_if o).
Proof. intros st. eexists. apply append_text_if_advance. Qed.

Lemma raises_bind_l (m k : M unit) : raises m -> raises (m ;; k).
Proof. intros H st. apply bind_raise, H. Qed.

Lemma raises_bind_r (m k : M unit) : total m -> raises k -> raises (m ;; k).
Proof.
  intros Hm Hk st. destruct (Hm st) as [st1 H1].
  rewrite (bind_step _ _ _ H1). apply Hk.
Qed.

Lemma lookahead_total next_sib :
  lookahead_ok next_sib = true -> exists grc, lookahead next_sib = Ok grc.
Proof.
  destruct next_sib as [sib|]; simpl; [|eexists; reflexivity].
  unfold is_element. destruct (tag sib) as [q|]; [|discriminate].
  intros _. destruct (Py.eqb (localname q) (u "gloss")); [|eexists; reflexivity].
  destruct (find (tei "foreign") sib); eexists; reflexivity.
Qed.

Lemma lookahead_raises next_sib :
  lookahead_ok next_sib = false -> lookahead next_sib = Raise ValueError.
Proof.
  destruct next_sib as [sib|]; simpl; [|discriminate].
  unfold is_element. destruct (tag sib); [discriminate|reflexivity].
Qed.


Definition decided (safe : bool) (m : M unit) : Prop :=
  (safe = true -> total m) /\ (safe = false -> raises m).

Lemma walk_children_decided (cs : list elem) :
  Forall (fun c => forall nx tl,
            decided (walk_safe c nx) (process_element c nx tl)) cs ->
  decided (children_safe cs)
    (walk_children (fun c nx => process_element c nx None) cs).
Proof.
  induction 1 as [|c rest Hc _ IH]; simpl.
  - split; [intros _; apply total_ret | discriminate].
  - destruct (Hc (hd_error rest) None) as [Ht Hr]. destruct IH as [IHt IHr].
    destruct (walk_safe c (hd_error rest)); simpl.
    + split; intros E.
      * apply total_bind; [apply Ht; reflexivity|].
        apply total_bind; [apply total_append_text_if | apply IHt, E].
      * apply raises_bind_r; [apply Ht; reflexivity|].
        apply raises_bind_r; [apply total_append_text_if | apply IHr, E].
    + split; [discriminate|]. intros _. apply raises_bind_l, Hr. reflexivity.
Qed.

Lemma branch_decided (e : elem) nx :
  Forall (fun c => forall nx tl,
            decided (walk_safe c nx) (process_element c nx tl)) (children e) ->
  decided (walk_safe e nx) (branch e nx).
Proof.
  intros IH. rewrite walk_safe_branch. unfold branch.
  destruct (classify e);
    try (split; [intros _; apply total_append_content | discriminate]).
  - split; [|discriminate]. intros _ st. eexists. apply app_branch_advance.
  - split; intros E st.
    + destruct (lookahead_total nx E) as [grc Hg].
      unfold bind, lift. rewrite Hg. eexists. reflexivity.
    + unfold bind, lift. rewrite (lookahead_raises nx E). reflexivity.
  - split; [intros _; apply total_ret | discriminate].
  - destruct (walk_children_decided IH) as [Ht Hr]. split; intros E.
    + apply total_bind; [apply total_append_text_if | apply Ht, E].
    + apply raises_bind_r; [apply total_append_text_if | apply Hr, E].
Qed.

(** The walk of an element succeeds exactly when it is [walk_safe], and
    raises [ValueError] otherwise. *)
Lemma process_element_decided (e : elem) :
  forall nx tl, decided (walk_safe e nx) (process_element e nx tl).
Proof.
  induction e as [t a x cs tl' IH] using elem_induction. intros nx tl.
  rewrite process_element_branch.
  destruct (branch_decided (Elem t a x cs tl') nx IH) as [Ht Hr].
  split; intros E.
  - apply total_bind; [apply Ht, E | apply total_append_text_if].
  - apply raises_bind_l, Hr, E.
Qed.

(** The fallback branch, spelled out on the state: the leading text, the
    children with their tails, nothing else. *)
Lemma process_other (e : elem) next_sib st :
  classify e = KOther ->
  process_element e next_sib None st
  = walk_children (fun c nx => process_element c nx None) (children e)
      (advance st (text_if (text e)) []).
Proof.
  intros H. rewrite process_element_branch. unfold branch. rewrite H.
  unfold bind at 1. unfold bind at 1.
  rewrite append_text_if_advance.
  destruct (walk_children _ _ _) as [[[] st']|x]; reflexivity.
Qed.

Lemma process_term (e : elem) next_sib st :
  classify e = KTerm ->
  process_element e next_sib None st
  = Ok (tt, advance st
              [term_node
                 (Py.replace (u "#") (u "") (get_or e (u "target") (u "")))
                 (inner_text e)] []).
Proof.
  intros H. rewrite process_element_branch. unfold branch. rewrite H.
  unfold bind. rewrite append_content_advance. reflexivity.
Qed.


Lemma term_classify (e : elem) :
  local_is (u "term") e = true -> classify e = KTerm.
Proof.
  unfold classify, local_is. destruct (local e) as [l|]; [|discriminate].
  intros H. apply Py.eqb_eq in H. subst l. reflexivity.
Qed.


(** ** The text of a content sequence and of a section *)

Definition opt_str (o : option str) : str :=
  match o with Some s => s | None => [] end.

(** The source text a node carries. *)
Definition node_text (nd : ContentNode.t) : str :=
  match ContentNode.type nd with
  | TText => opt_str (ContentNode.value nd)
  | TApp => opt_str (ContentNode.lem nd)
  | TTerm | TGreek => opt_str (ContentNode.text nd)
  | TMentioned => opt_str (ContentNode.ka nd)
  | TFolio => []
  end.

Definition rendered (ns : list ContentNode.t) : str :=
  Py.join (map node_text ns).

(** The paragraphs below a section element that lie in no other paragraph,
    and the running text of the section: their inner text, in document
    order. *)
Definition top_paragraphs (div : elem) : list elem :=
  flat_map (fun n => match n with
                     | NElem anc e =>
                         if has_tag (tei "p") e
                            && negb (existsb (has_tag (tei "p")) anc)
                         then [e] else []
                     | NText _ _ => []
                     end) (nodes_below div).

Definition running_text (div : elem) : str :=
  Py.join (map inner_text (top_paragraphs div)).

(** The words of the specification: the nodes of a section, concatenated
    in order, are the running text of the section. *)
Definition spec_order_round_trip (div : elem) : Prop :=
  forall counter content apparatus counter',
    _parse_section_content div counter = Ok (content, apparatus, counter') ->
    rendered content = running_text div.

(** An element whose text the walk keeps whole: an element of the
    fallback branch with such children (a comment or processing instruction
    only without text), a cross-reference, a Greek span, a mentioned term,
    a person name or quotation; an apparatus element whose text is that of
    its lemma; a gloss or a folio marker without text. *)
Fixpoint lossless (e : elem) : bool :=
  match e with
  | Elem t a x cs tl =>
      let self := Elem t a x cs tl in
      match classify self with
      | KOther =>
          (is_element self || negb (Py.truthy x))
          && (fix all (l : list elem) : bool :=
                match l with
                | [] => true
                | c :: rest => lossless c && all rest
                end) cs
      | KTerm | KForeign | KPlain | KMentioned => true
      | KApp => Py.eqb (inner_text self) (lem_text self)
      | KGloss | KPb | KMilestone | KCb => negb (Py.nonempty (inner_text self))
      end
  end.

Lemma lossless_branch (e : elem) :
  lossless e
  = match classify e with
    | KOther =>
        (is_element e || negb (Py.truthy (text e)))
        && forallb lossless (children e)
    | KTerm | KForeign | KPlain | KMentioned => true
    | KApp => Py.eqb (inner_text e) (lem_text e)
    | KGloss | KPb | KMilestone | KCb => negb (Py.nonempty (inner_text e))
    end.
Proof.
  destruct e as [t a x cs tl]. simpl. destruct (classify _); reflexivity.
Qed.

(** A successful step that appends nodes of text [txt]. *)
Definition renders (m : M unit) (txt : str) : Prop :=
  forall st st', m st = Ok (tt, st') ->
  exists ns, content st' = content st ++ ns /\ rendered ns = txt.

Lemma rendered_app ns1 ns2 : rendered (ns1 ++ ns2) = rendered ns1 ++ rendered ns2.
Proof. unfold rendered, Py.join. rewrite map_app, concat_app. reflexivity. Qed.

Lemma renders_bind (m k : M unit) a b :
  renders m a -> renders k b -> renders (m ;; k) (a ++ b).
Proof.
  intros Hm Hk st st'' H. apply bind_ok in H.
  destruct H as ([] & st' & H1 & H2).
  apply Hm in H1. destruct H1 as (ns1 & E1 & R1).
  apply Hk in H2. destruct H2 as (ns2 & E2 & R2).
  exists (ns1 ++ ns2). split.
  - rewrite E2, E1, app_assoc. reflexivity.
  - rewrite rendered_app, R1, R2. reflexivity.
Qed.

Lemma renders_ret : renders (ret tt) [].
Proof.
  intros st st' H. injection H as <-. exists [].
  split; [rewrite app_nil_r|]; reflexivity.
Qed.

Lemma renders_append_content nd : renders (append_content nd) (node_text nd).
Proof.
  intros st st' H. injection H as <-. exists [nd]. split; [reflexivity|].
  unfold rendered, Py.join. simpl. apply app_nil_r.
Qed.

Lemma renders_append_text_if o :
  renders (append_text_if o) (Py.join (opt_list o)).
Proof.
  destruct o as [s|]; simpl; [|apply renders_ret].
  destruct s as [|c s]; simpl; [apply renders_ret|].
  intros st st' H. apply renders_append_content in H.
  destruct H as (ns & E & R). exists ns. split; [exact E|].
  rewrite R. unfold node_text. simpl. rewrite app_nil_r. reflexivity.
Qed.


(** The text of a run of siblings: of each its inner text and its tail. *)
Definition siblings_text (cs : list elem) : str :=
  Py.join (flat_map (fun k => itertext k ++ opt_list (tail k)) cs).

Lemma siblings_text_cons c rest :
  siblings_text (c :: rest)
  = inner_text c ++ Py.join (opt_list (tail c)) ++ siblings_text rest.
Proof.
  unfold siblings_text, inner_text, Py.join. simpl.
  rewrite <- app_assoc, !concat_app, app_assoc. reflexivity.
Qed.

Lemma inner_text_children (e : elem) :
  inner_text e
  = Py.join (if is_element e then opt_list (text e) else [])
    ++ siblings_text (children e).
Proof.
  destruct e as [t a x cs tl]. unfold inner_text, siblings_text, Py.join.
  simpl. rewrite concat_app. unfold is_element. simpl.
  destruct t; reflexivity.
Qed.

Lemma nonempty_false (s : str) : Py.nonempty s = false -> s = [].
Proof. destruct s; [reflexivity|discriminate]. Qed.

Lemma renders_eq (m : M unit) a b : a = b -> renders m a -> renders m b.
Proof. intros ->. exact (fun H => H). Qed.

Lemma renders_walk_children (cs : list elem) :
  Forall (fun c => lossless c = true ->
                   forall nx, renders (process_element c nx None) (inner_text c))
    cs ->
  forallb lossless cs = true ->
  renders (walk_children (fun c nx => process_element c nx None) cs)
    (siblings_text cs).
Proof.
  induction 1 as [|c rest Hc _ IH]; simpl; intros L.
  - apply renders_ret.
  - apply andb_true_iff in L. destruct L as [Lc Lrest].
    rewrite siblings_text_cons.
    apply renders_bind; [apply Hc, Lc|].
    apply renders_bind; [apply renders_append_text_if | apply IH, Lrest].
Qed.

Lemma node_text_app (e : elem) k :
  node_text (app_content_node e k) = lem_text e.
Proof.
  unfold app_content_node. destruct (collect_readings e). reflexivity.
Qed.

Lemma renders_branch (e : elem) nx :
  Forall (fun c => lossless c = true ->
                   forall nx, renders (process_element c nx None) (inner_text c))
    (children e) ->
  lossless e = true ->
  renders (branch e nx) (inner_text e).
Proof.
  intros IH. rewrite lossless_branch. unfold branch.
  assert (Hnode : forall nd, node_text nd = inner_text e ->
                             renders (append_content nd) (inner_text e)).
  { intros nd <-. apply renders_append_content. }
  assert (Hdrop : forall m, renders m [] ->
                            negb (Py.nonempty (inner_text e)) = true ->
                            renders m (inner_text e)).
  { intros m Hm L. apply negb_true_iff, nonempty_false in L. rewrite L.
    exact Hm. }
  destruct (classify e); intros L.
  - apply Py.eqb_eq in L. intros st st' H. rewrite app_branch_advance in H.
    injection H as <-. eexists. split; [reflexivity|].
    unfold rendered, Py.join. simpl.
    rewrite node_text_app, app_nil_r. symmetry. exact L.
  - apply Hnode. reflexivity.
  - apply Hdrop; [|exact L].
    eapply renders_eq; [|apply renders_append_content]. reflexivity.
  - apply Hdrop; [|exact L].
    eapply renders_eq; [|apply renders_append_content]. reflexivity.
  - apply Hdrop; [|exact L].
    eapply renders_eq; [|apply renders_append_content]. reflexivity.
  - apply Hnode. reflexivity.
  - intros st st' H. apply bind_ok in H. destruct H as (grc & st1 & H1 & H2).
    unfold lift in H1. destruct (lookahead nx); [|discriminate].
    injection H1 as <- <-. revert H2. apply Hnode. reflexivity.
  - apply Hdrop; [apply renders_ret | exact L].
  - apply Hnode. reflexivity.
  - apply andb_true_iff in L. destruct L as [Lx Lcs].
    rewrite inner_text_children.
    apply renders_bind; [|apply renders_walk_children; assumption].
    destruct (is_element e); [apply renders_append_text_if|].
    simpl in Lx. apply negb_true_iff in Lx.
    eapply renders_eq; [|apply renders_append_text_if].
    destruct (text e) as [s|]; [|reflexivity].
    simpl in Lx. apply nonempty_false in Lx. subst s. reflexivity.
Qed.

Lemma renders_process_element (e : elem) :
  lossless e = true ->
  forall nx, renders (process_element e nx None) (inner_text e).
Proof.
  induction e as [t a x cs tl' IH] using elem_induction. intros L nx.
  rewrite process_element_branch.
  eapply renders_eq; [apply app_nil_r|].
  apply renders_bind; [|apply renders_ret].
  apply renders_branch; assumption.
Qed.

(** A paragraph all of whose children are lossless. *)
Definition lossless_paragraph (p : elem) : bool :=
  forallb lossless (children p).

Lemma renders_walk_paragraph (p : elem) :
  is_element p = true -> lossless_paragraph p = true ->
  renders (walk_paragraph p) (inner_text p).
Proof.
  intros Hel L. unfold walk_paragraph. rewrite inner_text_children, Hel.
  apply renders_bind; [apply renders_append_text_if|].
  apply renders_walk_children; [|exact L].
  apply Forall_forall. intros c _. apply renders_process_element.
Qed.

Lemma renders_walk_paragraphs (ps : list elem) :
  Forall (fun p => is_element p = true /\ lossless_paragraph p = true) ps ->
  renders (walk_paragraphs ps) (Py.join (map inner_text ps)).
Proof.
  induction 1 as [|p ps [Hel L] _ IH]; simpl.
  - apply renders_ret.
  - apply renders_bind; [apply renders_walk_paragraph; assumption | exact IH].
Qed.

Lemma total_walk_paragraphs (ps : list elem) :
  Forall (fun p => children_safe (children p) = true) ps ->
  total (walk_paragraphs ps).
Proof.
  induction 1 as [|p ps Hs _ IH]; simpl.
  - apply total_ret.
  - apply total_bind; [|exact IH]. unfold walk_paragraph.
    apply total_bind; [apply total_append_text_if|].
    refine (proj1 (walk_children_decided _) Hs).
    apply Forall_forall. intros c _. apply process_element_decided.
Qed.

Lemma paragraphs_are_elements (div p : elem) :
  In p (paragraphs div) -> is_element p = true.
Proof.
  unfold paragraphs, select_elems. intros H. apply in_flat_map in H.
  destruct H as ([anc e|anc s] & _ & H); [|destruct H].
  destruct (has_tag (tei "p") e) eqn:E; simpl in H; [|destruct H].
  destruct H as [<-|[]]. unfold has_tag in E. unfold is_element.
  destruct (tag e); [reflexivity|discriminate].
Qed.


(** ** Absence of a header element *)

(** The elements, comments and processing instructions of a subtree. *)
Fixpoint subtree (e : elem) : list elem :=
  match e with
  | Elem t a x cs tl => Elem t a x cs tl :: flat_map subtree cs
  end.

Lemma subtree_self (e : elem) : In e (subtree e).
Proof. destruct e. left. reflexivity. Qed.

Lemma subtree_child (e c d : elem) :
  In c (children e) -> In d (subtree c) -> In d (subtree e).
Proof.
  destruct e as [t a x cs tl]. simpl. intros Hc Hd. right.
  apply in_flat_map. exists c. split; assumption.
Qed.

Lemma text_node_chain anc o n :
  In n (text_node anc o) -> exists s, n = NText anc s.
Proof.
  destruct o as [s|]; simpl; [|intros []].
  destruct (Py.nonempty s); simpl; [|intros []].
  intros [<-|[]]. exists s. reflexivity.
Qed.

(** The ancestors recorded with a text node of a subtree are the given
    ones and nodes of the subtree. *)
Lemma nodes_text_chain (e : elem) : forall anc anc' s,
  In (NText anc' s) (nodes anc e) ->
  forall a, In a anc' -> In a anc \/ In a (subtree e).
Proof.
  induction e as [t at' x cs tl IH] using elem_induction.
  intros anc anc' s H a Ha. simpl in H. destruct H as [H|H]; [discriminate|].
  set (self := Elem t at' x cs tl) in *.
  assert (Hself : forall b, In b (self :: anc) -> In b anc \/ In b (subtree self)).
  { intros b [<-|Hb]; [right; apply subtree_self | left; exact Hb]. }
  apply in_app_or in H. destruct H as [H|H].
  - destruct t; [|destruct H].
    apply text_node_chain in H. destruct H as (s' & H). injection H as -> _.
    apply Hself, Ha.
  - apply in_flat_map in H. destruct H as (k & Hk & H).
    apply in_app_or in H. destruct H as [H|H].
    + rewrite Forall_forall in IH.
      destruct (IH k Hk _ _ _ H a Ha) as [Hb|Hb].
      * apply Hself, Hb.
      * right. apply (subtree_child self k a Hk Hb).
    + apply text_node_chain in H. destruct H as (s' & H). injection H as -> _.
      apply Hself, Ha.
Qed.

Lemma chain_last (steps : list (elem -> bool)) (p : elem -> bool) :
  forall anc, chain (steps ++ [p]) anc = true ->
  exists a, In a anc /\ p a = true.
Proof.
  induction steps as [|q steps IH]; intros [|a anc]; simpl; try discriminate.
  - intros H. apply andb_true_iff in H. destruct H as [H _].
    exists a. split; [left; reflexivity|exact H].
  - intros H. apply andb_true_iff in H. destruct H as [_ H].
    destruct (IH anc H) as (b & Hb & Pb). exists b.
    split; [right; exact Hb|exact Pb].
Qed.

(** A path whose outermost step no node of the document satisfies selects
    no text. *)
Lemma select_texts_absent (steps : list (elem -> bool)) (p : elem -> bool)
    (tree : elem) :
  forallb (fun e => negb (p e)) (subtree tree) = true ->
  select_texts (steps ++ [p]) (nodes [] tree) = [].
Proof.
  intros Habs. rewrite forallb_forall in Habs.
  unfold select_texts.
  assert (H : forall n, In n (nodes [] tree) ->
            match n with
            | NText anc s => if chain (steps ++ [p]) anc then [s] else []
            | NElem _ _ => []
            end = []).
  { intros [anc e|anc s] Hn; [reflexivity|].
    destruct (chain (steps ++ [p]) anc) eqn:C; [|reflexivity].
    apply chain_last in C. destruct C as (a & Ha & Pa).
    destruct (nodes_text_chain tree [] anc s Hn a Ha) as [[]|Hin].
    apply Habs in Hin. rewrite Pa in Hin. discriminate. }
  induction (nodes [] tree) as [|n l IH]; [reflexivity|].
  simpl. rewrite (H n (or_introl eq_refl)). simpl.
  apply IH. intros m Hm. apply H. right. exact Hm.
Qed.

(** The [mentioned] branch before an element sibling. *)
Lemma process_mentioned (e sib : elem) st :
  classify e = KMentioned -> is_element sib = true ->
  process_element e (Some sib) None st
  = Ok (tt, advance st
              [mentioned_node (inner_text e)
                 (if local_is (u "gloss") sib
                  then option_map inner_text (find (tei "foreign") sib)
                  else None)] []).
Proof.
  intros K Hel. rewrite process_element_branch. unfold branch. rewrite K.
  unfold bind, lift, lookahead, local_is, local, is_element in *.
  destruct (tag sib) as [q|]; [|discriminate].
  destruct (Py.eqb (localname q) (u "gloss")).
  - destruct (find (tei "foreign") sib); cbv beta iota;
      rewrite append_content_advance; reflexivity.
  - cbv beta iota. rewrite append_content_advance. reflexivity.
Qed.


(** ** Invariants of the emitted nodes and entries

    A property of every node and of every entry that a branch can build is
    a property of everything a successful walk appends. *)

Section emitted.
Variable Pn : ContentNode.t -> Prop.
Variable Pe : AppEntry.t -> Prop.
Hypothesis Pn_text : forall s, Pn (text_node_of s).
Hypothesis Pn_app : forall e k, Pn (app_content_node e k).
Hypothesis Pn_term : forall e,
  Pn (term_node (Py.replace (u "#") (u "") (get_or e (u "target") (u "")))
        (inner_text e)).
Hypothesis Pn_folio : forall e n, Pn (folio_node (folio_ed e) n).
Hypothesis Pn_greek : forall s, Pn (greek_node s).
Hypothesis Pn_mentioned : forall s grc, Pn (mentioned_node s grc).
Hypothesis Pe_app : forall e k, Pe (app_entry e k).

Definition emits (m : M unit) : Prop :=
  forall st st', m st = Ok (tt, st') ->
  exists ns es, st' = advance st ns es /\ Forall Pn ns /\ Forall Pe es.

Lemma emits_bind (m k : M unit) : emits m -> emits k -> emits (m ;; k).
Proof.
  intros Hm Hk st st'' H. apply bind_ok in H.
  destruct H as ([] & st' & H1 & H2).
  apply Hm in H1. destruct H1 as (ns1 & es1 & -> & N1 & E1).
  apply Hk in H2. destruct H2 as (ns2 & es2 & -> & N2 & E2).
  exists (ns1 ++ ns2), (es1 ++ es2). rewrite advance_advance.
  split; [reflexivity|]. split; apply Forall_app; split; assumption.
Qed.

Lemma emits_ret : emits (ret tt).
Proof.
  intros st st' H. injection H as <-. exists [], [].
  rewrite advance_nil. repeat split; constructor.
Qed.

Lemma emits_append_content nd : Pn nd -> emits (append_content nd).
Proof.
  intros Hnd st st' H. rewrite append_content_advance in H. injection H as <-.
  exists [nd], []. split; [reflexivity|]. split; repeat constructor. exact Hnd.
Qed.

Lemma emits_append_text_if o : emits (append_text_if o).
Proof.
  intros st st' H. rewrite append_text_if_advance in H. injection H as <-.
  exists (text_if o), []. split; [reflexivity|]. split; [|constructor].
  unfold text_if. destruct (Py.truthy o); repeat constructor. apply Pn_text.
Qed.

Lemma emits_walk_children process cs :
  Forall (fun c => forall nx, emits (process c nx)) cs ->
  emits (walk_children process cs).
Proof.
  induction 1 as [|c cs Hc _ IH]; simpl.
  - apply emits_ret.
  - apply emits_bind; [apply Hc|].
    apply emits_bind; [apply emits_append_text_if | exact IH].
Qed.

Lemma emits_branch (e : elem) nx :
  Forall (fun c => forall nx tl, emits (process_element c nx tl)) (children e) ->
  emits (branch e nx).
Proof.
  intros IH. unfold branch. destruct (classify e).
  - intros st st' H. rewrite app_branch_advance in H. injection H as <-.
    eexists _, _. split; [reflexivity|].
    split; repeat constructor; [apply Pn_app | apply Pe_app].
  - apply emits_append_content, Pn_term.
  - apply emits_append_content, Pn_folio.
  - apply emits_append_content, Pn_folio.
  - apply emits_append_content, Pn_folio.
  - apply emits_append_content, Pn_greek.
  - intros st st' H. apply bind_ok in H. destruct H as (grc & st1 & H1 & H2).
    unfold lift in H1. destruct (lookahead nx); [|discriminate].
    injection H1 as <- <-. revert H2.
    apply emits_append_content, Pn_mentioned.
  - apply emits_ret.
  - apply emits_append_content, Pn_text.
  - apply emits_bind; [apply emits_append_text_if|].
    apply emits_walk_children.
    eapply Forall_impl; [|exact IH]. intros c Hc nx'. apply Hc.
Qed.

Lemma emits_process_element (e : elem) :
  forall nx tl, emits (process_element e nx tl).
Proof.
  induction e as [t a x cs tl' IH] using elem_induction. intros nx tl.
  rewrite process_element_branch.
  apply emits_bind; [|apply emits_append_text_if].
  apply emits_branch. exact IH.
Qed.

Lemma emits_walk_paragraphs ps : emits (walk_paragraphs ps).
Proof.
  induction ps as [|p ps IH]; simpl.
  - apply emits_ret.
  - apply emits_bind; [|exact IH]. unfold walk_paragraph.
    apply emits_bind; [apply emits_append_text_if|].
    apply emits_walk_children. apply Forall_forall.
    intros c _ nx. apply emits_process_element.
Qed.

Lemma parse_section_content_emits div k c a k' :
  _parse_section_content div k = Ok (c, a, k') ->
  Forall Pn c /\ Forall Pe a.
Proof.
  unfold _parse_section_content.
  destruct (walk_paragraphs (paragraphs div) (WalkState [] [] k))
    as [[[] st]|x] eqn:E; [|discriminate].
  intros H. injection H as <- <- <-.
  apply emits_walk_paragraphs in E.
  destruct E as (ns & es & -> & Hn & He). simpl. split; assumption.
Qed.

End emitted.


(** ** Sections and the elements they are built from *)

(** [s] is the section built from [div]: its content and apparatus are
    those of one walk of [div], its other fields come from [div]. *)
Definition built (base_urn : str) (div : elem) (s : SectionRecord.t) : Prop :=
  exists k k',
    _parse_section_content div k
    = Ok (SectionRecord.content s, SectionRecord.apparatus s, k')
    /\ s = build_section base_urn div (SectionRecord.content s)
             (SectionRecord.apparatus s).

Lemma sections_loop_built base divs : forall acc k out,
  sections_loop base divs acc k = Ok out ->
  exists new, out = acc ++ new /\ Forall2 (built base) divs new.
Proof.
  induction divs as [|div rest IH]; intros acc k out; simpl.
  - intros H. injection H as <-. exists []. rewrite app_nil_r.
    split; [reflexivity|constructor].
  - destruct (_parse_section_content div k) as [[[c a] k']|x] eqn:E;
      [|discriminate].
    intros H. apply IH in H. destruct H as (new & -> & F).
    exists (build_section base div c a :: new). split.
    + rewrite <- app_assoc. reflexivity.
    + constructor; [|exact F]. exists k, k'. split; [exact E|reflexivity].
Qed.

Lemma get_sections_built (tree : elem) sections :
  get_sections tree = Ok sections ->
  Forall2 (built (get_cts_urn tree)) (section_divs tree) sections.
Proof.
  unfold get_sections. intros H. apply sections_loop_built in H.
  destruct H as (new & -> & F). exact F.
Qed.

Lemma Forall2_right {A B} (R : A -> B -> Prop) (Q : B -> Prop) l l' :
  (forall a b, R a b -> Q b) -> Forall2 R l l' -> Forall Q l'.
Proof.
  intros H F. induction F as [|a b l l' Hab _ IH]; constructor;
    [apply (H a b Hab) | exact IH].
Qed.

(** ** Removal of the fragment marker *)

Definition HASH : N := 35%N.

Lemma replace_hash_filter (s : str) :
  Py.replace (u "#") (u "") s = filter (fun c => negb (N.eqb HASH c)) s.
Proof.
  change (Py.replace (u "#") (u "") s) with (Py.replace_from [HASH] [] 0 s).
  induction s as [|c s IH]; [reflexivity|].
  rewrite replace_from_scan. cbn [Py.startswith length pred filter].
  rewrite andb_true_r. destruct (N.eqb HASH c); simpl; rewrite IH; reflexivity.
Qed.

Definition hash_free (s : str) : Prop := ~ In HASH s.

Lemma replace_hash_free (s : str) : hash_free (Py.replace (u "#") (u "") s).
Proof.
  rewrite replace_hash_filter. intros H. apply filter_In in H.
  destruct H as [_ H]. rewrite N.eqb_refl in H. discriminate.
Qed.

Definition opt_hash_free (o : option str) : Prop :=
  match o with Some s => hash_free s | None => True end.

Definition node_hash_free (nd : ContentNode.t) : Prop :=
  opt_hash_free (ContentNode.target nd) /\ opt_hash_free (ContentNode.ed nd).

Definition entry_hash_free (a : AppEntry.t) : Prop :=
  opt_hash_free (AppEntry.lem_wit a)
  /\ Forall (fun r => hash_free (Reading.wit r)) (AppEntry.readings a).

Lemma app_entry_hash_free (e : elem) k : entry_hash_free (app_entry e k).
Proof.
  split.
  - unfold app_entry. destruct (collect_readings e). simpl.
    unfold lem_wit. destruct (find (tei "lem") e); simpl;
      [apply replace_hash_free | exact I].
  - rewrite app_entry_readings, collect_readings_fst.
    apply Forall_forall. intros r Hr. apply in_map_iff in Hr.
    destruct Hr as (rdg & <- & _). apply replace_hash_free.
Qed.

Lemma app_node_hash_free (e : elem) k : node_hash_free (app_content_node e k).
Proof.
  unfold app_content_node. destruct (collect_readings e). split; exact I.
Qed.

(** ** The fields of a node by its type *)

Definition is_some {A} (o : option A) : bool :=
  match o with Some _ => true | None => false end.

(** Which fields a node of each type holds: the listed ones, and no
    other ([rdg_s], [note] and [grc] may be [None] where they are
    allowed). *)
Definition well_shaped (nd : ContentNode.t) : bool :=
  let has := fun (value id index lem target text ed n ka : bool) =>
    Bool.eqb (is_some (ContentNode.value nd)) value
    && Bool.eqb (is_some (ContentNode.id nd)) id
    && Bool.eqb (is_some (ContentNode.index nd)) index
    && Bool.eqb (is_some (ContentNode.lem nd)) lem
    && Bool.eqb (is_some (ContentNode.target nd)) target
    && Bool.eqb (is_some (ContentNode.text nd)) text
    && Bool.eqb (is_some (ContentNode.ed nd)) ed
    && Bool.eqb (is_some (ContentNode.n nd)) n
    && Bool.eqb (is_some (ContentNode.ka nd)) ka in
  match ContentNode.type nd with
  | TText => has true false false false false false false false false
             && negb (is_some (ContentNode.rdg_s nd))
             && negb (is_some (ContentNode.note nd))
             && negb (is_some (ContentNode.grc nd))
  | TApp => has false true true true false false false false false
            && negb (is_some (ContentNode.grc nd))
  | TTerm => has false false false false true true false false false
             && negb (is_some (ContentNode.rdg_s nd))
             && negb (is_some (ContentNode.note nd))
             && negb (is_some (ContentNode.grc nd))
  | TFolio => has false false false false false false true true false
              && negb (is_some (ContentNode.rdg_s nd))
              && negb (is_some (ContentNode.note nd))
              && negb (is_some (ContentNode.grc nd))
  | TGreek => has false false false false false true false false false
              && negb (is_some (ContentNode.rdg_s nd))
              && negb (is_some (ContentNode.note nd))
              && negb (is_some (ContentNode.grc nd))
  | TMentioned => has false false false false false false false false true
                  && negb (is_some (ContentNode.rdg_s nd))
                  && negb (is_some (ContentNode.note nd))
  end.

Lemma app_node_well_shaped (e : elem) k :
  well_shaped (app_content_node e k) = true.
Proof. unfold app_content_node. destruct (collect_readings e). reflexivity. Qed.


Lemma parse_section_content_hash_free div k c a k' :
  _parse_section_content div k = Ok (c, a, k') ->
  Forall node_hash_free c /\ Forall entry_hash_free a.
Proof.
  apply parse_section_content_emits.
  - intros s. split; exact I.
  - apply app_node_hash_free.
  - intros e. split; [apply replace_hash_free | exact I].
  - intros e n. split; [exact I | apply replace_hash_free].
  - intros s. split; exact I.
  - intros s grc. split; exact I.
  - apply app_entry_hash_free.
Qed.

Lemma parse_section_content_well_shaped div k c a k' :
  _parse_section_content div k = Ok (c, a, k') ->
  Forall (fun nd => well_shaped nd = true) c.
Proof.
  intros H.
  refine (proj1 (parse_section_content_emits (fun nd => well_shaped nd = true)
                   (fun _ => True) _ _ _ _ _ _ _ _ _ H));
    first [ apply app_node_well_shaped
          | intros s [grc|]; reflexivity
          | reflexivity ].
Qed.


Lemma advance_node st nd :
  advance st [nd] []
  = WalkState (content st ++ [nd]) (apparatus st) (app_counter st).
Proof.
  unfold advance. cbn [length Z.of_nat]. rewrite app_nil_r, Z.add_0_r.
  reflexivity.
Qed.

Lemma process_single (e : elem) next_sib st nd :
  branch e next_sib = append_content nd ->
  process_element e next_sib None st
  = Ok (tt, WalkState (content st ++ [nd]) (apparatus st) (app_counter st)).
Proof.
  intros H. rewrite process_element_branch, H. unfold bind.
  rewrite append_content_advance, advance_node. reflexivity.
Qed.


(** ** Success of a whole extraction *)

Definition section_safe (div : elem) : bool :=
  forallb (fun p => children_safe (children p)) (paragraphs div).

Lemma walk_paragraphs_decided (ps : list elem) :
  decided (forallb (fun p => children_safe (children p)) ps)
    (walk_paragraphs ps).
Proof.
  induction ps as [|p ps [IHt IHr]]; simpl.
  - split; [intros _; apply total_ret | discriminate].
  - assert (Hp : decided (children_safe (children p)) (walk_paragraph p)).
    { unfold walk_paragraph.
      destruct (walk_children_decided (cs := children p)) as [Ht Hr].
      { apply Forall_forall. intros c _. apply process_element_decided. }
      split; intros E.
      - apply total_bind; [apply total_append_text_if | apply Ht, E].
      - apply raises_bind_r; [apply total_append_text_if | apply Hr, E]. }
    destruct Hp as [Ht Hr].
    destruct (children_safe (children p)); simpl.
    + split; intros E.
      * apply total_bind; [apply Ht; reflexivity | apply IHt, E].
      * apply raises_bind_r; [apply Ht; reflexivity | apply IHr, E].
    + split; [discriminate|]. intros _. apply raises_bind_l, Hr. reflexivity.
Qed.

Lemma parse_section_content_ok (div : elem) k :
  section_safe div = true ->
  exists c a k', _parse_section_content div k = Ok (c, a, k').
Proof.
  intros H. unfold _parse_section_content.
  destruct (proj1 (walk_paragraphs_decided (paragraphs div)) H
              (WalkState [] [] k)) as [st' E].
  rewrite E. eexists _, _, _. reflexivity.
Qed.

Lemma parse_section_content_raises (div : elem) k :
  section_safe div = false ->
  _parse_section_content div k = Raise ValueError.
Proof.
  intros H. unfold _parse_section_content.
  rewrite (proj2 (walk_paragraphs_decided (paragraphs div)) H). reflexivity.
Qed.

Lemma sections_loop_decided base divs : forall acc k,
  (forallb section_safe divs = true ->
   exists out, sections_loop base divs acc k = Ok out)
  /\ (forallb section_safe divs = false ->
      sections_loop base divs acc k = Raise ValueError).
Proof.
  induction divs as [|div rest IH]; intros acc k; simpl.
  - split; [intros _; eexists; reflexivity | discriminate].
  - destruct (section_safe div) eqn:S; simpl.
    + destruct (parse_section_content_ok div k S) as (c & a & k' & E).
      rewrite E. apply IH.
    + split; [discriminate|]. intros _.
      rewrite (parse_section_content_raises div k S). reflexivity.
Qed.

(** ** [str.strip] *)

Definition no_space_at_head (s : str) : Prop :=
  match s with
  | [] => True
  | c :: _ => Py.isspace c = false
  end.

Lemma lstrip_head (s : str) : no_space_at_head (Py.lstrip s).
Proof.
  induction s as [|c s IH]; simpl; [exact I|].
  destruct (Py.isspace c) eqn:E; [exact IH | exact E].
Qed.

Lemma lstrip_suffix (s : str) :
  exists w, s = w ++ Py.lstrip s /\ Forall (fun c => Py.isspace c = true) w.
Proof.
  induction s as [|c s (w & E & F)]; simpl.
  - exists []. split; [reflexivity|constructor].
  - destruct (Py.isspace c) eqn:S.
    + exists (c :: w). split; [simpl; rewrite <- E; reflexivity|].
      constructor; assumption.
    + exists []. split; [reflexivity|constructor].
Qed.

Lemma rstrip_prefix (s : str) :
  exists w, s = Py.rstrip s ++ w /\ Forall (fun c => Py.isspace c = true) w.
Proof.
  unfold Py.rstrip. destruct (lstrip_suffix (rev s)) as (w & E & F).
  exists (rev w). split.
  - rewrite <- rev_app_distr, <- E, rev_involutive. reflexivity.
  - apply Forall_rev. exact F.
Qed.

(** [strip] cuts white space, and only white space, at both ends. *)
Lemma strip_spec (s : str) :
  exists a b,
    s = a ++ Py.strip s ++ b
    /\ Forall (fun c => Py.isspace c = true) a
    /\ Forall (fun c => Py.isspace c = true) b
    /\ no_space_at_head (Py.strip s)
    /\ no_space_at_head (rev (Py.strip s)).
Proof.
  unfold Py.strip.
  destruct (lstrip_suffix s) as (a & Ea & Fa).
  destruct (rstrip_prefix (Py.lstrip s)) as (b & Eb & Fb).
  exists a, b. split; [rewrite <- Eb; exact Ea|].
  split; [exact Fa|]. split; [exact Fb|]. split.
  - pose proof (lstrip_head s) as H. rewrite Eb in H.
    destruct (Py.rstrip (Py.lstrip s)); [exact I | exact H].
  - unfold Py.rstrip. rewrite rev_involutive. apply lstrip_head.
Qed.

Lemma strip_length (s : str) : (length (Py.strip s) <= length s)%nat.
Proof.
  destruct (strip_spec s) as (a & b & E & _).
  rewrite E at 2. rewrite !length_app. lia.
Qed.


(** ** Witness extractor: [get_witnesses] *)

Module Witness.
Record t := mk {
  id : option str;
  settlement : str;
  repository : str;
  locus : str
}.
End Witness.

(** [wit.xpath('.//tei:name/text()')], first result or the empty string. *)
Definition first_text_below (name : string) (wit : elem) : str :=
  first_or (u "") (select_texts [has_tag (tei name)] (nodes_below wit)).

(** The body of the loop over [tree.xpath('//tei:witness')]. *)
Definition witness_of (wit : elem) : Witness.t :=
  Witness.mk (get wit XML_ID)
    (first_text_below "settlement" wit)
    (first_text_below "repository" wit)
    (first_text_below "locus" wit).

Definition witness_elems (tree : elem) : list elem :=
  select_elems [] (has_tag (tei "witness")) (nodes [] tree).

Definition get_witnesses (tree : elem) : list Witness.t :=
  map witness_of (witness_elems tree).

Lemma select_texts_nil (steps : list (elem -> bool)) (ns : list node) :
  (forall anc s, In (NText anc s) ns -> chain steps anc = false) ->
  select_texts steps ns = [].
Proof.
  unfold select_texts. induction ns as [|n ns IH]; intros H; [reflexivity|].
  simpl. rewrite IH; [|intros anc s Hin; apply (H anc s); right; exact Hin].
  destruct n as [anc e|anc s]; [reflexivity|].
  rewrite (H anc s (or_introl eq_refl)). reflexivity.
Qed.

(** The nodes strictly below a context node. *)
Definition below (ctx : elem) : list elem := flat_map subtree (children ctx).

Lemma select_texts_below_absent (steps : list (elem -> bool))
    (p : elem -> bool) (ctx : elem) :
  forallb (fun e => negb (p e)) (below ctx) = true ->
  select_texts (steps ++ [p]) (nodes_below ctx) = [].
Proof.
  intros Habs. rewrite forallb_forall in Habs.
  apply select_texts_nil. intros anc s Hin.
  destruct (chain (steps ++ [p]) anc) eqn:C; [|reflexivity].
  apply chain_last in C. destruct C as (a & Ha & Pa). exfalso.
  assert (Hnil : forall o, In (NText anc s) (text_node [] o) -> False).
  { intros o Ho. apply text_node_chain in Ho. destruct Ho as (s' & Ho).
    injection Ho as -> _. destruct Ha. }
  unfold nodes_below in Hin. apply in_app_or in Hin. destruct Hin as [Hin|Hin].
  - destruct (is_element ctx); [apply (Hnil _ Hin)|destruct Hin].
  - apply in_flat_map in Hin. destruct Hin as (k & Hk & Hin).
    apply in_app_or in Hin. destruct Hin as [Hin|Hin]; [|apply (Hnil _ Hin)].
    destruct (nodes_text_chain k [] anc s Hin a Ha) as [[]|Hsub].
    assert (Hb : In a (below ctx)).
    { apply in_flat_map. exists k. split; assumption. }
    apply Habs in Hb. rewrite Pa in Hb. discriminate.
Qed.

(** ** The order of the headwords *)

Lemma leb_refl (a : str) : Py.leb a a = true.
Proof.
  induction a as [|x a IH]; [reflexivity|].
  simpl. rewrite N.eqb_refl, IH. apply orb_true_r.
Qed.

Lemma leb_total (a b : str) : Py.leb a b = false -> Py.leb b a = true.
Proof.
  revert b. induction a as [|x a IH]; intros [|y b]; simpl; try congruence.
  intros H. apply orb_false_iff in H. destruct H as [Hlt H].
  apply N.ltb_ge in Hlt. apply andb_false_iff in H.
  destruct (N.eqb_spec x y) as [->|Hne].
  - destruct H as [H|H]; [discriminate|].
    rewrite N.eqb_refl, (IH b H). apply orb_true_r.
  - assert (Hyx : (y <? x)%N = true) by (apply N.ltb_lt; lia).
    rewrite Hyx. reflexivity.
Qed.

Lemma leb_trans (a b c : str) :
  Py.leb a b = true -> Py.leb b c = true -> Py.leb a c = true.
Proof.
  revert b c. induction a as [|x a IH]; intros [|y b] [|z c]; simpl;
    try congruence.
  intros H1 H2. apply orb_true_iff in H1. apply orb_true_iff in H2.
  apply orb_true_iff.
  destruct H1 as [H1|H1], H2 as [H2|H2];
    try apply N.ltb_lt in H1; try apply N.ltb_lt in H2;
    try (apply andb_true_iff in H1; destruct H1 as [E1 H1];
         apply N.eqb_eq in E1; subst);
    try (apply andb_true_iff in H2; destruct H2 as [E2 H2];
         apply N.eqb_eq in E2; subst).
  - left. apply N.ltb_lt. lia.
  - left. apply N.ltb_lt. exact H1.
  - left. apply N.ltb_lt. exact H2.
  - right. rewrite N.eqb_refl. simpl. apply (IH b c H1 H2).
Qed.

Definition lemma_le (a b : LexiconEntry.t) : Prop :=
  Py.leb (LexiconEntry.lemma a) (LexiconEntry.lemma b) = true.

Lemma insert_by_lemma_sorted x l :
  StronglySorted lemma_le l -> StronglySorted lemma_le (insert_by_lemma x l).
Proof.
  induction 1 as [|y l Hs IH Hy]; simpl.
  - repeat constructor.
  - destruct (Py.leb (LexiconEntry.lemma x) (LexiconEntry.lemma y)) eqn:E.
    + constructor; [constructor; assumption|].
      constructor; [exact E|].
      eapply Forall_impl; [|exact Hy]. intros z Hz.
      apply (leb_trans _ _ _ E Hz).
    + constructor; [exact IH|].
      eapply Permutation_Forall.
      * apply Permutation_sym, insert_by_lemma_perm.
      * constructor; [apply leb_total, E | exact Hy].
Qed.

Lemma sort_by_lemma_sorted l : StronglySorted lemma_le (sort_by_lemma l).
Proof.
  induction l as [|x l IH]; simpl; [constructor|].
  apply insert_by_lemma_sorted, IH.
Qed.

(** Insertion keeps the entries of one headword in their order. *)
Lemma insert_by_lemma_filter (k : str) x l :
  filter (fun e => Py.eqb (LexiconEntry.lemma e) k) (insert_by_lemma x l)
  = filter (fun e => Py.eqb (LexiconEntry.lemma e) k) (x :: l).
Proof.
  induction l as [|y l IH]; [reflexivity|].
  cbn [insert_by_lemma].
  destruct (Py.leb (LexiconEntry.lemma x) (LexiconEntry.lemma y)) eqn:E;
    [reflexivity|].
  cbn [filter] in *. rewrite IH.
  destruct (Py.eqb (LexiconEntry.lemma x) k) eqn:Ex; [|reflexivity].
  destruct (Py.eqb (LexiconEntry.lemma y) k) eqn:Ey; [|reflexivity].
  apply Py.eqb_eq in Ex, Ey. rewrite Ex, Ey, leb_refl in E. discriminate.
Qed.

Lemma sort_by_lemma_filter (k : str) l :
  filter (fun e => Py.eqb (LexiconEntry.lemma e) k) (sort_by_lemma l)
  = filter (fun e => Py.eqb (LexiconEntry.lemma e) k) l.
Proof.
  induction l as [|x l IH]; [reflexivity|].
  cbn [sort_by_lemma fold_right]. fold (sort_by_lemma l).
  rewrite insert_by_lemma_filter. cbn [filter]. rewrite IH. reflexivity.
Qed.


(** ** The section marker of the occurrence references *)

Definition SEC : str := [115; 101; 99; 46]%N.

Lemma SEC_no_straddle (c : N) (s b : str) :
  Py.startswith SEC (c :: s ++ SEC ++ b) = Py.startswith SEC (c :: s).
Proof.
  unfold SEC.
  destruct s as [|c2 [|c3 [|c4 s]]]; simpl;
    repeat match goal with
           | |- context [N.eqb ?x ?y] => destruct (N.eqb x y); simpl
           end; reflexivity.
Qed.

Lemma after_last_scan (sep : str) (cur : str) (c : N) (s : str) :
  Py.after_last sep 0 cur (c :: s)
  = if Py.startswith sep (c :: s)
    then Py.after_last sep (pred (length sep)) [] s
    else Py.after_last sep 0 (cur ++ [c]) s.
Proof. reflexivity. Qed.

Lemma after_last_absent (n : str) : forall cur,
  Py.contains SEC n = false -> Py.after_last SEC 0 cur n = cur ++ n.
Proof.
  induction n as [|c n IH]; intros cur H.
  - simpl. rewrite app_nil_r. reflexivity.
  - rewrite after_last_scan. cbn [Py.contains] in H.
    apply orb_false_iff in H. destruct H as [H1 H2]. rewrite H1.
    rewrite (IH _ H2), <- app_assoc. reflexivity.
Qed.

Lemma after_last_SEC (p n : str) : forall skip cur,
  (skip <= length p)%nat ->
  Py.contains SEC n = false ->
  Py.after_last SEC skip cur (p ++ SEC ++ n) = n.
Proof.
  induction p as [|c p IH]; intros skip cur Hskip Hn.
  - simpl in Hskip. replace skip with O by lia.
    change ([] ++ SEC ++ n) with (115%N :: [101; 99; 46]%N ++ n).
    rewrite after_last_scan.
    change (Py.startswith SEC (115%N :: [101; 99; 46]%N ++ n)) with true.
    cbn [Py.after_last length pred SEC app].
    apply after_last_absent. exact Hn.
  - change ((c :: p) ++ SEC ++ n) with (c :: (p ++ SEC ++ n)).
    destruct skip as [|k].
    + rewrite after_last_scan, SEC_no_straddle.
      change (pred (length SEC)) with 3%nat.
      destruct (Py.startswith SEC (c :: p)) eqn:E.
      * apply startswith_length in E. simpl in E. apply IH; [lia|exact Hn].
      * apply IH; [lia|exact Hn].
    + simpl in Hskip. cbn [Py.after_last]. apply IH; [lia|exact Hn].
Qed.

Lemma contains_app (needle p s : str) :
  Py.startswith needle s = true -> Py.contains needle (p ++ s) = true.
Proof.
  intros H. induction p as [|c p IH]; simpl.
  - destruct s; simpl; rewrite H; reflexivity.
  - rewrite IH. apply orb_true_r.
Qed.

Lemma occurrence_of_section (p n : str) :
  Py.contains (u "sec.") n = false ->
  occurrence_of (p ++ u "sec." ++ n) = [n].
Proof.
  intros Hn. unfold occurrence_of.
  change (u "sec.") with SEC in *.
  rewrite contains_app; [|reflexivity].
  rewrite after_last_SEC; [reflexivity|simpl; lia|exact Hn].
Qed.

(** ** Text nodes are not empty *)

Lemma nodes_text_nonempty (e : elem) : forall anc anc' s,
  In (NText anc' s) (nodes anc e) -> s <> [].
Proof.
  assert (Htn : forall anc o anc' s,
            In (NText anc' s) (text_node anc o) -> s <> []).
  { intros anc [t|] anc' s; simpl; [|intros []].
    destruct t; simpl; [intros []|]. intros [H|[]]. injection H as _ <-.
    discriminate. }
  induction e as [t a x cs tl IH] using elem_induction.
  intros anc anc' s H. simpl in H. destruct H as [H|H]; [discriminate|].
  apply in_app_or in H. destruct H as [H|H].
  - destruct t; [apply (Htn _ _ _ _ H)|destruct H].
  - apply in_flat_map in H. destruct H as (k & Hk & H).
    apply in_app_or in H. destruct H as [H|H]; [|apply (Htn _ _ _ _ H)].
    rewrite Forall_forall in IH. exact (IH k Hk _ _ _ H).
Qed.

Lemma nodes_below_text_nonempty (ctx : elem) anc s :
  In (NText anc s) (nodes_below ctx) -> s <> [].
Proof.
  assert (Htn : forall o, In (NText anc s) (text_node [] o) -> s <> []).
  { intros [t|]; simpl; [|intros []].
    destruct t; simpl; [intros []|]. intros [H|[]]. injection H as _ <-.
    discriminate. }
  unfold nodes_below. intros H. apply in_app_or in H. destruct H as [H|H].
  - destruct (is_element ctx); [apply (Htn _ H)|destruct H].
  - apply in_flat_map in H. destruct H as (k & Hk & H).
    apply in_app_or in H. destruct H as [H|H]; [|apply (Htn _ H)].
    exact (@nodes_text_nonempty k _ _ _ H).
Qed.

Lemma select_texts_nonempty steps ns :
  (forall anc s, In (NText anc s) ns -> s <> []) ->
  forall s, In s (select_texts steps ns) -> s <> [].
Proof.
  intros H s Hs. unfold select_texts in Hs. apply in_flat_map in Hs.
  destruct Hs as ([anc e|anc t] & Hn & Hs); [destruct Hs|].
  destruct (chain steps anc); [|destruct Hs].
  destruct Hs as [<-|[]]. apply (H anc t Hn).
Qed.

Lemma select_texts_exact_nonempty steps ns :
  (forall anc s, In (NText anc s) ns -> s <> []) ->
  forall s, In s (select_texts_exact steps ns) -> s <> [].
Proof.
  intros H s Hs. unfold select_texts_exact in Hs. apply in_flat_map in Hs.
  destruct Hs as ([anc e|anc t] & Hn & Hs); [destruct Hs|].
  destruct (chain_exact steps anc); [|destruct Hs].
  destruct Hs as [<-|[]]. apply (H anc t Hn).
Qed.

Lemma hd_error_in {A} (l : list A) x : hd_error l = Some x -> In x l.
Proof. destruct l; simpl; [discriminate|]. intros H. injection H as ->. left. reflexivity. Qed.


Lemma Forall2_map_r {A B} (R : A -> B -> Prop) (f : A -> B) (l : list A) :
  (forall a, R a (f a)) -> Forall2 R l (map f l).
Proof. intros H. induction l; simpl; constructor; auto. Qed.

(** [entry.xpath('.//tei:cit/tei:bibl/tei:ref/@target')] *)
Definition citation_targets (entry : elem) : list str :=
  select_attrs [has_tag (tei "bibl"); has_tag (tei "cit")]
    (has_tag (tei "ref")) (u "target") (nodes_below entry).


(** * The build script (scripts/build.py) *)

(** ** Python dictionaries

    A [dict] keeps its keys in insertion order; storing under a key that is
    present replaces the value in place. *)

Module PyDict.
Section dict.
Variables K V : Type.
Variable keqb : K -> K -> bool.
Hypothesis keqb_eq : forall a b, keqb a b = true <-> a = b.

Definition t := list (K * V).

(** [d[k] = v] *)
Fixpoint set (k : K) (v : V) (d : t) : t :=
  match d with
  | [] => [(k, v)]
  | (k', v') :: d' =>
      if keqb k' k then (k', v) :: d' else (k', v') :: set k v d'
  end.

(** [d.get(k)] *)
Fixpoint get (k : K) (d : t) : option V :=
  match d with
  | [] => None
  | (k', v') :: d' => if keqb k' k then Some v' else get k d'
  end.

Definition keys (d : t) : list K := map fst d.

(** [{key(x): value(x) for x in l}], from the dictionary [d]. *)
Definition comprehension {A} (key : A -> K) (value : A -> V) (l : list A)
    (d : t) : t :=
  fold_left (fun d x => set (key x) (value x) d) l d.

Lemma keqb_refl k : keqb k k = true.
Proof. apply keqb_eq. reflexivity. Qed.

Lemma get_set k k' v d :
  get k (set k' v d) = if keqb k' k then Some v else get k d.
Proof.
  induction d as [|[k0 v0] d IH]; simpl.
  - reflexivity.
  - destruct (keqb k0 k') eqn:E; simpl.
    + apply keqb_eq in E. subst k0. destruct (keqb k' k); reflexivity.
    + rewrite IH. destruct (keqb k0 k) eqn:E0; [|reflexivity].
      apply keqb_eq in E0. subst k0.
      destruct (keqb k' k) eqn:E1; [|reflexivity].
      apply keqb_eq in E1. subst k'. rewrite keqb_refl in E. discriminate.
Qed.

Lemma keys_set k v d :
  keys (set k v d) = if existsb (fun k' => keqb k' k) (keys d)
                     then keys d else keys d ++ [k].
Proof.
  induction d as [|[k0 v0] d IH]; simpl; [reflexivity|].
  destruct (keqb k0 k) eqn:E; simpl; [reflexivity|].
  unfold keys in *. rewrite IH.
  destruct (existsb (fun k' => keqb k' k) (map fst d)); reflexivity.
Qed.

Lemma keys_set_nodup k v d : NoDup (keys d) -> NoDup (keys (set k v d)).
Proof.
  intros H. rewrite keys_set.
  destruct (existsb (fun k' => keqb k' k) (keys d)) eqn:E; [exact H|].
  apply NoDup_app; [exact H | repeat constructor; intros [] | ].
  intros x Hx [->|[]].
  assert (existsb (fun k' => keqb k' x) (keys d) = true).
  { apply existsb_exists. exists x. split; [exact Hx|apply keqb_refl]. }
  congruence.
Qed.

Lemma find_app_last {A} (f : A -> bool) (l : list A) x :
  List.find f (l ++ [x])
  = match List.find f l with Some y => Some y | None => if f x then Some x else None end.
Proof.
  induction l as [|y l IH]; simpl; [reflexivity|].
  destruct (f y); [reflexivity|exact IH].
Qed.

(** Looking a key up in a comprehension finds the last element with
    that key. *)
Lemma get_comprehension {A} (key : A -> K) (value : A -> V) (l : list A) :
  forall d k,
  get k (comprehension key value l d)
  = match List.find (fun x => keqb (key x) k) (rev l) with
    | Some x => Some (value x)
    | None => get k d
    end.
Proof.
  unfold comprehension.
  induction l as [|x l IH]; intros d k; simpl; [reflexivity|].
  rewrite IH, find_app_last, get_set.
  destruct (List.find (fun x0 => keqb (key x0) k) (rev l)); [reflexivity|].
  destruct (keqb (key x) k); reflexivity.
Qed.

Lemma keys_comprehension_nodup {A} (key : A -> K) (value : A -> V)
    (l : list A) : forall d,
  NoDup (keys d) -> NoDup (keys (comprehension key value l d)).
Proof.
  unfold comprehension.
  induction l as [|x l IH]; intros d H; simpl; [exact H|].
  apply IH, keys_set_nodup, H.
Qed.

Lemma set_fresh k v d :
  ~ In k (keys d) -> set k v d = d ++ [(k, v)].
Proof.
  induction d as [|[k0 v0] d IH]; simpl; intros H; [reflexivity|].
  destruct (keqb k0 k) eqn:E.
  - apply keqb_eq in E. exfalso. apply H. left. exact E.
  - rewrite IH; [reflexivity|]. intros Hin. apply H. right. exact Hin.
Qed.

(** With distinct keys nothing is replaced: one item for each element,
    in order. *)
Lemma comprehension_distinct {A} (key : A -> K) (value : A -> V)
    (l : list A) : forall d,
  NoDup (keys d ++ map key l) ->
  comprehension key value l d = d ++ map (fun x => (key x, value x)) l.
Proof.
  unfold comprehension.
  induction l as [|x l IH]; intros d H; simpl.
  - rewrite app_nil_r. reflexivity.
  - assert (Hx : ~ In (key x) (keys d)).
    { intros Hin. apply NoDup_remove_2 in H. apply H.
      apply in_or_app. left. exact Hin. }
    rewrite (@set_fresh (key x) (value x) d Hx), IH.
    + rewrite <- app_assoc. reflexivity.
    + unfold keys in *. rewrite map_app. simpl. rewrite <- app_assoc.
      exact H.
Qed.

End dict.
End PyDict.


(** ** The functions of the build script *)

Module Build.

Definition key_eqb (a b : option str) : bool :=
  match a, b with
  | Some x, Some y => Py.eqb x y
  | None, None => true
  | _, _ => false
  end.

Lemma key_eqb_eq (a b : option str) : key_eqb a b = true <-> a = b.
Proof.
  destruct a as [x|], b as [y|]; simpl; try (split; congruence).
  rewrite Py.eqb_eq. split; congruence.
Qed.

(** The value [witnesses_to_dict] stores for a witness: a dict with the
    keys settlement, repository, locus. *)
Module WitnessInfo.
Record t := mk { settlement : str; repository : str; locus : str }.
End WitnessInfo.

Definition witness_info (w : Witness.t) : WitnessInfo.t :=
  WitnessInfo.mk (Witness.settlement w) (Witness.repository w)
    (Witness.locus w).

Definition witnesses_to_dict (witnesses_list : list Witness.t)
    : PyDict.t (option str) WitnessInfo.t :=
  PyDict.comprehension key_eqb Witness.id witness_info witnesses_list [].

(** The value [lexicon_to_dict] stores for an entry: a dict with the keys
    lemma, greek, pos, def, def_en. *)
Module LexiconInfo.
Record t := mk {
  lemma : str;
  greek : option str;
  pos : option str;
  def : str;
  def_en : str
}.
End LexiconInfo.

Definition lexicon_info (e : LexiconEntry.t) : LexiconInfo.t :=
  LexiconInfo.mk (LexiconEntry.lemma e) (LexiconEntry.greek e)
    (LexiconEntry.pos e)
    (match LexiconEntry.senses e with
     | sense :: _ => Sense.def_ka sense
     | [] => u ""
     end)
    (match LexiconEntry.senses e with
     | sense :: _ => Sense.def_en sense
     | [] => u ""
     end).

Definition lexicon_to_dict (entries_list : list LexiconEntry.t)
    : PyDict.t str LexiconInfo.t :=
  PyDict.comprehension Py.eqb LexiconEntry.id lexicon_info entries_list [].

(** Exceptions of the build functions: those of [str.format], and the
    [ValueError] of the parser.  [Unsupported] stands for a replacement
    field with a conversion, a format specification, an attribute or an
    index, which no template of [ROUTES] has and [format] below leaves
    out. *)
Inductive error :=
| KeyError (key : str)
| IndexError
| FormatError
| ParserError
| Unsupported.

Inductive outcome (A : Type) : Type :=
| Return (a : A)
| Throw (e : error).
Arguments Return {A} a.
Arguments Throw {A} e.

Definition and_then {A B} (o : outcome A) (k : A -> outcome B) : outcome B :=
  match o with
  | Return a => k a
  | Throw e => Throw e
  end.

Definition LBRACE : N := 123%N.
Definition RBRACE : N := 125%N.

Definition is_digit (c : N) : bool := ((48 <=? c) && (c <=? 57))%N.

(** The characters that start a conversion, a format specification, an
    attribute, an index or a nested field. *)
Definition is_field_syntax (c : N) : bool :=
  ((c =? 33) || (c =? 58) || (c =? 46) || (c =? 91) || (c =? LBRACE))%N.

(** The value of the replacement field [{name}] in
    [template.format] with keyword arguments: a keyword argument, formatted with the
    empty specification.  An empty or numeric name asks for a positional
    argument, and there is none. *)
Definition field_value (kwargs : list (str * str)) (name : str) : outcome str :=
  if existsb is_field_syntax name then Throw Unsupported
  else if forallb is_digit name then Throw IndexError
  else match lookup name kwargs with
       | Some v => Return v
       | None => Throw (KeyError name)
       end.

(** [template.format] with keyword arguments: literal text, doubled braces, and
    replacement fields; [field] holds the name of the field being read. *)
Fixpoint format_from (kwargs : list (str * str)) (field : option str)
    (s : str) : outcome str :=
  match s with
  | [] =>
      match field with
      | None => Return []
      | Some _ => Throw FormatError
      end
  | c :: s' =>
      match field with
      | Some name =>
          if (c =? RBRACE)%N
          then and_then (field_value kwargs name) (fun v =>
               and_then (format_from kwargs None s') (fun rest =>
               Return (v ++ rest)))
          else format_from kwargs (Some (name ++ [c])) s'
      | None =>
          if (c =? LBRACE)%N then
            match s' with
            | c' :: s'' =>
                if (c' =? LBRACE)%N
                then and_then (format_from kwargs None s'') (fun rest =>
                     Return (LBRACE :: rest))
                else format_from kwargs (Some []) s'
            | [] => Throw FormatError
            end
          else if (c =? RBRACE)%N then
            match s' with
            | c' :: s'' =>
                if (c' =? RBRACE)%N
                then and_then (format_from kwargs None s'') (fun rest =>
                     Return (RBRACE :: rest))
                else Throw FormatError
            | [] => Throw FormatError
            end
          else and_then (format_from kwargs None s') (fun rest =>
               Return (c :: rest))
      end
  end.

Definition format (template : str) (kwargs : list (str * str)) : outcome str :=
  format_from kwargs None template.

(** Route definitions: endpoint -> (path_template, depth) *)
Definition ROUTES : list (str * (str * Z)) :=
  [ (u "index", (u "index.html", 0));
    (u "text", (u "text/index.html", 1));
    (u "text_all", (u "text/all.html", 1));
    (u "section", (u "text/{n}.html", 1));
    (u "lexicon", (u "lexicon/index.html", 1));
    (u "manuscripts", (u "manuscripts/index.html", 1));
    (u "research", (u "research/index.html", 1));
    (u "sadziebeli", (u "sadziebeli.html", 0));
    (u "about", (u "about.html", 0)) ].

Fixpoint route (endpoint : str) (routes : list (str * (str * Z)))
    : option (str * Z) :=
  match routes with
  | [] => None
  | (k, v) :: rest => if Py.eqb k endpoint then Some v else route endpoint rest
  end.

(** [s * n] for a string and an integer *)
Definition times (s : str) (n : Z) : str :=
  concat (repeat s (Z.to_nat n)).

(** [make_url_for(current_depth)(endpoint, kwargs)], with [kwargs] the keyword arguments *)
Definition url_for (current_depth : Z) (endpoint : str)
    (kwargs : list (str * str)) : outcome str :=
  match route endpoint ROUTES with
  | None => Return (u "index.html")
  | Some (path_template, target_depth) =>
      and_then
        (match kwargs with
         | _ :: _ => format path_template kwargs
         | [] => Return path_template
         end)
        (fun path =>
           if current_depth =? 0 then Return path
           else Return (times (u "../") current_depth ++ path))
  end.

(** [s[:stop]] *)
Definition slice_to (s : str) (stop : Z) : str :=
  if stop <? 0
  then firstn (Z.to_nat (Z.of_nat (length s) + stop)) s
  else firstn (Z.to_nat stop) s.

(** The [truncate] filter of [setup_jinja_env]:
    [lambda s, length: s[:length] + '...' if len(s) > length else s] *)
Definition truncate (s : str) (length : Z) : str :=
  if Z.of_nat (List.length s) >? length
  then slice_to s length ++ u "..."
  else s.

(** The keyword arguments of one [render_template(env, 'text.html', ...)]
    call of [build_text_pages], with the file the result is written to
    (under the build directory).  [show_all_link] and [show_all] tell
    whether the call passes that argument (as [True]). *)
Module TextPage.
Record t := mk {
  file : str;
  sections : list SectionRecord.t;
  displayed_sections : list SectionRecord.t;
  apparatus : list AppEntry.t;
  current_section : str;
  section_count : Z;
  prev_section : option str;
  next_section : option str;
  show_all_link : bool;
  show_all : bool;
  witnesses : PyDict.t (option str) WitnessInfo.t;
  lexicon : PyDict.t str LexiconInfo.t
}.
End TextPage.

Section text_pages.
Variable sections : list SectionRecord.t.
Variable witnesses : PyDict.t (option str) WitnessInfo.t.
Variable lexicon : PyDict.t str LexiconInfo.t.

Definition section_n_at (i : nat) : option str :=
  option_map SectionRecord.n (nth_error sections i).

(** The main text page: the first section. *)
Definition main_text_page : list TextPage.t :=
  match sections with
  | first_section :: _ =>
      [TextPage.mk (u "text/index.html") sections [first_section]
         (SectionRecord.apparatus first_section)
         (SectionRecord.n first_section)
         (Z.of_nat (length sections))
         None
         (if (1 <? length sections)%nat then section_n_at 1 else None)
         true false witnesses lexicon]
  | [] => []
  end.

(** The page of all sections, with the apparatus of all of them. *)
Definition all_sections_page : TextPage.t :=
  TextPage.mk (u "text/all.html") sections sections
    (fold_left (fun all_apparatus sec =>
                  all_apparatus ++ SectionRecord.apparatus sec) sections [])
    (u "all")
    (Z.of_nat (length sections))
    None None false true witnesses lexicon.

(** The page of the section at index [i] of [enumerate(sections)]. *)
Definition section_page (i : nat) (section : SectionRecord.t) : TextPage.t :=
  TextPage.mk (u "text/" ++ SectionRecord.n section ++ u ".html")
    sections [section]
    (SectionRecord.apparatus section)
    (SectionRecord.n section)
    (Z.of_nat (length sections))
    (if (0 <? i)%nat then section_n_at (i - 1) else None)
    (if (i <? length sections - 1)%nat then section_n_at (i + 1) else None)
    true false witnesses lexicon.

Fixpoint section_pages_from (i : nat) (rest : list SectionRecord.t)
    : list TextPage.t :=
  match rest with
  | [] => []
  | section :: rest' => section_page i section :: section_pages_from (S i) rest'
  end.

Definition section_pages : list TextPage.t := section_pages_from 0 sections.

Definition text_pages : list TextPage.t :=
  main_text_page ++ [all_sections_page] ++ section_pages.

End text_pages.

(** [build_text_pages(env, parser)]: the pages rendered and written, in
    order; nothing is written when the parser raises. *)
Definition build_text_pages (treatise lexicon : elem)
    : outcome (list TextPage.t) :=
  match get_sections treatise with
  | Raise _ => Throw ParserError
  | Ok sections =>
      Return (text_pages sections
                (witnesses_to_dict (get_witnesses treatise))
                (lexicon_to_dict (get_lexicon_entries lexicon)))
  end.


End Build.


(** ** Facts about the build functions *)

Lemma nodup_map_inj {A B} (f : A -> B) (l : list A) x y :
  NoDup (map f l) -> In x l -> In y l -> f x = f y -> x = y.
Proof.
  induction l as [|a l IH]; simpl; intros Hnd Hx Hy E; [destruct Hx|].
  inversion Hnd as [|b l' Hnotin Hnd']; subst.
  destruct Hx as [<-|Hx], Hy as [<-|Hy].
  - reflexivity.
  - exfalso. apply Hnotin. rewrite E. apply in_map. exact Hy.
  - exfalso. apply Hnotin. rewrite <- E. apply in_map. exact Hx.
  - apply IH; assumption.
Qed.

Lemma find_some_in {A} (f : A -> bool) (l : list A) x :
  In x l -> f x = true -> exists y, List.find f l = Some y.
Proof.
  induction l as [|a l IH]; simpl; intros Hin Hf; [destruct Hin|].
  destruct (f a) eqn:E; [exists a; reflexivity|].
  destruct Hin as [<-|Hin]; [congruence|]. apply IH; assumption.
Qed.

Definition brace_free (s : str) : bool :=
  forallb (fun c => negb (N.eqb c Build.LBRACE) && negb (N.eqb c Build.RBRACE)) s.

Lemma format_brace_free (kwargs : list (str * str)) (s : str) :
  brace_free s = true -> Build.format s kwargs = Build.Return s.
Proof.
  unfold Build.format. induction s as [|c s IH]; simpl; [reflexivity|].
  intros H. apply andb_true_iff in H. destruct H as [Hc Hs].
  apply andb_true_iff in Hc. destruct Hc as [Hl Hr].
  apply negb_true_iff in Hl, Hr. rewrite Hl, Hr, (IH Hs). reflexivity.
Qed.

Lemma route_brace_free (endpoint template : str) (depth : Z) :
  Build.route endpoint Build.ROUTES = Some (template, depth) ->
  endpoint <> u "section" ->
  brace_free template = true.
Proof.
  unfold Build.ROUTES. cbn [Build.route]. intros H Hne.
  repeat match type of H with
         | (if Py.eqb ?k endpoint then _ else _) = _ =>
             let E := fresh "E" in
             destruct (Py.eqb k endpoint) eqn:E;
             [ first [ injection H as <- <-; reflexivity
                     | apply Py.eqb_eq in E; exfalso; apply Hne; symmetry;
                       exact E ]
             | ]
         end.
  discriminate H.
Qed.

Lemma times_negative (s : str) (n : Z) : n <= 0 -> Build.times s n = [].
Proof.
  intros H. unfold Build.times. destruct n; try reflexivity. lia.
Qed.

Lemma fold_left_app_flat_map {A B} (f : A -> list B) (l : list A) :
  forall init, fold_left (fun acc x => acc ++ f x) l init = init ++ flat_map f l.
Proof.
  induction l as [|x l IH]; intros init; simpl.
  - rewrite app_nil_r. reflexivity.
  - rewrite IH, <- app_assoc. reflexivity.
Qed.

Lemma nth_error_section_pages sections witnesses lexicon rest : forall i j,
  nth_error (Build.section_pages_from sections witnesses lexicon i rest) j
  = option_map (Build.section_page sections witnesses lexicon (i + j))
      (nth_error rest j).
Proof.
  induction rest as [|s rest IH]; intros i j; simpl.
  - destruct j; reflexivity.
  - destruct j as [|j]; simpl.
    + rewrite Nat.add_0_r. reflexivity.
    + rewrite IH. replace (S i + j)%nat with (i + S j)%nat by lia. reflexivity.
Qed.

Lemma nth_error_zseq start len i :
  (i < len)%nat -> nth_error (zseq start len) i = Some (start + Z.of_nat i).
Proof.
  revert start i. induction len as [|len IH]; intros start i H; [lia|].
  destruct i as [|i]; simpl.
  - rewrite Z.add_0_r. reflexivity.
  - rewrite IH by lia. f_equal. lia.
Qed.


Lemma section_pages_from_length all
    (w : PyDict.t (option str) Build.WitnessInfo.t)
    (l : PyDict.t str Build.LexiconInfo.t) rest : forall i,
  length (Build.section_pages_from all w l i rest) = length rest.
Proof.
  induction rest as [|s rest IH]; intros i; simpl; [reflexivity|].
  rewrite IH. reflexivity.
Qed.

(** ** The decimal text of an integer *)



(** The main text page shows the first section: its arguments are those
    of the page of that section, under another file name. *)
Definition with_file (file : str) (p : Build.TextPage.t) : Build.TextPage.t :=
  Build.TextPage.mk file (Build.TextPage.sections p)
    (Build.TextPage.displayed_sections p) (Build.TextPage.apparatus p)
    (Build.TextPage.current_section p) (Build.TextPage.section_count p)
    (Build.TextPage.prev_section p) (Build.TextPage.next_section p)
    (Build.TextPage.show_all_link p) (Build.TextPage.show_all p)
    (Build.TextPage.witnesses p) (Build.TextPage.lexicon p).




(** ** The trace of a content sequence and of the source *)

(** What reading a content sequence in order gives: the characters of the
    text each node carries and, for a node made from markup, a mark of its
    type before them. *)
Inductive token :=
| Chr (c : N)
| Mark (ty : node_type).

Definition chars (s : str) : list token := map Chr s.

Definition node_trace (nd : ContentNode.t) : list token :=
  match ContentNode.type nd with
  | TText => chars (opt_str (ContentNode.value nd))
  | TApp => Mark TApp :: chars (opt_str (ContentNode.lem nd))
  | TTerm => Mark TTerm :: chars (opt_str (ContentNode.text nd))
  | TFolio => [Mark TFolio]
  | TGreek => Mark TGreek :: chars (opt_str (ContentNode.text nd))
  | TMentioned => Mark TMentioned :: chars (opt_str (ContentNode.ka nd))
  end.

Definition trace (ns : list ContentNode.t) : list token :=
  flat_map node_trace ns.

(** What the source holds for the content sequence, read off the tree in
    document order: an apparatus element stands for its lemma, a
    cross-reference, a Greek span and a mentioned term for their inner
    text, a folio marker for itself, a person name or quotation for its
    inner text as running text, a gloss for nothing; any other node for its
    leading text and its children, each with its tail. *)
Fixpoint source_trace (e : elem) : list token :=
  match e with
  | Elem t a x cs tl =>
      let self := Elem t a x cs tl in
      match classify self with
      | KApp => Mark TApp :: chars (lem_text self)
      | KTerm => Mark TTerm :: chars (inner_text self)
      | KPb | KMilestone | KCb => [Mark TFolio]
      | KForeign => Mark TGreek :: chars (inner_text self)
      | KMentioned => Mark TMentioned :: chars (inner_text self)
      | KGloss => []
      | KPlain => chars (inner_text self)
      | KOther =>
          chars (opt_str x)
          ++ (fix siblings (l : list elem) : list token :=
                match l with
                | [] => []
                | c :: rest =>
                    (source_trace c ++ chars (opt_str (tail c)))
                    ++ siblings rest
                end) cs
      end
  end.

Definition siblings_trace (cs : list elem) : list token :=
  flat_map (fun c => source_trace c ++ chars (opt_str (tail c))) cs.

Lemma source_trace_branch (e : elem) :
  source_trace e
  = match classify e with
    | KApp => Mark TApp :: chars (lem_text e)
    | KTerm => Mark TTerm :: chars (inner_text e)
    | KPb | KMilestone | KCb => [Mark TFolio]
    | KForeign => Mark TGreek :: chars (inner_text e)
    | KMentioned => Mark TMentioned :: chars (inner_text e)
    | KGloss => []
    | KPlain => chars (inner_text e)
    | KOther => chars (opt_str (text e)) ++ siblings_trace (children e)
    end.
Proof.
  destruct e as [t a x cs tl]. simpl. destruct (classify _); reflexivity.
Qed.

Definition paragraph_trace (p : elem) : list token :=
  chars (opt_str (text p)) ++ siblings_trace (children p).

Definition section_trace (div : elem) : list token :=
  flat_map paragraph_trace (top_paragraphs div).

(** A successful step that appends nodes of trace [t]. *)
Definition traces (m : M unit) (t : list token) : Prop :=
  forall st st', m st = Ok (tt, st') ->
  exists ns, content st' = content st ++ ns /\ trace ns = t.

Lemma trace_app ns1 ns2 : trace (ns1 ++ ns2) = trace ns1 ++ trace ns2.
Proof. apply flat_map_app. Qed.

Lemma traces_bind (m k : M unit) a b :
  traces m a -> traces k b -> traces (m ;; k) (a ++ b).
Proof.
  intros Hm Hk st st'' H. apply bind_ok in H.
  destruct H as ([] & st' & H1 & H2).
  apply Hm in H1. destruct H1 as (ns1 & E1 & R1).
  apply Hk in H2. destruct H2 as (ns2 & E2 & R2).
  exists (ns1 ++ ns2). split.
  - rewrite E2, E1, app_assoc. reflexivity.
  - rewrite trace_app, R1, R2. reflexivity.
Qed.

Lemma traces_ret : traces (ret tt) [].
Proof.
  intros st st' H. injection H as <-. exists [].
  split; [rewrite app_nil_r|]; reflexivity.
Qed.

Lemma traces_append_content nd : traces (append_content nd) (node_trace nd).
Proof.
  intros st st' H. injection H as <-. exists [nd]. split; [reflexivity|].
  unfold trace. simpl. apply app_nil_r.
Qed.

Lemma traces_eq (m : M unit) a b : a = b -> traces m a -> traces m b.
Proof. intros ->. exact (fun H => H). Qed.

Lemma traces_append_text_if o :
  traces (append_text_if o) (chars (opt_str o)).
Proof.
  destruct o as [s|]; simpl; [|apply traces_ret].
  destruct s as [|c s]; simpl; [apply traces_ret|].
  eapply traces_eq; [|apply traces_append_content]. reflexivity.
Qed.

Lemma traces_walk_children (cs : list elem) :
  Forall (fun c => forall nx, traces (process_element c nx None)
                                (source_trace c)) cs ->
  traces (walk_children (fun c nx => process_element c nx None) cs)
    (siblings_trace cs).
Proof.
  induction 1 as [|c rest Hc _ IH]; simpl.
  - apply traces_ret.
  - unfold siblings_trace. simpl. rewrite <- app_assoc.
    apply traces_bind; [apply Hc|].
    apply traces_bind; [apply traces_append_text_if | exact IH].
Qed.

Lemma node_trace_app (e : elem) k :
  node_trace (app_content_node e k) = Mark TApp :: chars (lem_text e).
Proof.
  unfold app_content_node. destruct (collect_readings e). reflexivity.
Qed.

Lemma traces_branch (e : elem) nx :
  Forall (fun c => forall nx, traces (process_element c nx None)
                                (source_trace c)) (children e) ->
  traces (branch e nx) (source_trace e).
Proof.
  intros IH. rewrite source_trace_branch. unfold branch.
  destruct (classify e);
    try (eapply traces_eq; [|apply traces_append_content]; reflexivity).
  - intros st st' H. rewrite app_branch_advance in H. injection H as <-.
    eexists. split; [reflexivity|].
    unfold trace. simpl. rewrite node_trace_app, app_nil_r. reflexivity.
  - intros st st' H. apply bind_ok in H. destruct H as (grc & st1 & H1 & H2).
    unfold lift in H1. destruct (lookahead nx); [|discriminate].
    injection H1 as <- <-. revert H2.
    eapply traces_eq; [|apply traces_append_content]. reflexivity.
  - apply traces_ret.
  - apply traces_bind; [apply traces_append_text_if|].
    apply traces_walk_children. exact IH.
Qed.

Lemma traces_process_element (e : elem) :
  forall nx, traces (process_element e nx None) (source_trace e).
Proof.
  induction e as [t a x cs tl' IH] using elem_induction. intros nx.
  rewrite process_element_branch.
  eapply traces_eq; [apply app_nil_r|].
  apply traces_bind; [|apply traces_ret].
  apply traces_branch. exact IH.
Qed.

Lemma traces_walk_paragraphs (ps : list elem) :
  traces (walk_paragraphs ps) (flat_map paragraph_trace ps).
Proof.
  induction ps as [|p ps IH]; simpl.
  - apply traces_ret.
  - apply traces_bind; [|exact IH]. unfold walk_paragraph, paragraph_trace.
    apply traces_bind; [apply traces_append_text_if|].
    apply traces_walk_children. apply Forall_forall.
    intros c _. apply traces_process_element.
Qed.

(** ** Folio markers before and after the first paragraph *)

Fixpoint from_first (stop : elem -> bool) (cs : list elem) : list elem :=
  match cs with
  | [] => []
  | c :: rest => if stop c then c :: rest else from_first stop rest
  end.

Lemma before_from_first (stop : elem -> bool) (cs : list elem) :
  cs = before_first stop cs ++ from_first stop cs.
Proof.
  induction cs as [|c rest IH]; simpl; [reflexivity|].
  destruct (stop c); simpl; [reflexivity|]. f_equal. exact IH.
Qed.

Lemma filter_none {A} (p q : A -> bool) (l : list A) :
  (forall x, p x = true -> q x = true) ->
  forallb (fun x => negb (q x)) l = true -> filter p l = [].
Proof.
  intros Hpq. induction l as [|x l IH]; simpl; [reflexivity|].
  intros H. apply andb_true_iff in H. destruct H as [Hx Hl].
  destruct (p x) eqn:P; [|apply IH, Hl].
  rewrite (Hpq x P) in Hx. discriminate Hx.
Qed.

(** A filter for folio markers sees only the children before the first
    paragraph when no marker stands after it. *)
Lemma filter_leading (p : elem -> bool) (cs : list elem) :
  (forall x, p x = true -> is_folio_marker x = true) ->
  forallb (fun c => negb (is_folio_marker c))
    (from_first (has_tag (tei "p")) cs) = true ->
  filter p cs = filter p (before_first (has_tag (tei "p")) cs).
Proof.
  intros Hp H. rewrite (before_from_first (has_tag (tei "p")) cs) at 1.
  rewrite filter_app, (filter_none p is_folio_marker _ Hp H).
  apply app_nil_r.
Qed.

(** ** The apparatus elements a walk reaches *)







(** The entries of a run of apparatus elements, numbered from the counter. *)
Fixpoint entries_from (counter : Z) (apps : list elem) : list AppEntry.t :=
  match apps with
  | [] => []
  | app :: rest => app_entry app (counter + 1) :: entries_from (counter + 1) rest
  end.


Lemma entries_from_length (apps : list elem) : forall counter,
  length (entries_from counter apps) = length apps.
Proof.
  induction apps as [|a apps IH]; intros counter; simpl; [reflexivity|].
  rewrite IH. reflexivity.
Qed.


















(** ** The words of the specification for the readings *)

(** The node and the entry an apparatus element gives when it is walked
    on its own. *)
Definition walked_app (app : elem) (nd : ContentNode.t) (entry : AppEntry.t)
    : Prop :=
  process_element app None None (WalkState [] [] 0)
  = Ok (tt, WalkState [nd] [entry] 1).

(** The words of the specification: the text of a reading that carries a
    note is left empty. *)
Definition spec_note_suppresses_text (app : elem) : Prop :=
  forall nd entry, walked_app app nd entry ->
  Forall2 (fun rdg r => find (tei "note") rdg <> None -> Reading.text r = u "")
    (findall (tei "rdg") app) (AppEntry.readings entry).

(** The words of the specification: the text of a reading of witness [S]
    that has text is the [rdg_s] of the node. *)
Definition spec_rdg_s_captured (app : elem) : Prop :=
  forall nd entry rdg, walked_app app nd entry ->
  In rdg (findall (tei "rdg") app) ->
  Py.replace (u "#") (u "") (get_or rdg (u "wit") (u "")) = u "S" ->
  Py.strip (inner_text rdg) <> u "" ->
  ContentNode.rdg_s nd = Some (Py.strip (inner_text rdg)).

Lemma walked_app_run (app : elem) :
  classify app = KApp ->
  walked_app app (app_content_node app 1) (app_entry app 1).
Proof. intros H. unfold walked_app. rewrite (process_app app None _ H). reflexivity. Qed.





(** ** Concrete documents *)

Module Fixtures.

Local Open Scope string_scope.

Definition el (name : string) (a : list (string * string)) (x : option string)
    (c : list elem) (tl : option string) : elem :=
  Elem (Some (tei name)) (map (fun kv => (u (fst kv), u (snd kv))) a)
    (option_map u x) c (option_map u tl).

Definition comment (x : string) (tl : option string) : elem :=
  Elem None [] (Some (u x)) [] (option_map u tl).

(** Scenario A of the specification: one apparatus group. *)
Definition scenario_a_app : elem :=
  el "app" [] None
    [ el "lem" [] (Some "ᲮᲕᲔᲬᲬᲐ") [] None;
      el "rdg" [("wit", "#A")] (Some "ᲮᲐᲬᲬᲐ") [] None;
      el "rdg" [("wit", "#S")] (Some "ᲮᲕᲔᲬᲬᲐ") [] None ]
    None.

Definition section_div (n : string) (c : list elem) : elem :=
  el "div" [("type", "section"); ("n", n)] None c None.

(** A treatise of two sections, with two and one apparatus groups. *)
Definition two_sections : elem :=
  el "TEI" [] None
    [ el "text" [] None
        [ el "body" [] None
            [ section_div "1"
                [ el "p" [] (Some "a ")
                    [ scenario_a_app;
                      el "hi" [] (Some "b") [ scenario_a_app ] (Some " c") ]
                    None ];
              section_div "2"
                [ el "p" [] None [ scenario_a_app ] None ] ]
            None ]
        None ]
    None.

(** An apparatus group whose second reading alone carries a note. *)
Definition late_note_app : elem :=
  el "app" [] None
    [ el "lem" [] (Some "x") [] None;
      el "rdg" [("wit", "#A")] (Some "y") [] None;
      el "rdg" [("wit", "#B")] (Some "z") [ el "note" [] (Some "om.") [] None ]
        None ]
    None.

Definition empty_state : walk_state := WalkState [] [] 0.

(** A header that names an editor, a place, a year, a title and a URN of
    its own. *)
Definition header_doc : elem :=
  el "TEI" [] None
    [ el "teiHeader" [] None
        [ el "fileDesc" [] None
            [ el "titleStmt" [] None
                [ el "title" [] (Some "სხვა კრებული") [] None;
                  el "editor" [("role", "scholarly")] None
                    [ el "persName" [] (Some "ვინმე") [] None ] None ]
                None;
              el "publicationStmt" [] None
                [ el "pubPlace" [] (Some "ქუთაისი") [] None;
                  el "date" [] (Some "2001") [] None;
                  el "idno" [("type", "cts-urn")] (Some "urn:cts:x") [] None ]
                None ]
            None ]
        None ]
    None.

(** A section that opens with a folio milestone and then a page break,
    both before its paragraph. *)
Definition folio_section : elem :=
  section_div "1"
    [ el "milestone" [("unit", "folio"); ("ed", "#A"); ("n", "3r")] None [] None;
      el "pb" [("ed", "#B"); ("n", "12")] None [] None;
      el "p" [] (Some "text") [] None ].


(** A lexicon of three entries: one with an etymology and a translation,
    one with a translation only, one with neither. *)
Definition xml_id : string := "{http://www.w3.org/XML/1998/namespace}id".

Definition lemma_form (orth : string) : elem :=
  el "form" [("type", "lemma")] None [ el "orth" [] (Some orth) [] None ] None.

Definition translation (quote : string) : elem :=
  el "cit" [("type", "translation")] None [ el "quote" [] (Some quote) [] None ]
    None.

Definition entry_etym : elem :=
  el "entry" [(xml_id, "lex.b.lex.c")] None
    [ lemma_form "ბ";
      el "etym" [] None [ el "mentioned" [] (Some "θεός") [] None ] None;
      translation "deus" ]
    None.

Definition entry_translation : elem :=
  el "entry" [(xml_id, "lex.a")] None
    [ lemma_form "ა"; translation "λόγος"; translation "verbum" ] None.

Definition entry_bare : elem :=
  el "entry" [] None [ lemma_form "გ" ] None.

Definition lexicon_doc : elem :=
  el "TEI" [] None
    [ el "text" [] None
        [ el "body" [] None [ entry_etym; entry_translation; entry_bare ] None ]
        None ]
    None.


(** A mentioned term followed by a gloss whose span is Latin, not Greek. *)
Definition mentioned_god : elem := el "mentioned" [] (Some "ღმერთი") [] None.

Definition xml_lang : string := "{http://www.w3.org/XML/1998/namespace}lang".

Definition latin_gloss : elem :=
  el "gloss" [] None [ el "foreign" [(xml_lang, "la")] (Some "deus") [] None ]
    None.

Definition greek_gloss : elem :=
  el "gloss" [] None [ el "foreign" [(xml_lang, "grc")] (Some "θεός") [] None ]
    None.

(** An element of an unknown tag with mixed content, and a cross-reference
    without a [target]. *)
Definition unknown_elem : elem :=
  el "seg" [] (Some "a")
    [ el "unclear" [] (Some "b") [ comment "editorial" (Some "c") ] (Some "d");
      mentioned_god; greek_gloss ]
    None.

Definition term_without_target : elem := el "term" [] (Some "artron") [] None.

(** A mentioned term followed by a comment. *)
Definition mentioned_then_comment : elem :=
  el "p" [] None [ mentioned_god; comment "sic" None ] None.


(** A paragraph with a gloss that no mentioned term precedes, and a
    paragraph nested in a note of another paragraph. *)
Definition lone_gloss_section : elem :=
  section_div "1"
    [ el "p" [] (Some "x") [ el "gloss" [] (Some "y") [] None ] None ].

Definition nested_paragraph_section : elem :=
  section_div "1"
    [ el "p" [] (Some "a")
        [ el "note" [] None [ el "p" [] (Some "b") [] None ] None ] None ].

(** A section of plain running text with inline markup of every kind that
    keeps its text. *)
Definition plain_section : elem :=
  section_div "1"
    [ el "p" [] (Some "In ")
        [ el "term" [("target", "#lex.artron")] (Some "artron") [] (Some ", ");
          el "foreign" [(xml_lang, "grc")] (Some "ἄρθρον") [] (Some " ");
          el "hi" [] (Some "so ")
            [ el "persName" [] (Some "Dionysius") [] (Some " says") ] None;
          el "pb" [("ed", "#A"); ("n", "2v")] None [] (Some " ");
          mentioned_god ]
        None;
      el "p" [] (Some "End.") [] None ].


(** A treatise with a header and the sections above. *)
Definition treatise : elem :=
  el "TEI" [] None
    [ el "teiHeader" [] None
        [ el "idno" [("type", "cts-urn")] (Some "urn:cts:x") [] None ] None;
      el "text" [] None
        [ el "body" [] None
            [ section_div "1"
                [ el "p" [] (Some "  In ")
                    [ el "term" [("target", "#lex.#artron")] (Some "artron") []
                        (Some ", ");
                      scenario_a_app;
                      el "cb" [("ed", "#A"); ("n", "b")] None [] (Some " end  ") ]
                    None ];
              folio_section;
              el "div" [("type", "section")] None [] None ]
            None ]
        None ]
    None.

(** Scenario B of the specification: a folio milestone, then a page
    break. *)
Definition folio_milestone : elem :=
  el "milestone" [("unit", "folio"); ("ed", "#A"); ("n", "3r")] None [] None.

Definition page_break : elem :=
  el "pb" [("ed", "#B"); ("n", "12")] (Some "ignored") [] None.

(** A treatise whose second section has a mentioned term before a
    comment. *)
Definition failing_treatise : elem :=
  el "TEI" [] None
    [ el "body" [] None
        [ section_div "1" [ el "p" [] (Some "a") [ scenario_a_app ] None ];
          section_div "2" [ mentioned_then_comment ] ]
        None ]
    None.


(** A list of witnesses: one with all its fields but a locus, one without
    any field or identifier. *)
Definition witness_list : elem :=
  el "TEI" [] None
    [ el "listWit" [] None
        [ el "witness" [(xml_id, "A")] None
            [ el "msIdentifier" [] None
                [ el "settlement" [] (Some "თბილისი") [] None;
                  el "repository" [] (Some "NCM") [] None ]
                None ]
            None;
          el "witness" [] (Some "lost") [] None ]
        None ]
    None.

(** A lexicon whose headwords are out of order and repeat, with
    citations, examples and a cross-reference. *)
Definition citation (type target : string) (quote : option string) : elem :=
  el "cit" [("type", type)] None
    [ el "quote" [] quote [] None;
      el "bibl" [] None [ el "ref" [("target", target)] (Some "ref") [] None ]
        None ]
    None.

Definition entry_late : elem :=
  el "entry" [(xml_id, "lex.z1")] None
    [ lemma_form "ჰ";
      citation "example" "#sec.5" (Some "q1");
      citation "example" "#intro" None;
      citation "example" "treatise.xml#sec.7" (Some "q2") ]
    None.

Definition entry_twin_a : elem :=
  el "entry" [(xml_id, "lex.t1")] None [ lemma_form "ბ" ] None.

Definition entry_twin_b : elem :=
  el "entry" [(xml_id, "lex.t2")] None [ lemma_form "ბ" ] None.

Definition unsorted_lexicon : elem :=
  el "TEI" [] None
    [ el "body" [] None
        [ entry_late; entry_twin_a; entry_bare; entry_twin_b; entry_translation ]
        None ]
    None.


(** Two witnesses without identifier and one with. *)
Definition three_witnesses : list Witness.t :=
  [ Witness.mk None (u "first") (u "") (u "");
    Witness.mk (Some (u "A")) (u "Tbilisi") (u "NCM") (u "S-1");
    Witness.mk None (u "second") (u "") (u "") ].

(** Three empty sections numbered 1, 2, 3. *)
Definition bare_section (n : string) : SectionRecord.t :=
  SectionRecord.mk (u n) (u "sec." ++ u n) (u "urn:" ++ u n) (u "") [] [] [].

Definition three_sections : list SectionRecord.t :=
  [ bare_section "1"; bare_section "2"; bare_section "3" ].

(** A lexicon with two entries whose identifiers agree once the marker is
    removed. *)
Definition clashing_lexicon : elem :=
  el "TEI" [] None
    [ el "entry" [(xml_id, "lex.a")] None [ lemma_form "ა" ] None;
      el "entry" [(xml_id, "a")] None [ lemma_form "ბ" ] None ]
    None.


(** An element of an unknown tag that holds a mentioned term followed by
    a comment, in a paragraph of a section; and the same element without
    the comment. *)
Definition seg_with_comment : elem :=
  el "seg" [] (Some "a") [ mentioned_god; comment "sic" None ] None.

Definition seg_without_comment : elem :=
  el "seg" [] (Some "a") [ mentioned_god ] None.

Definition seg_comment_section : elem :=
  section_div "1" [ el "p" [] None [ seg_with_comment ] None ].

(** Apparatus groups: two readings of the witness [S]; a reading whose
    note holds its text in a child; a reading of [S] that holds a note
    only; and readings without a note, with a note, and of [S]. *)
Definition two_s_app : elem :=
  el "app" [] None
    [ el "lem" [] (Some "x") [] None;
      el "rdg" [("wit", "#S")] (Some "y") [] None;
      el "rdg" [("wit", "#S")] (Some "z") [] None ]
    None.

Definition nested_note_app : elem :=
  el "app" [] None
    [ el "lem" [] (Some "x") [] None;
      el "rdg" [("wit", "#A")] (Some "y")
        [ el "note" [] None [ el "hi" [] (Some "om.") [] None ] None ] None ]
    None.

Definition note_only_s_app : elem :=
  el "app" [] None
    [ el "lem" [] (Some "x") [] None;
      el "rdg" [("wit", "#S")] None [ el "note" [] (Some "om.") [] None ] None ]
    None.

Definition rdg_plain : elem := el "rdg" [("wit", "#A")] (Some " y ") [] None.

Definition rdg_noted : elem :=
  el "rdg" [("wit", "#B")] (Some "z") [ el "note" [] (Some "om.") [] None ] None.

Definition rdg_sigil : elem := el "rdg" [("wit", "#S")] (Some "w") [] None.

Definition noted_app : elem :=
  el "app" [] None
    [ el "lem" [] (Some "x") [] None; rdg_plain; rdg_noted; rdg_sigil ] None.

(** Sections for the order of the content: Scenario A in a paragraph; a
    comment between two texts; and a section with an apparatus group, a
    mentioned term with its gloss (Scenario C), a folio milestone, a
    cross-reference, a comment and a second paragraph. *)
Definition readings_section : elem :=
  section_div "1" [ el "p" [] None [ scenario_a_app ] None ].

Definition comment_section : elem :=
  section_div "1" [ el "p" [] (Some "a") [ comment "c" (Some "b") ] None ].

Definition mixed_section : elem :=
  section_div "1"
    [ el "p" [] (Some "In ")
        [ scenario_a_app;
          el "milestone" [("unit", "folio"); ("ed", "#A"); ("n", "3r")] None []
            (Some " ");
          el "hi" [] (Some "so ")
            [ mentioned_god; greek_gloss;
              el "term" [("target", "#lex.artron")] (Some "artron") [] (Some ".") ]
            None;
          comment "sic" (Some " ") ]
        None;
      el "p" [] (Some "End.") [] None ].

(** A section whose only folio marker is a page break that follows its
    first paragraph, and one that opens with two page breaks. *)
Definition late_folio_section : elem :=
  section_div "1"
    [ el "p" [] (Some "a") [] None;
      el "pb" [("ed", "#B"); ("n", "12")] None [] None;
      el "p" [] (Some "b") [] None ].

Definition page_breaks_section : elem :=
  section_div "1"
    [ el "pb" [("ed", "#A"); ("n", "1")] None [] None;
      el "pb" [("ed", "#A"); ("n", "2")] None [] None;
      el "p" [] (Some "text") [] None ].


(** A paragraph with a page break that holds text. *)
Definition folio_text_section : elem :=
  section_div "1" [ el "p" [] (Some "a") [ page_break ] None ].


End Fixtures.

(** * The properties of the specification *)

(** C1. Over the whole document the apparatus entries are numbered by one
    counter that is never reset: the indices of the entries of all sections,
    in document order, are 1, 2, 3, ... and so strictly increasing; and in
    every section the [app] nodes of the content carry, in order, the
    identifier and the index of the entry created with them. *)
Theorem C1_apparatus_index_increasing (tree : elem)
    (sections : list SectionRecord.t) :
  get_sections tree = Ok sections ->
  let entries := flat_map SectionRecord.apparatus sections in
  StronglySorted Z.lt (map AppEntry.index entries)
  /\ map AppEntry.index entries = zseq 1 (length entries)
  /\ Forall (fun s => app_refs (SectionRecord.content s)
                      = entry_refs (SectionRecord.apparatus s)) sections
  /\ app_refs (flat_map SectionRecord.content sections) = entry_refs entries.
Proof.
  unfold get_sections. intros H.
  apply sections_loop_numbered with (counter := 0) in H.
  - destruct H as (k & Hidx & _ & Hpair). fold (all_apparatus sections).
    cbv zeta. repeat split.
    + rewrite Hidx. apply zseq_sorted.
    + exact Hidx.
    + exact Hpair.
    + clear Hidx. unfold all_apparatus, app_refs, entry_refs.
      induction Hpair as [|s l Hs _ IH]; [reflexivity|].
      simpl. rewrite flat_map_app, map_app, <- IH. f_equal. exact Hs.
  - repeat split. constructor.
Qed.

Lemma C1_witness :
  exists sections,
    get_sections Fixtures.two_sections = Ok sections
    /\ map AppEntry.index (flat_map SectionRecord.apparatus sections)
       = [1; 2; 3]
    /\ StronglySorted Z.lt
         (map AppEntry.index (flat_map SectionRecord.apparatus sections)).
Proof.
  eexists. split; [vm_compute; reflexivity|]. split; [reflexivity|].
  apply (C1_apparatus_index_increasing Fixtures.two_sections).
  vm_compute. reflexivity.
Defined.

(** C2, as stated, fails.  Content of the source is dropped: the text of
    a gloss ([x<gloss>y</gloss>] gives the one node [x]), the texts of the
    readings of an apparatus element (Scenario A gives the lemma alone)
    and the text within a folio marker.  Content is added: the text of a comment between [a] and [b]
    gives a node of its own.  And content is duplicated: a paragraph nested
    in another is walked twice, in [a<note><p>b</p></note>] the text [b]
    gives two nodes. *)
Lemma C2_counterexample :
  _parse_section_content Fixtures.lone_gloss_section 0
    = Ok ([text_node_of (u "x")], [], 0)
  /\ running_text Fixtures.lone_gloss_section = u "xy"
  /\ ~ spec_order_round_trip Fixtures.lone_gloss_section
  /\ rendered [app_content_node Fixtures.scenario_a_app 1] = u "ᲮᲕᲔᲬᲬᲐ"
  /\ _parse_section_content Fixtures.readings_section 0
     = Ok ([app_content_node Fixtures.scenario_a_app 1],
           [app_entry Fixtures.scenario_a_app 1], 1)
  /\ running_text Fixtures.readings_section = u "ᲮᲕᲔᲬᲬᲐᲮᲐᲬᲬᲐᲮᲕᲔᲬᲬᲐ"
  /\ ~ spec_order_round_trip Fixtures.readings_section
  /\ _parse_section_content Fixtures.folio_text_section 0
     = Ok ([text_node_of (u "a"); folio_node (u "B") (u "12")], [], 0)
  /\ running_text Fixtures.folio_text_section = u "aignored"
  /\ ~ spec_order_round_trip Fixtures.folio_text_section
  /\ _parse_section_content Fixtures.comment_section 0
     = Ok ([text_node_of (u "a"); text_node_of (u "c"); text_node_of (u "b")],
           [], 0)
  /\ running_text Fixtures.comment_section = u "ab"
  /\ ~ spec_order_round_trip Fixtures.comment_section
  /\ _parse_section_content Fixtures.nested_paragraph_section 0
     = Ok ([text_node_of (u "a"); text_node_of (u "b"); text_node_of (u "b")],
           [], 0)
  /\ running_text Fixtures.nested_paragraph_section = u "ab"
  /\ ~ spec_order_round_trip Fixtures.nested_paragraph_section.
Proof.
  split; [vm_compute; reflexivity|]. split; [vm_compute; reflexivity|].
  split.
  { intros H.
    specialize (H 0 [text_node_of (u "x")] [] 0 eq_refl).
    vm_compute in H. discriminate H. }
  split; [vm_compute; reflexivity|]. split; [vm_compute; reflexivity|].
  split; [vm_compute; reflexivity|]. split.
  { intros H.
    specialize (H 0 [app_content_node Fixtures.scenario_a_app 1]
                  [app_entry Fixtures.scenario_a_app 1] 1 eq_refl).
    vm_compute in H. discriminate H. }
  split; [vm_compute; reflexivity|]. split; [vm_compute; reflexivity|].
  split.
  { intros H.
    specialize (H 0 [text_node_of (u "a"); folio_node (u "B") (u "12")] [] 0
                  eq_refl).
    vm_compute in H. discriminate H. }
  split; [vm_compute; reflexivity|]. split; [vm_compute; reflexivity|].
  split.
  { intros H.
    specialize (H 0 [text_node_of (u "a"); text_node_of (u "c");
                     text_node_of (u "b")] [] 0 eq_refl).
    vm_compute in H. discriminate H. }
  split; [vm_compute; reflexivity|]. split; [vm_compute; reflexivity|].
  intros H.
  specialize (H 0 [text_node_of (u "a"); text_node_of (u "b");
                   text_node_of (u "b")] [] 0 eq_refl).
  vm_compute in H. discriminate H.
Qed.

(** C2, amended.  For a section whose paragraphs lie in no other
    paragraph, the content of every successful walk, read in order (the
    text each node carries and a mark for each node made from markup), is
    what the walk keeps of the source, in document order: of an apparatus
    element an app node with the text of its lemma; of a cross-reference, a
    Greek span and a mentioned term a node with their inner text; of a page
    break, a folio milestone and a column break a folio node and no text;
    of a person name or quotation its inner text; of a gloss nothing; of
    any other node (a comment included) its leading text, then its
    children in order, each followed by its tail.  The walk succeeds when
    no mentioned term is followed by a comment or processing instruction.
    And when the paragraphs hold none of what the walk drops or adds, the
    text of the nodes is the inner text of the paragraphs. *)
Theorem C2_order_round_trip (div : elem) (counter : Z) :
  top_paragraphs div = paragraphs div ->
  (forall content apparatus counter',
     _parse_section_content div counter = Ok (content, apparatus, counter') ->
     trace content = section_trace div)
  /\ (section_safe div = true ->
      exists content apparatus counter',
        _parse_section_content div counter = Ok (content, apparatus, counter'))
  /\ (Forall (fun p => lossless_paragraph p = true) (paragraphs div) ->
      forall content apparatus counter',
        _parse_section_content div counter = Ok (content, apparatus, counter') ->
        rendered content = running_text div).
Proof.
  intros Htop. unfold section_trace, running_text. rewrite Htop.
  unfold _parse_section_content. split; [|split].
  - intros c a k.
    destruct (walk_paragraphs (paragraphs div) (WalkState [] [] counter))
      as [[[] st]|x] eqn:E; [|discriminate].
    intros H. injection H as <- <- <-.
    apply traces_walk_paragraphs in E. destruct E as (ns & E & R).
    simpl in E. rewrite E. exact R.
  - apply parse_section_content_ok.
  - intros Hps c a k.
    destruct (walk_paragraphs (paragraphs div) (WalkState [] [] counter))
      as [[[] st]|x] eqn:E; [|discriminate].
    intros H. injection H as <- <- <-.
    assert (Hr : renders (walk_paragraphs (paragraphs div))
                   (Py.join (map inner_text (paragraphs div)))).
    { apply renders_walk_paragraphs. apply Forall_forall. intros p Hin. split.
      - apply (paragraphs_are_elements div p Hin).
      - rewrite Forall_forall in Hps. apply (Hps p Hin). }
    apply Hr in E. destruct E as (ns & E & R). simpl in E.
    rewrite E. exact R.
Qed.

(** A section with Scenario A, a folio milestone, a mentioned term and
    its gloss (Scenario C), a cross-reference, a comment and a second
    paragraph: the readings and the gloss leave no text, every other unit
    stands once, in its place. *)
Lemma C2_witness :
  exists content apparatus counter',
    _parse_section_content Fixtures.mixed_section 0
    = Ok (content, apparatus, counter')
    /\ trace content = section_trace Fixtures.mixed_section
    /\ trace content
       = chars (u "In ") ++ Mark TApp :: chars (u "ᲮᲕᲔᲬᲬᲐ")
         ++ Mark TFolio :: chars (u " so ")
         ++ Mark TMentioned :: chars (u "ღმერთი")
         ++ Mark TTerm :: chars (u "artron.sic End.").
Proof.
  destruct (C2_order_round_trip Fixtures.mixed_section 0) as (Ht & Hs & _).
  - vm_compute. reflexivity.
  - destruct Hs as (c & a & k & H); [vm_compute; reflexivity|].
    exists c, a, k. split; [exact H|]. split; [apply (Ht c a k H)|].
    rewrite (Ht c a k H). vm_compute. reflexivity.
Defined.

(** C3. The code departs from the claim: the lookahead takes the text of
    the first [foreign] child of the gloss, of whatever language.  Here the
    gloss holds a Latin span and no Greek one, and [grc] is populated with
    it; a Greek gloss gives its span, and no following sibling gives
    [None]. *)
Lemma C3_grc_from_non_greek_span :
  process_element Fixtures.mentioned_god (Some Fixtures.latin_gloss) None
    Fixtures.empty_state
  = Ok (tt, WalkState [mentioned_node (u "ღმერთი") (Some (u "deus"))] [] 0)
  /\ select_elems [] (fun f => attr_is XML_LANG (u "grc") f)
       (nodes [] Fixtures.latin_gloss) = []
  /\ process_element Fixtures.mentioned_god (Some Fixtures.greek_gloss) None
       Fixtures.empty_state
     = Ok (tt, WalkState [mentioned_node (u "ღმერთი") (Some (u "θεός"))] [] 0)
  /\ process_element Fixtures.mentioned_god None None Fixtures.empty_state
     = Ok (tt, WalkState [mentioned_node (u "ღმერთი") None] [] 0).
Proof. repeat (split; [vm_compute; reflexivity|]). vm_compute. reflexivity. Qed.

(** C4, as stated, fails.  Of two readings of the witness [S] that have
    text only the last is the [rdg_s] of the node.  A reading whose note
    holds its text in a child element keeps its text, the text of the note
    within it, and has no note.  And a reading of [S] that holds a note
    only has an empty text, yet the text of the note is the [rdg_s]. *)
Lemma C4_counterexample :
  (exists nd entry,
     walked_app Fixtures.two_s_app nd entry
     /\ AppEntry.readings entry
        = [Reading.mk (u "S") (u "y") None; Reading.mk (u "S") (u "z") None]
     /\ ContentNode.rdg_s nd = Some (u "z"))
  /\ ~ spec_rdg_s_captured Fixtures.two_s_app
  /\ (exists nd entry,
        walked_app Fixtures.nested_note_app nd entry
        /\ AppEntry.readings entry = [Reading.mk (u "A") (u "yom.") None])
  /\ ~ spec_note_suppresses_text Fixtures.nested_note_app
  /\ (exists nd entry,
        walked_app Fixtures.note_only_s_app nd entry
        /\ AppEntry.readings entry
           = [Reading.mk (u "S") (u "") (Some (u "om."))]
        /\ ContentNode.rdg_s nd = Some (u "om.")).
Proof.
  split.
  { eexists _, _. split; [apply walked_app_run; reflexivity|].
    split; vm_compute; reflexivity. }
  split.
  { intros H.
    specialize (H _ _ (Fixtures.el "rdg" [("wit", "#S")] (Some "y") [] None)%string
                  (walked_app_run Fixtures.two_s_app eq_refl)).
    assert (E : ContentNode.rdg_s (app_content_node Fixtures.two_s_app 1)
                = Some (u "y")).
    { apply H.
      - vm_compute. left. reflexivity.
      - vm_compute. reflexivity.
      - vm_compute. discriminate. }
    vm_compute in E. discriminate E. }
  split.
  { eexists _, _. split; [apply walked_app_run; reflexivity|].
    vm_compute. reflexivity. }
  split.
  { intros H.
    specialize (H _ _ (walked_app_run Fixtures.nested_note_app eq_refl)).
    rewrite app_entry_readings, collect_readings_fst in H.
    change (findall (tei "rdg") Fixtures.nested_note_app)
      with [Fixtures.el "rdg" [("wit", "#A")] (Some "y")
              [Fixtures.el "note" [] None
                 [Fixtures.el "hi" [] (Some "om.") [] None] None] None]%string
      in H.
    inversion H as [|? ? ? ? Hr _]; subst.
    match type of Hr with
    | ?P -> _ => assert (Hp : P) by (vm_compute; discriminate)
    end.
    apply Hr in Hp. vm_compute in Hp. discriminate Hp. }
  eexists _, _. split; [apply walked_app_run; reflexivity|].
  split; vm_compute; reflexivity.
Qed.

(** C4, amended.  An apparatus element yields one [app] node and one
    entry.  The readings of the entry are those of the nested reading
    elements, in source order; the witness of each is its [wit] attribute
    without [#]; a reading without a note child has no note, and its text
    is its inner text, stripped; a reading whose first note child begins
    with text has that text as note, and an empty text.  The [rdg_s] of the
    node is the stripped inner text of a reading without a note child whose
    witness is [S] and which has text, when no later reading has the
    witness [S] and text; it is [None] when no reading has the witness [S]
    and text. *)
Theorem C4_readings_and_rdg_s (app : elem) (next_sib : option elem)
    (st : walk_state) :
  classify app = KApp ->
  let rdgs := findall (tei "rdg") app in
  let wit_of := fun rdg =>
    Py.replace (u "#") (u "") (get_or rdg (u "wit") (u "")) in
  let raw_text := fun rdg => Py.strip (inner_text rdg) in
  exists nd entry,
    process_element app next_sib None st
    = Ok (tt, WalkState (content st ++ [nd]) (apparatus st ++ [entry])
                (app_counter st + 1))
    /\ ContentNode.type nd = TApp
    /\ Forall2
         (fun rdg r =>
            Reading.wit r = wit_of rdg
            /\ (find (tei "note") rdg = None ->
                Reading.note r = None /\ Reading.text r = raw_text rdg)
            /\ (forall note_elem s,
                  find (tei "note") rdg = Some note_elem ->
                  text note_elem = Some s -> s <> u "" ->
                  Reading.note r = Some s /\ Reading.text r = u ""))
         rdgs (AppEntry.readings entry)
    /\ (forall pre rdg post,
          rdgs = pre ++ rdg :: post ->
          wit_of rdg = u "S" -> raw_text rdg <> u "" ->
          find (tei "note") rdg = None ->
          (forall r, In r post -> wit_of r = u "S" -> raw_text r = u "") ->
          ContentNode.rdg_s nd = Some (raw_text rdg))
    /\ ((forall r, In r rdgs -> wit_of r = u "S" -> raw_text r = u "") ->
        ContentNode.rdg_s nd = None).
Proof.
  intros Happ rdgs wit_of raw_text.
  assert (Hnot : forall l : list elem,
            (forall r, In r l -> wit_of r = u "S" -> raw_text r = u "") ->
            forall r, In r l -> is_s_reading r = false).
  { intros l Hl r Hin. unfold is_s_reading.
    destruct (Py.eqb (rdg_wit r) (u "S")) eqn:E; [|reflexivity].
    apply Py.eqb_eq in E. unfold rdg_text.
    change (Py.strip (inner_text r)) with (raw_text r).
    rewrite (Hl r Hin E). reflexivity. }
  exists (app_content_node app (app_counter st + 1)),
         (app_entry app (app_counter st + 1)).
  split; [apply process_app; exact Happ|].
  rewrite app_entry_readings, collect_readings_fst, app_content_node_rdg_s.
  fold rdgs. split; [|split; [|split]].
  - unfold app_content_node. destruct (collect_readings app). reflexivity.
  - apply Forall2_map_r. intros rdg. unfold reading_of, rdg_note, rdg_text.
    cbn [Reading.wit Reading.text Reading.note].
    split; [reflexivity|]. split.
    + intros ->. split; reflexivity.
    + intros note_elem s -> -> Hs. simpl.
      destruct s as [|c s]; [exfalso; apply Hs; reflexivity|].
      split; reflexivity.
  - intros pre rdg post E Hwit Htext _ Hpost.
    apply (collect_readings_snd_last app pre rdg post E).
    + unfold is_s_reading, rdg_wit. fold (wit_of rdg). rewrite Hwit.
      rewrite Py.eqb_refl. unfold rdg_text. fold (raw_text rdg).
      destruct (raw_text rdg); [exfalso; apply Htext; reflexivity|reflexivity].
    + apply Hnot, Hpost.
  - intros H. apply collect_readings_snd_none. apply Hnot, H.
Qed.

(** Readings without a note, with a note and of the witness [S]: the
    note suppresses the text of the second; and Scenario A: readings of the
    witnesses [A] and [S], in that order, and the text of the [S] reading
    as [rdg_s]. *)
Lemma C4_witness :
  (exists nd entry,
     process_element Fixtures.noted_app None None Fixtures.empty_state
     = Ok (tt, WalkState [nd] [entry] 1)
     /\ AppEntry.readings entry
        = [Reading.mk (u "A") (u "y") None;
           Reading.mk (u "B") (u "") (Some (u "om."));
           Reading.mk (u "S") (u "w") None]
     /\ ContentNode.rdg_s nd = Some (u "w"))
  /\ (exists nd entry,
        process_element Fixtures.scenario_a_app None None Fixtures.empty_state
        = Ok (tt, WalkState [nd] [entry] 1)
        /\ map Reading.wit (AppEntry.readings entry) = [u "A"; u "S"]
        /\ map Reading.text (AppEntry.readings entry)
           = [u "ᲮᲐᲬᲬᲐ"; u "ᲮᲕᲔᲬᲬᲐ"]
        /\ ContentNode.rdg_s nd = Some (u "ᲮᲕᲔᲬᲬᲐ")).
Proof.
  split.
  - destruct (C4_readings_and_rdg_s Fixtures.noted_app None
                Fixtures.empty_state eq_refl)
      as (nd & entry & Hrun & _ & Hall & Hs & _).
    exists nd, entry. split; [exact Hrun|].
    change (findall (tei "rdg") Fixtures.noted_app)
      with [Fixtures.rdg_plain; Fixtures.rdg_noted; Fixtures.rdg_sigil]
      in Hall, Hs.
    split.
    + inversion Hall as [|? r1 ? l1 (W1 & N1 & _) Hall1]; subst.
      inversion Hall1 as [|? r2 ? l2 (W2 & _ & N2) Hall2]; subst.
      inversion Hall2 as [|? r3 ? l3 (W3 & N3 & _) Hall3]; subst.
      inversion Hall3; subst.
      destruct (N1 eq_refl) as [N1n N1t].
      destruct (N2 (Fixtures.el "note" [] (Some "om.") [] None)%string
                  (u "om.") eq_refl eq_refl) as [N2n N2t];
        [vm_compute; discriminate|].
      destruct (N3 eq_refl) as [N3n N3t].
      destruct r1 as [w1 t1 n1], r2 as [w2 t2 n2], r3 as [w3 t3 n3].
      simpl in *. subst. vm_compute. reflexivity.
    + rewrite (Hs [Fixtures.rdg_plain; Fixtures.rdg_noted] Fixtures.rdg_sigil []
                 eq_refl eq_refl).
      * vm_compute. reflexivity.
      * vm_compute. discriminate.
      * reflexivity.
      * intros r [].
  - destruct (C4_readings_and_rdg_s Fixtures.scenario_a_app None
                Fixtures.empty_state eq_refl)
      as (nd & entry & Hrun & _ & _ & Hs & _).
    exists nd, entry. split; [exact Hrun|].
    assert (E := Hrun). vm_compute in E. injection E as <- <-.
    split; [vm_compute; reflexivity|]. split; [vm_compute; reflexivity|].
    apply (Hs [Fixtures.el "rdg" [("wit", "#A")] (Some "ᲮᲐᲬᲬᲐ") [] None]
              (Fixtures.el "rdg" [("wit", "#S")] (Some "ᲮᲕᲔᲬᲬᲐ") [] None) []
              eq_refl eq_refl)%string.
    + vm_compute. discriminate.
    + reflexivity.
    + intros r [].
Defined.

(** C5, as stated, fails: the place, year and title of a header that
    has them are not read. *)
Lemma C5_counterexample :
  header_texts "pubPlace" Fixtures.header_doc = [u "ქუთაისი"]
  /\ header_texts "date" Fixtures.header_doc = [u "2001"]
  /\ header_texts "title" Fixtures.header_doc = [u "სხვა კრებული"]
  /\ Metadata.publication_place (get_metadata Fixtures.header_doc) = u "თბილისი"
  /\ Metadata.publication_year (get_metadata Fixtures.header_doc) = u "1990"
  /\ Metadata.source_title (get_metadata Fixtures.header_doc)
     = u "ძველი ქართული ენის კათედრის შრომები, 32"
  /\ ~ spec_metadata_read_from_header Fixtures.header_doc.
Proof.
  do 6 (split; [vm_compute; reflexivity|]).
  intros (H & _). vm_compute in H. discriminate H.
Qed.

(** C5, amended.  The editor is the first text of a [persName] of a
    scholarly [editor] of the document, and a fixed name when the document
    has no such editor; the URN is the first text of an [idno] of type
    [cts-urn], and a fixed URN when the document has no such [idno]; the
    publication place, the publication year and the source title are fixed
    strings, whatever the document holds. *)
Theorem C5_metadata_fields (tree : elem) :
  let m := get_metadata tree in
  Metadata.editor m
    = first_or (u "აკაკი შანიძე")
        (select_texts [has_tag (tei "persName"); is_scholarly_editor]
           (nodes [] tree))
  /\ (forallb (fun e => negb (is_scholarly_editor e)) (subtree tree) = true ->
      Metadata.editor m = u "აკაკი შანიძე")
  /\ Metadata.cts_urn m = get_cts_urn tree
  /\ get_cts_urn tree
     = first_or (u "urn:cts:georgian:shanidze.arthron.ed2025")
         (select_texts [is_idno_cts] (nodes [] tree))
  /\ (forallb (fun e => negb (is_idno_cts e)) (subtree tree) = true ->
      get_cts_urn tree = u "urn:cts:georgian:shanidze.arthron.ed2025")
  /\ Metadata.publication_place m = u "თბილისი"
  /\ Metadata.publication_year m = u "1990"
  /\ Metadata.source_title m = u "ძველი ქართული ენის კათედრის შრომები, 32".
Proof.
  cbv zeta. unfold get_metadata, get_cts_urn, first_or.
  cbn [Metadata.editor Metadata.cts_urn Metadata.publication_place
       Metadata.publication_year Metadata.source_title].
  split; [reflexivity|]. split.
  { intros H.
    pose proof (select_texts_absent [has_tag (tei "persName")]
                  is_scholarly_editor tree H) as E.
    simpl app in E. rewrite E. reflexivity. }
  split; [reflexivity|]. split; [reflexivity|]. split.
  { intros H. pose proof (select_texts_absent [] is_idno_cts tree H) as E.
    simpl app in E. rewrite E. reflexivity. }
  split; [reflexivity|]. split; reflexivity.
Qed.

(** A header with an editor and a URN gives them; a document without
    header gives the fixed editor and URN. *)
Lemma C5_witness :
  Metadata.editor (get_metadata Fixtures.header_doc) = u "ვინმე"
  /\ Metadata.cts_urn (get_metadata Fixtures.header_doc) = u "urn:cts:x"
  /\ Metadata.editor (get_metadata Fixtures.two_sections) = u "აკაკი შანიძე"
  /\ get_cts_urn Fixtures.two_sections
     = u "urn:cts:georgian:shanidze.arthron.ed2025".
Proof.
  split; [vm_compute; reflexivity|]. split; [vm_compute; reflexivity|].
  destruct (C5_metadata_fields Fixtures.two_sections)
    as (_ & Hed & _ & _ & Hurn & _).
  split; [apply Hed | apply Hurn]; vm_compute; reflexivity.
Defined.

(** C6, as stated, fails: a milestone before a page break comes after it
    in [folios]. *)
Lemma C6_counterexample :
  section_folios Fixtures.folio_section
    = [Folio.mk (u "B") (u "12"); Folio.mk (u "A") (u "3r")]
  /\ spec_leading_folios Fixtures.folio_section
    = [Folio.mk (u "A") (u "3r"); Folio.mk (u "B") (u "12")]
  /\ section_folios Fixtures.folio_section
     <> spec_leading_folios Fixtures.folio_section.
Proof.
  do 2 (split; [vm_compute; reflexivity|]).
  vm_compute. discriminate.
Qed.

(** C6, amended.  When the folio markers among the direct children of a
    section element all stand before its first paragraph, the folios of the
    section are exactly these leading markers, each once: the page breaks
    in document order, followed by the folio milestones in document order;
    and they are in document order when the section has markers of one of
    the two forms only. *)
Theorem C6_section_folios (div : elem) :
  forallb (fun c => negb (is_folio_marker c))
    (from_first (has_tag (tei "p")) (children div)) = true ->
  let leading := before_first (has_tag (tei "p")) (children div) in
  section_folios div
  = map folio_of (filter is_pb leading)
    ++ map folio_of (filter is_folio_milestone leading)
  /\ Permutation (section_folios div) (spec_leading_folios div)
  /\ (filter is_pb leading = [] \/ filter is_folio_milestone leading = [] ->
      section_folios div = spec_leading_folios div).
Proof.
  intros Hlate leading.
  assert (E : section_folios div
              = map folio_of (filter is_pb leading)
                ++ map folio_of (filter is_folio_milestone leading)).
  { change (section_folios div)
      with (map folio_of (filter is_pb (children div))
            ++ map folio_of (filter is_folio_milestone (children div))).
    rewrite (filter_leading is_pb (children div)); [|  |exact Hlate].
    - rewrite (filter_leading is_folio_milestone (children div));
        [reflexivity| |exact Hlate].
      intros x Hx. unfold is_folio_marker. rewrite Hx. apply orb_true_r.
    - intros x Hx. unfold is_folio_marker. rewrite Hx. reflexivity. }
  split; [exact E|]. unfold spec_leading_folios. fold leading.
  assert (P : Permutation (filter is_pb leading
                           ++ filter is_folio_milestone leading)
                (filter is_folio_marker leading)).
  { apply (filter_disjoint_perm is_pb is_folio_milestone).
    apply pb_not_milestone. }
  split.
  - rewrite E, <- map_app. apply Permutation_map. exact P.
  - rewrite E, <- map_app. intros H. f_equal. clear E P Hlate.
    assert (Hout : forall (p : elem -> bool) x,
              filter p leading = [] -> In x leading -> p x = false).
    { intros p x Hp Hin. destruct (p x) eqn:Px; [|reflexivity].
      assert (Hf : In x (filter p leading)) by (apply filter_In; auto).
      rewrite Hp in Hf. destruct Hf. }
    destruct H as [H|H]; rewrite H.
    + simpl. apply filter_ext_in. intros x Hin.
      unfold is_folio_marker. rewrite (Hout is_pb x H Hin). reflexivity.
    + rewrite app_nil_r. apply filter_ext_in. intros x Hin.
      unfold is_folio_marker. rewrite (Hout is_folio_milestone x H Hin).
      symmetry. apply orb_false_r.
Qed.

(** A section that opens with a folio milestone and a page break, in
    that order: both are its folios, the page break first.  A section that
    opens with two page breaks has them in document order. *)
Lemma C6_witness :
  Permutation (section_folios Fixtures.folio_section)
    (spec_leading_folios Fixtures.folio_section)
  /\ section_folios Fixtures.folio_section
     = [Folio.mk (u "B") (u "12"); Folio.mk (u "A") (u "3r")]
  /\ section_folios Fixtures.page_breaks_section
     = spec_leading_folios Fixtures.page_breaks_section
  /\ section_folios Fixtures.page_breaks_section
     = [Folio.mk (u "A") (u "1"); Folio.mk (u "A") (u "2")].
Proof.
  split.
  - apply (C6_section_folios Fixtures.folio_section). vm_compute. reflexivity.
  - split; [vm_compute; reflexivity|]. split; [|vm_compute; reflexivity].
    apply (C6_section_folios Fixtures.page_breaks_section).
    + vm_compute. reflexivity.
    + right. vm_compute. reflexivity.
Defined.

(** A page break after the first paragraph of a section is among its
    folios, though it does not stand before the running text. *)
Example late_page_break_in_folios :
  section_folios Fixtures.late_folio_section = [Folio.mk (u "B") (u "12")]
  /\ spec_leading_folios Fixtures.late_folio_section = [].
Proof. split; vm_compute; reflexivity. Qed.




(** C8. The code departs from the claim: an element of an unrecognized
    tag can fail the walk.  The element [seg] has no branch of its own and
    takes the fallback; it holds a mentioned term followed by a comment,
    and the lookahead of the mentioned term asks the comment for the name
    of its tag without the test for a name that the head of the walk makes;
    the walk of the element, and of a section that holds it, raises.
    Without the comment the same element gives its leading text and the
    node of the mentioned term; and a cross-reference without a [target]
    gives a [term] node whose target is the empty string. *)
Lemma C8_unrecognized_element_raises :
  unrecognized Fixtures.seg_with_comment = true
  /\ classify Fixtures.seg_with_comment = KOther
  /\ process_element Fixtures.seg_with_comment None None Fixtures.empty_state
     = Raise ValueError
  /\ _parse_section_content Fixtures.seg_comment_section 0 = Raise ValueError
  /\ process_element Fixtures.seg_without_comment None None
       Fixtures.empty_state
     = Ok (tt, WalkState [text_node_of (u "a");
                          mentioned_node (u "ღმერთი") None] [] 0)
  /\ process_element Fixtures.term_without_target None None
       Fixtures.empty_state
     = Ok (tt, WalkState [term_node (u "") (u "artron")] [] 0).
Proof. repeat (split; [vm_compute; reflexivity|]). vm_compute. reflexivity. Qed.

(** The one failure of the walk: a mentioned term followed by a
    comment. *)
Example mentioned_before_comment_raises :
  _parse_section_content
    (Fixtures.section_div "1" [Fixtures.mentioned_then_comment]) 0
  = Raise ValueError.
Proof. vm_compute. reflexivity. Qed.

(** C9. The [note] of the inline [app] node is the note of the first
    reading, and [None] when the element has no reading, whatever the later
    readings carry; the notes of all readings are on the entry's readings,
    and the entry's own [note] is never set. *)
Theorem C9_app_note_is_first_reading (app : elem) (next_sib : option elem)
    (st : walk_state) :
  classify app = KApp ->
  exists nd entry,
    process_element app next_sib None st
    = Ok (tt, WalkState (content st ++ [nd]) (apparatus st ++ [entry])
                (app_counter st + 1))
    /\ ContentNode.note nd
       = match findall (tei "rdg") app with
         | first :: _ => rdg_note first
         | [] => None
         end
    /\ map Reading.note (AppEntry.readings entry)
       = map rdg_note (findall (tei "rdg") app)
    /\ AppEntry.note entry = None.
Proof.
  intros Happ.
  exists (app_content_node app (app_counter st + 1)),
         (app_entry app (app_counter st + 1)).
  split; [apply process_app; exact Happ|].
  rewrite app_content_node_note, app_entry_readings, collect_readings_fst.
  rewrite map_map. repeat split.
  unfold app_entry. destruct (collect_readings app). reflexivity.
Qed.

(** A first reading without a note and a second one with a note: the node
    has no note, the entry's readings have it. *)
Lemma C9_witness :
  exists nd entry,
    process_element Fixtures.late_note_app None None Fixtures.empty_state
    = Ok (tt, WalkState [nd] [entry] 1)
    /\ ContentNode.note nd = None
    /\ map Reading.note (AppEntry.readings entry) = [None; Some (u "om.")].
Proof.
  destruct (C9_app_note_is_first_reading Fixtures.late_note_app None
              Fixtures.empty_state eq_refl)
    as (nd & entry & Hrun & Hnote & Hnotes & _).
  exists nd, entry. repeat split; assumption.
Defined.

(** C10. The identifier of every exposed lexicon entry is the [xml:id] of
    its element with the occurrences of [lex.] removed, wherever they
    stand: removal goes through every occurrence, and leaves an identifier
    without the marker as it is.  Without an [xml:id] the identifier is the
    empty string. *)
Theorem C10_lexicon_id_strips_marker (tree : elem) (le : LexiconEntry.t) :
  In le (get_lexicon_entries tree) ->
  exists entry,
    In entry (entry_elems tree) /\ le = lexicon_entry_of entry
    /\ LexiconEntry.id le
       = Py.replace (u "lex.") (u "") (get_or entry XML_ID (u ""))
    /\ (get entry XML_ID = None -> LexiconEntry.id le = u "")
    /\ (forall a b, get entry XML_ID = Some (a ++ u "lex." ++ b) ->
        LexiconEntry.id le
        = Py.replace (u "lex.") (u "") a ++ Py.replace (u "lex.") (u "") b)
    /\ (forall s, get entry XML_ID = Some s ->
        Py.contains (u "lex.") s = false -> LexiconEntry.id le = s).
Proof.
  intros H. apply lexicon_entries_from_elems in H.
  destruct H as (entry & Hin & ->). exists entry.
  split; [exact Hin|]. split; [reflexivity|].
  unfold lexicon_entry_of, get_or. cbn [LexiconEntry.id].
  split; [reflexivity|]. split; [|split].
  - intros ->. reflexivity.
  - intros a b ->.
    change (Py.replace_from LEX [] 0 (a ++ LEX ++ b)
            = Py.replace_from LEX [] 0 a ++ Py.replace_from LEX [] 0 b).
    apply replace_LEX_app. lia.
  - intros s -> Hs.
    change (Py.replace_from LEX [] 0 s = s).
    apply replace_LEX_absent. exact Hs.
Qed.

(** An identifier with the marker at its head and in its middle. *)
Lemma C10_witness :
  (exists entry,
     In entry (entry_elems Fixtures.lexicon_doc)
     /\ lexicon_entry_of Fixtures.entry_etym = lexicon_entry_of entry
     /\ LexiconEntry.id (lexicon_entry_of Fixtures.entry_etym)
        = Py.replace (u "lex.") (u "") (get_or entry XML_ID (u ""))
     /\ (get entry XML_ID = None ->
         LexiconEntry.id (lexicon_entry_of Fixtures.entry_etym) = u "")
     /\ (forall a b, get entry XML_ID = Some (a ++ u "lex." ++ b) ->
         LexiconEntry.id (lexicon_entry_of Fixtures.entry_etym)
         = Py.replace (u "lex.") (u "") a ++ Py.replace (u "lex.") (u "") b)
     /\ (forall s, get entry XML_ID = Some s ->
         Py.contains (u "lex.") s = false ->
         LexiconEntry.id (lexicon_entry_of Fixtures.entry_etym) = s))
  /\ map LexiconEntry.id (get_lexicon_entries Fixtures.lexicon_doc)
     = [u "a"; u "b.c"; u ""].
Proof.
  split.
  - apply (C10_lexicon_id_strips_marker Fixtures.lexicon_doc
             (lexicon_entry_of Fixtures.entry_etym)).
    vm_compute. right. left. reflexivity.
  - vm_compute. reflexivity.
Defined.

(** * Further properties of the parser *)

(** X1. No fragment marker survives in what [get_sections] exposes: the
    [target] of every term node, the [ed] of every folio node and of every
    leading folio, the witness of every reading and the witness of every
    lemma are free of [#], wherever the marker stood in the attribute. *)
Theorem X1_no_fragment_marker (tree : elem) (sections : list SectionRecord.t) :
  get_sections tree = Ok sections ->
  Forall (fun s =>
            Forall node_hash_free (SectionRecord.content s)
            /\ Forall entry_hash_free (SectionRecord.apparatus s)
            /\ Forall (fun f => hash_free (Folio.ed f)) (SectionRecord.folios s))
    sections.
Proof.
  intros H. apply get_sections_built in H.
  apply (Forall2_right (R := built (get_cts_urn tree))) with (l := section_divs tree);
    [|exact H].
  intros div s (k & k' & Hp & Hs).
  apply parse_section_content_hash_free in Hp.
  destruct Hp as [Hn He]. split; [exact Hn|]. split; [exact He|].
  rewrite Hs. cbn [build_section SectionRecord.folios].
  unfold section_folios. apply Forall_app.
  split; apply Forall_forall; intros f Hf; apply in_map_iff in Hf;
    destruct Hf as (e & <- & _); apply replace_hash_free.
Qed.

Lemma X1_witness :
  exists sections,
    get_sections Fixtures.treatise = Ok sections
    /\ flat_map (fun s => flat_map (fun nd => opt_list (ContentNode.target nd))
                            (SectionRecord.content s)) sections
       = [u "lex.artron"]
    /\ Forall (fun s =>
            Forall node_hash_free (SectionRecord.content s)
            /\ Forall entry_hash_free (SectionRecord.apparatus s)
            /\ Forall (fun f => hash_free (Folio.ed f)) (SectionRecord.folios s))
         sections.
Proof.
  eexists. split; [vm_compute; reflexivity|]. split; [reflexivity|].
  apply (X1_no_fragment_marker Fixtures.treatise). vm_compute. reflexivity.
Defined.

(** X2. Every node of every section holds the fields of its type and no
    other: a text node its [value]; an app node [id], [index] and [lem]
    (with [rdg_s] and [note] when there are any); a term node [target] and
    [text]; a folio node [ed] and [n]; a Greek node [text]; a mentioned node
    [ka] (with [grc] when there is one). *)
Theorem X2_nodes_well_shaped (tree : elem) (sections : list SectionRecord.t) :
  get_sections tree = Ok sections ->
  Forall (fun s => Forall (fun nd => well_shaped nd = true)
                     (SectionRecord.content s)) sections.
Proof.
  intros H. apply get_sections_built in H.
  apply (Forall2_right (R := built (get_cts_urn tree))) with (l := section_divs tree);
    [|exact H].
  intros div s (k & k' & Hp & _).
  apply (parse_section_content_well_shaped _ _ Hp).
Qed.

Lemma X2_witness :
  exists sections,
    get_sections Fixtures.treatise = Ok sections
    /\ map (fun s => map ContentNode.type (SectionRecord.content s)) sections
       = [[TText; TTerm; TText; TApp; TFolio; TText]; [TText]; []]
    /\ Forall (fun s => Forall (fun nd => well_shaped nd = true)
                          (SectionRecord.content s)) sections.
Proof.
  eexists. split; [vm_compute; reflexivity|]. split; [reflexivity|].
  apply (X2_nodes_well_shaped Fixtures.treatise). vm_compute. reflexivity.
Defined.

(** X3. The three boundary markers are normalised alike: a page break, a
    folio milestone and a column break each give one folio node whose [ed]
    is the [ed] attribute without any [#] and whose [n] is the [n]
    attribute, both the empty string when the attribute is missing; the
    text and the children of the marker are ignored. *)
Theorem X3_folio_markers_normalised (e : elem) (next_sib : option elem)
    (st : walk_state) :
  classify e = KPb \/ classify e = KMilestone \/ classify e = KCb ->
  process_element e next_sib None st
  = Ok (tt, WalkState
              (content st
               ++ [folio_node
                     (filter (fun c => negb (N.eqb HASH c))
                        (get_or e (u "ed") (u "")))
                     (get_or e (u "n") (u ""))])
              (apparatus st) (app_counter st)).
Proof.
  intros K.
  assert (Hcb : cb_n e = get_or e (u "n") (u "")).
  { unfold cb_n. destruct (get_or e (u "n") (u "")); reflexivity. }
  rewrite <- replace_hash_filter. apply process_single.
  unfold branch, folio_ed.
  destruct K as [K|[K|K]]; rewrite K; try rewrite Hcb; reflexivity.
Qed.

(** Scenario B: a folio milestone and a page break, a column break. *)
Lemma X3_witness :
  process_element Fixtures.folio_milestone None None Fixtures.empty_state
    = Ok (tt, WalkState [folio_node (u "A") (u "3r")] [] 0)
  /\ process_element Fixtures.page_break None None Fixtures.empty_state
    = Ok (tt, WalkState [folio_node (u "B") (u "12")] [] 0).
Proof.
  split.
  - apply (X3_folio_markers_normalised Fixtures.folio_milestone None
             Fixtures.empty_state). right. left. reflexivity.
  - apply (X3_folio_markers_normalised Fixtures.page_break None
             Fixtures.empty_state). left. reflexivity.
Defined.

(** X4. [get_sections] is all or nothing.  It returns the sections, one
    for every section element, when no paragraph of a section reaches a
    mentioned term whose next sibling is a comment or a processing
    instruction; otherwise it raises [ValueError], whatever the sections
    before the failing one held. *)
Theorem X4_get_sections_all_or_nothing (tree : elem) :
  (forallb section_safe (section_divs tree) = true ->
   exists sections,
     get_sections tree = Ok sections
     /\ length sections = length (section_divs tree))
  /\ (forallb section_safe (section_divs tree) = false ->
      get_sections tree = Raise ValueError).
Proof.
  unfold get_sections.
  destruct (sections_loop_decided (get_cts_urn tree) (section_divs tree) [] 0)
    as [Hok Hraise].
  split; [|exact Hraise].
  intros H. destruct (Hok H) as [out E]. exists out. split; [exact E|].
  apply sections_loop_built in E. destruct E as (new & -> & F).
  symmetry. apply (Forall2_length F).
Qed.

Lemma X4_witness :
  (exists sections,
     get_sections Fixtures.treatise = Ok sections /\ length sections = 3%nat)
  /\ get_sections Fixtures.failing_treatise = Raise ValueError.
Proof.
  split.
  - apply (proj1 (X4_get_sections_all_or_nothing Fixtures.treatise)).
    vm_compute. reflexivity.
  - apply (proj2 (X4_get_sections_all_or_nothing Fixtures.failing_treatise)).
    vm_compute. reflexivity.
Defined.

(** X5. The sections follow the section elements of the body one to one,
    in document order.  The number of a section is the [n] attribute of its
    element (the empty string without one), its identifier the [xml:id]
    (or [sec.] and the number), its URN the URN of the document, a colon
    and the number, and its folios those of its element. *)
Theorem X5_sections_follow_document (tree : elem)
    (sections : list SectionRecord.t) :
  get_sections tree = Ok sections ->
  Forall2 (fun div s =>
             SectionRecord.n s = get_or div (u "n") (u "")
             /\ SectionRecord.xml_id s
                = get_or div XML_ID (u "sec." ++ SectionRecord.n s)
             /\ SectionRecord.urn s
                = get_cts_urn tree ++ u ":" ++ SectionRecord.n s
             /\ SectionRecord.folios s = section_folios div)
    (section_divs tree) sections.
Proof.
  intros H. apply get_sections_built in H.
  induction H as [|div s divs secs (k & k' & _ & Hs) _ IH]; constructor;
    [|exact IH].
  rewrite Hs. cbn [build_section SectionRecord.n SectionRecord.xml_id
                   SectionRecord.urn SectionRecord.folios].
  repeat split.
Qed.

Lemma X5_witness :
  exists sections,
    get_sections Fixtures.treatise = Ok sections
    /\ map SectionRecord.urn sections
       = [u "urn:cts:x:1"; u "urn:cts:x:1"; u "urn:cts:x:"]
    /\ map SectionRecord.xml_id sections = [u "sec.1"; u "sec.1"; u "sec."]
    /\ Forall2 (fun div s =>
             SectionRecord.n s = get_or div (u "n") (u "")
             /\ SectionRecord.xml_id s
                = get_or div XML_ID (u "sec." ++ SectionRecord.n s)
             /\ SectionRecord.urn s
                = get_cts_urn Fixtures.treatise ++ u ":" ++ SectionRecord.n s
             /\ SectionRecord.folios s = section_folios div)
         (section_divs Fixtures.treatise) sections.
Proof.
  eexists. split; [vm_compute; reflexivity|].
  split; [reflexivity|]. split; [reflexivity|].
  apply (X5_sections_follow_document Fixtures.treatise). vm_compute. reflexivity.
Defined.

(** X6. The incipit of a section is cut from the first 50 characters of
    the concatenated values of its text nodes by removing white space, and
    only white space, at both ends: it has at most 50 characters and
    neither begins nor ends with white space (it is empty when the section
    has no text). *)
Theorem X6_incipit_bounded_and_trimmed (tree : elem)
    (sections : list SectionRecord.t) :
  get_sections tree = Ok sections ->
  Forall (fun s =>
            (length (SectionRecord.incipit s) <= 50)%nat
            /\ no_space_at_head (SectionRecord.incipit s)
            /\ no_space_at_head (rev (SectionRecord.incipit s))
            /\ exists a b,
                 firstn 50 (text_content (SectionRecord.content s))
                 = a ++ SectionRecord.incipit s ++ b
                 /\ Forall (fun c => Py.isspace c = true) a
                 /\ Forall (fun c => Py.isspace c = true) b)
    sections.
Proof.
  intros H. apply get_sections_built in H.
  apply (Forall2_right (R := built (get_cts_urn tree)))
    with (l := section_divs tree); [|exact H].
  intros div s (k & k' & _ & Hs).
  pose proof (f_equal SectionRecord.incipit Hs) as Hi.
  cbn [build_section SectionRecord.incipit] in Hi.
  assert (E : SectionRecord.incipit s
              = Py.strip (firstn 50 (text_content (SectionRecord.content s)))).
  { rewrite Hi. unfold incipit_of.
    destruct (text_content (SectionRecord.content s)); reflexivity. }
  rewrite E.
  destruct (strip_spec (firstn 50 (text_content (SectionRecord.content s))))
    as (a & b & Eab & Fa & Fb & Hh & Hl).
  split; [|split; [exact Hh|split; [exact Hl|]]].
  - eapply Nat.le_trans; [apply strip_length|]. apply firstn_le_length.
  - exists a, b. split; [exact Eab|]. split; assumption.
Qed.

Lemma X6_witness :
  exists sections,
    get_sections Fixtures.treatise = Ok sections
    /\ map SectionRecord.incipit sections = [u "In ,  end"; u "text"; u ""]
    /\ Forall (fun s =>
            (length (SectionRecord.incipit s) <= 50)%nat
            /\ no_space_at_head (SectionRecord.incipit s)
            /\ no_space_at_head (rev (SectionRecord.incipit s))
            /\ exists a b,
                 firstn 50 (text_content (SectionRecord.content s))
                 = a ++ SectionRecord.incipit s ++ b
                 /\ Forall (fun c => Py.isspace c = true) a
                 /\ Forall (fun c => Py.isspace c = true) b)
         sections.
Proof.
  eexists. split; [vm_compute; reflexivity|]. split; [reflexivity|].
  apply (X6_incipit_bounded_and_trimmed Fixtures.treatise).
  vm_compute. reflexivity.
Defined.

(** X7. [get_witnesses] gives one witness for every witness element, in
    document order, with the [xml:id] of the element as identifier ([None]
    without one); a witness whose element holds no settlement, repository
    or locus element has the empty string in that field. *)
Theorem X7_witnesses_follow_document (tree : elem) :
  Forall2 (fun wit w =>
             Witness.id w = get wit XML_ID
             /\ (forallb (fun e => negb (has_tag (tei "settlement") e))
                   (below wit) = true -> Witness.settlement w = u "")
             /\ (forallb (fun e => negb (has_tag (tei "repository") e))
                   (below wit) = true -> Witness.repository w = u "")
             /\ (forallb (fun e => negb (has_tag (tei "locus") e))
                   (below wit) = true -> Witness.locus w = u ""))
    (witness_elems tree) (get_witnesses tree).
Proof.
  unfold get_witnesses. apply Forall2_map_r. intros wit.
  unfold witness_of, first_text_below.
  cbn [Witness.id Witness.settlement Witness.repository Witness.locus].
  split; [reflexivity|].
  repeat split; intros H;
    pose proof (select_texts_below_absent [] _ wit H) as E;
    simpl app in E; rewrite E; reflexivity.
Qed.

Lemma X7_witness :
  get_witnesses Fixtures.witness_list
  = [Witness.mk (Some (u "A")) (u "თბილისი") (u "NCM") (u "");
     Witness.mk None (u "") (u "") (u "")]
  /\ Forall2 (fun wit w =>
             Witness.id w = get wit XML_ID
             /\ (forallb (fun e => negb (has_tag (tei "settlement") e))
                   (below wit) = true -> Witness.settlement w = u "")
             /\ (forallb (fun e => negb (has_tag (tei "repository") e))
                   (below wit) = true -> Witness.repository w = u "")
             /\ (forallb (fun e => negb (has_tag (tei "locus") e))
                   (below wit) = true -> Witness.locus w = u ""))
       (witness_elems Fixtures.witness_list)
       (get_witnesses Fixtures.witness_list).
Proof.
  split; [vm_compute; reflexivity|].
  apply (X7_witnesses_follow_document Fixtures.witness_list).
Defined.

(** X8. The list [get_lexicon_entries] returns is sorted by headword in
    code-point order, and it is a rearrangement of the entries built from
    the entry elements: no entry is lost, added or changed by the sort. *)
Theorem X8_lexicon_sorted (tree : elem) :
  StronglySorted (fun a b => Py.leb (LexiconEntry.lemma a)
                               (LexiconEntry.lemma b) = true)
    (get_lexicon_entries tree)
  /\ Permutation (get_lexicon_entries tree)
       (map lexicon_entry_of (entry_elems tree))
  /\ length (get_lexicon_entries tree) = length (entry_elems tree).
Proof.
  unfold get_lexicon_entries. split; [apply sort_by_lemma_sorted|].
  split; [apply sort_by_lemma_perm|].
  rewrite (Permutation_length (sort_by_lemma_perm _)). apply length_map.
Qed.

(** X9. The sort is stable: the entries of one headword come out in the
    order of their elements in the document. *)
Theorem X9_lexicon_sort_stable (tree : elem) (headword : str) :
  filter (fun e => Py.eqb (LexiconEntry.lemma e) headword)
    (get_lexicon_entries tree)
  = filter (fun e => Py.eqb (LexiconEntry.lemma e) headword)
      (map lexicon_entry_of (entry_elems tree)).
Proof. unfold get_lexicon_entries. apply sort_by_lemma_filter. Qed.

(** X10. The occurrences of an exposed entry are read off the targets of
    its citation references, in document order: a target that holds
    [sec.] gives what follows its last [sec.] (so [p + 'sec.' + n] gives
    [n] when [n] holds no [sec.]), a target without [sec.] gives nothing;
    and [occurrence_count] is the number of occurrences. *)
Theorem X10_occurrences (tree : elem) (le : LexiconEntry.t) :
  In le (get_lexicon_entries tree) ->
  LexiconEntry.occurrence_count le
  = Z.of_nat (length (LexiconEntry.occurrences le))
  /\ (exists entry,
        In entry (entry_elems tree)
        /\ LexiconEntry.occurrences le
           = flat_map occurrence_of (citation_targets entry))
  /\ (forall p n, Py.contains (u "sec.") n = false ->
      occurrence_of (p ++ u "sec." ++ n) = [n])
  /\ (forall t, Py.contains (u "sec.") t = false -> occurrence_of t = []).
Proof.
  intros H. apply lexicon_entries_from_elems in H.
  destruct H as (entry & Hin & ->).
  split; [reflexivity|]. split; [exists entry; split; [exact Hin|reflexivity]|].
  split; [apply occurrence_of_section|].
  intros t Ht. unfold occurrence_of. rewrite Ht. reflexivity.
Qed.

(** Scenario D: targets for sections 5 and 7, and one without section. *)
Lemma X10_witness :
  LexiconEntry.occurrences (lexicon_entry_of Fixtures.entry_late)
    = [u "5"; u "7"]
  /\ LexiconEntry.occurrence_count (lexicon_entry_of Fixtures.entry_late)
     = Z.of_nat
         (length (LexiconEntry.occurrences
                    (lexicon_entry_of Fixtures.entry_late))).
Proof.
  split; [vm_compute; reflexivity|].
  apply (X10_occurrences Fixtures.unsorted_lexicon
           (lexicon_entry_of Fixtures.entry_late)).
  vm_compute. do 4 right. left. reflexivity.
Defined.

(** X11. What an exposed entry holds as optional text is never the empty
    string: the foreign equivalent, the part of speech and the note are
    [None] or a text with at least one character, and every example has a
    quote with at least one character (a citation without quoted text
    gives no example). *)
Theorem X11_lexicon_texts_not_empty (tree : elem) (le : LexiconEntry.t) :
  In le (get_lexicon_entries tree) ->
  LexiconEntry.greek le <> Some []
  /\ LexiconEntry.pos le <> Some []
  /\ LexiconEntry.note le <> Some []
  /\ Forall (fun ex => Example.quote ex <> []) (LexiconEntry.examples le).
Proof.
  intros H. apply lexicon_entries_from_elems in H.
  destruct H as (entry & _ & ->).
  assert (Hsel : forall ctx steps s,
            In s (select_texts steps (nodes_below ctx)) -> s <> []).
  { intros ctx steps. apply select_texts_nonempty.
    intros anc s. apply nodes_below_text_nonempty. }
  assert (Hex : forall ctx steps s,
            In s (select_texts_exact steps (nodes_below ctx)) -> s <> []).
  { intros ctx steps. apply select_texts_exact_nonempty.
    intros anc s. apply nodes_below_text_nonempty. }
  unfold lexicon_entry_of.
  cbn [LexiconEntry.greek LexiconEntry.pos LexiconEntry.note
       LexiconEntry.examples].
  split; [|split; [|split]].
  - unfold entry_greek, etym_mentioned_texts, translation_quote_texts.
    intros E. apply hd_error_in in E.
    destruct (select_texts [has_tag (tei "mentioned"); has_tag (tei "etym")]
                (nodes_below entry)) as [|m ms] eqn:G.
    + simpl in E. apply (Hsel _ _ _ E). reflexivity.
    + cbv beta iota delta [negb] in E.
      apply (Hsel entry [has_tag (tei "mentioned"); has_tag (tei "etym")] []);
        [rewrite G; exact E | reflexivity].
  - intros E. apply hd_error_in in E. apply (Hsel _ _ _ E). reflexivity.
  - intros E. apply hd_error_in in E. apply (Hex _ _ _ E). reflexivity.
  - apply Forall_forall. intros ex Hin. apply in_flat_map in Hin.
    destruct Hin as (cit & _ & Hin). unfold example_of in Hin.
    destruct (select_texts_exact [has_tag (tei "quote")] (nodes_below cit))
      as [|q qs] eqn:Q; [destruct Hin|].
    destruct Hin as [<-|[]]. simpl.
    apply (Hex cit [has_tag (tei "quote")]). rewrite Q. left. reflexivity.
Qed.

Lemma X11_witness :
  map Example.quote
    (LexiconEntry.examples (lexicon_entry_of Fixtures.entry_late))
    = [u "q1"; u "q2"]
  /\ LexiconEntry.greek (lexicon_entry_of Fixtures.entry_late) <> Some []
  /\ LexiconEntry.pos (lexicon_entry_of Fixtures.entry_late) <> Some []
  /\ LexiconEntry.note (lexicon_entry_of Fixtures.entry_late) <> Some []
  /\ Forall (fun ex => Example.quote ex <> [])
       (LexiconEntry.examples (lexicon_entry_of Fixtures.entry_late)).
Proof.
  split; [vm_compute; reflexivity|].
  apply (X11_lexicon_texts_not_empty Fixtures.unsorted_lexicon
           (lexicon_entry_of Fixtures.entry_late)).
  vm_compute. do 4 right. left. reflexivity.
Defined.




(** * Properties of the build script *)

(** X12. [witnesses_to_dict] keeps one item for each identifier: looking
    an identifier up gives the fields of the last witness of the list with
    that identifier, and nothing for an identifier no witness has.  The
    witnesses without [xml:id] all share the key [None].  When the
    identifiers are pairwise distinct the dictionary has one item for each
    witness, in the order of the list. *)
Theorem X12_witnesses_to_dict_last_wins (witnesses_list : list Witness.t) :
  (forall key,
     PyDict.get Build.key_eqb key (Build.witnesses_to_dict witnesses_list)
     = option_map Build.witness_info
         (List.find (fun w => Build.key_eqb (Witness.id w) key)
            (rev witnesses_list)))
  /\ NoDup (PyDict.keys (Build.witnesses_to_dict witnesses_list))
  /\ (NoDup (map Witness.id witnesses_list) ->
      Build.witnesses_to_dict witnesses_list
      = map (fun w => (Witness.id w, Build.witness_info w)) witnesses_list).
Proof.
  unfold Build.witnesses_to_dict. split; [|split].
  - intros key. rewrite PyDict.get_comprehension by apply Build.key_eqb_eq.
    destruct (List.find _ _); reflexivity.
  - apply PyDict.keys_comprehension_nodup;
      first [apply Build.key_eqb_eq | constructor].
  - intros H.
    apply PyDict.comprehension_distinct; [apply Build.key_eqb_eq | exact H].
Qed.

Lemma X12_witness :
  PyDict.get Build.key_eqb None
    (Build.witnesses_to_dict Fixtures.three_witnesses)
  = Some (Build.WitnessInfo.mk (u "second") (u "") (u ""))
  /\ PyDict.keys (Build.witnesses_to_dict Fixtures.three_witnesses)
     = [None; Some (u "A")]
  /\ Build.witnesses_to_dict (get_witnesses Fixtures.witness_list)
     = map (fun w => (Witness.id w, Build.witness_info w))
         (get_witnesses Fixtures.witness_list).
Proof.
  split; [|split].
  - rewrite (proj1 (X12_witnesses_to_dict_last_wins Fixtures.three_witnesses)).
    reflexivity.
  - reflexivity.
  - apply (proj2 (proj2 (X12_witnesses_to_dict_last_wins
                           (get_witnesses Fixtures.witness_list)))).
    vm_compute. repeat constructor; simpl; intuition discriminate.
Defined.

(** X13. In [lexicon_to_dict] of the exposed entries an identifier leads
    to the last entry, in headword order, that has it; so two entries
    whose [xml:id] differ only by the marker [lex.] leave one item.  When
    the identifiers of the exposed entries are pairwise distinct, every
    entry is found under its identifier, with its headword, equivalent,
    part of speech and the definitions of its first sense. *)
Theorem X13_lexicon_to_dict (tree : elem) :
  let entries := get_lexicon_entries tree in
  let d := Build.lexicon_to_dict entries in
  (forall key,
     PyDict.get Py.eqb key d
     = option_map Build.lexicon_info
         (List.find (fun e => Py.eqb (LexiconEntry.id e) key) (rev entries)))
  /\ NoDup (PyDict.keys d)
  /\ (NoDup (map LexiconEntry.id entries) ->
      forall le, In le entries ->
      PyDict.get Py.eqb (LexiconEntry.id le) d = Some (Build.lexicon_info le)).
Proof.
  intros entries d.
  assert (Hget : forall key,
     PyDict.get Py.eqb key d
     = option_map Build.lexicon_info
         (List.find (fun e => Py.eqb (LexiconEntry.id e) key) (rev entries))).
  { intros key. unfold d, Build.lexicon_to_dict.
    rewrite PyDict.get_comprehension by apply Py.eqb_eq.
    destruct (List.find _ _); reflexivity. }
  split; [exact Hget|]. split.
  - apply PyDict.keys_comprehension_nodup;
      first [apply Py.eqb_eq | constructor].
  - intros Hnd le Hin. rewrite Hget.
    destruct (find_some_in (fun e => Py.eqb (LexiconEntry.id e) (LexiconEntry.id le))
                (rev entries) le) as [y Hy].
    + apply in_rev in Hin. exact Hin.
    + apply Py.eqb_refl.
    + rewrite Hy. simpl. f_equal. f_equal.
      apply find_some in Hy. destruct Hy as [Hy E].
      apply Py.eqb_eq in E. apply in_rev in Hy.
      apply (nodup_map_inj LexiconEntry.id entries y le Hnd Hy Hin E).
Qed.

Lemma X13_witness :
  map fst (Build.lexicon_to_dict (get_lexicon_entries Fixtures.clashing_lexicon))
    = [u "a"]
  /\ option_map Build.LexiconInfo.lemma
       (PyDict.get Py.eqb (u "a")
          (Build.lexicon_to_dict (get_lexicon_entries Fixtures.clashing_lexicon)))
     = Some (u "ბ")
  /\ PyDict.get Py.eqb (u "z1")
       (Build.lexicon_to_dict (get_lexicon_entries Fixtures.unsorted_lexicon))
     = Some (Build.lexicon_info (lexicon_entry_of Fixtures.entry_late)).
Proof.
  split; [vm_compute; reflexivity|]. split; [vm_compute; reflexivity|].
  apply (proj2 (proj2 (X13_lexicon_to_dict Fixtures.unsorted_lexicon))
           ltac:(vm_compute; repeat constructor; simpl; intuition discriminate)
           (lexicon_entry_of Fixtures.entry_late)).
  vm_compute. do 4 right. left. reflexivity.
Defined.

(** X14. [url_for] at a page depth.  An endpoint that is no route gives
    [index.html], without prefix, at every depth.  For a route, the link
    from depth [d > 0] is the link from the root with [d] times [../] in
    front, a negative depth gives the link from the root, and an exception
    at the root is the same exception at every depth.  For every route
    but [section] the keyword arguments are ignored and no exception is
    raised. *)
Theorem X14_url_for_depth (depth : Z) (endpoint : str)
    (kwargs : list (str * str)) :
  (Build.route endpoint Build.ROUTES = None ->
   Build.url_for depth endpoint kwargs = Build.Return (u "index.html"))
  /\ (forall path,
        Build.route endpoint Build.ROUTES <> None ->
        Build.url_for 0 endpoint kwargs = Build.Return path ->
        Build.url_for depth endpoint kwargs
        = Build.Return (if 0 <? depth
                        then Build.times (u "../") depth ++ path else path))
  /\ (forall e,
        Build.url_for 0 endpoint kwargs = Build.Throw e ->
        Build.url_for depth endpoint kwargs = Build.Throw e)
  /\ (forall template target_depth,
        Build.route endpoint Build.ROUTES = Some (template, target_depth) ->
        endpoint <> u "section" ->
        Build.url_for 0 endpoint kwargs = Build.Return template).
Proof.
  unfold Build.url_for. split; [|split; [|split]].
  - intros ->. reflexivity.
  - intros path Hr.
    destruct (Build.route endpoint Build.ROUTES) as [[template td]|];
      [|congruence].
    destruct (match kwargs with
              | [] => Build.Return template
              | _ :: _ => Build.format template kwargs
              end) as [p|e]; simpl; [|discriminate].
    intros H. injection H as ->.
    destruct (Z.eqb_spec depth 0) as [->|Hd]; [reflexivity|].
    destruct (Z.ltb_spec 0 depth); [reflexivity|].
    rewrite times_negative by lia. reflexivity.
  - intros e.
    destruct (Build.route endpoint Build.ROUTES) as [[template td]|];
      [|discriminate].
    destruct (match kwargs with
              | [] => Build.Return template
              | _ :: _ => Build.format template kwargs
              end) as [p|e']; simpl; [discriminate|].
    intros H. exact H.
  - intros template td Hr Hne. rewrite Hr.
    destruct kwargs as [|kv kwargs]; [reflexivity|].
    rewrite format_brace_free; [reflexivity|].
    eapply route_brace_free; eassumption.
Qed.

Lemma X14_witness :
  Build.url_for 1 (u "colophon") [] = Build.Return (u "index.html")
  /\ Build.url_for 2 (u "lexicon") [(u "n", u "4")]
     = Build.Return (u "../../lexicon/index.html")
  /\ Build.url_for 0 (u "about") [(u "n", u "4")]
     = Build.Return (u "about.html").
Proof.
  split; [|split].
  - apply (proj1 (X14_url_for_depth 1 (u "colophon") [])). reflexivity.
  - apply (proj1 (proj2 (X14_url_for_depth 2 (u "lexicon") [(u "n", u "4")]))).
    + discriminate.
    + reflexivity.
  - apply (proj2 (proj2 (proj2 (X14_url_for_depth 0 (u "about")
                                  [(u "n", u "4")]))) (u "about.html") 0).
    + reflexivity.
    + vm_compute. discriminate.
Defined.

(** X15. [url_for] of the [section] route.  With a keyword argument [n]
    the link is [text/], the value of [n] as it is, and [.html], behind
    the prefix of the depth; other keyword arguments do not matter.  With
    keyword arguments but no [n] it raises [KeyError].  Without keyword
    arguments the template is not formatted and the link holds [{n}]. *)
Theorem X15_url_for_section (depth : Z) (kwargs : list (str * str)) :
  let prefix :=
    if depth =? 0 then u "" else Build.times (u "../") depth in
  (forall n, lookup (u "n") kwargs = Some n ->
   Build.url_for depth (u "section") kwargs
   = Build.Return (prefix ++ u "text/" ++ n ++ u ".html"))
  /\ (kwargs <> [] -> lookup (u "n") kwargs = None ->
      Build.url_for depth (u "section") kwargs
      = Build.Throw (Build.KeyError (u "n")))
  /\ (kwargs = [] ->
      Build.url_for depth (u "section") kwargs
      = Build.Return (prefix ++ u "text/{n}.html")).
Proof.
  intros prefix.
  assert (Hfmt : Build.format (u "text/{n}.html") kwargs
                 = match lookup (u "n") kwargs with
                   | Some n => Build.Return (u "text/" ++ n ++ u ".html")
                   | None => Build.Throw (Build.KeyError (u "n"))
                   end).
  { unfold Build.format.
    change (u "text/{n}.html")
      with ([116; 101; 120; 116; 47; 123; 110; 125; 46; 104; 116; 109; 108]%N).
    cbn [Build.format_from N.eqb Pos.eqb Build.LBRACE Build.RBRACE app].
    unfold Build.field_value.
    change (existsb Build.is_field_syntax [110%N]) with false.
    change (forallb Build.is_digit [110%N]) with false.
    cbv iota. change [110%N] with (u "n").
    destruct (lookup (u "n") kwargs); reflexivity. }
  unfold Build.url_for.
  change (Build.route (u "section") Build.ROUTES)
    with (Some (u "text/{n}.html", 1)).
  split; [|split].
  - intros n Hn. destruct kwargs as [|kv kwargs]; [discriminate|].
    rewrite Hfmt, Hn. unfold prefix. simpl Build.and_then.
    destruct (depth =? 0); reflexivity.
  - intros Hne Hn. destruct kwargs as [|kv kwargs]; [congruence|].
    rewrite Hfmt, Hn. reflexivity.
  - intros ->. unfold prefix. simpl Build.and_then.
    destruct (depth =? 0); reflexivity.
Qed.

Lemma X15_witness :
  Build.url_for 1 (u "section") [(u "n", u "12")]
    = Build.Return (u "../text/12.html")
  /\ Build.url_for 1 (u "section") [(u "m", u "12")]
     = Build.Throw (Build.KeyError (u "n"))
  /\ Build.url_for 0 (u "section") [] = Build.Return (u "text/{n}.html").
Proof.
  split; [|split].
  - rewrite (proj1 (X15_url_for_section 1 [(u "n", u "12")]) (u "12") eq_refl).
    reflexivity.
  - apply (proj1 (proj2 (X15_url_for_section 1 [(u "m", u "12")]))).
    + discriminate.
    + reflexivity.
  - rewrite (proj2 (proj2 (X15_url_for_section 0 [])) eq_refl). reflexivity.
Defined.

(** X16. The [truncate] filter.  A string of at most [length] characters
    is returned as it is.  A longer one, for [length >= 0], is cut to its
    first [length] characters followed by three dots, so the result has
    [length + 3] characters (two more than the string itself when the
    string has [length + 1]).  A negative [length] always cuts: it drops
    the last [-length] characters and appends the dots. *)
Theorem X16_truncate (s : str) (length : Z) :
  (Z.of_nat (List.length s) <= length -> Build.truncate s length = s)
  /\ (0 <= length < Z.of_nat (List.length s) ->
      Build.truncate s length = firstn (Z.to_nat length) s ++ u "..."
      /\ Z.of_nat (List.length (Build.truncate s length)) = length + 3)
  /\ (length < 0 ->
      Build.truncate s length
      = firstn (List.length s - Z.to_nat (- length)) s ++ u "...").
Proof.
  unfold Build.truncate, Build.slice_to. split; [|split].
  - intros H. destruct (Z.gtb_spec (Z.of_nat (List.length s)) length);
      [lia|reflexivity].
  - intros [H0 H1].
    destruct (Z.gtb_spec (Z.of_nat (List.length s)) length); [|lia].
    destruct (Z.ltb_spec length 0); [lia|].
    split; [reflexivity|].
    rewrite length_app, length_firstn. change (List.length (u "...")) with 3%nat.
    lia.
  - intros H.
    destruct (Z.gtb_spec (Z.of_nat (List.length s)) length); [|lia].
    destruct (Z.ltb_spec length 0); [|lia].
    do 2 f_equal. lia.
Qed.

Lemma X16_witness :
  Build.truncate (u "ართრონი") 7 = u "ართრონი"
  /\ Build.truncate (u "ართრონი") 6 = u "ართრონ..."
  /\ Build.truncate (u "ართრონი") (-5) = u "არ...".
Proof.
  split; [|split].
  - apply (proj1 (X16_truncate (u "ართრონი") 7)). vm_compute. discriminate.
  - rewrite (proj1 (proj1 (proj2 (X16_truncate (u "ართრონი") 6))
                      ltac:(vm_compute; split; [discriminate|reflexivity]))).
    reflexivity.
  - rewrite (proj2 (proj2 (X16_truncate (u "ართრონი") (-5))) eq_refl).
    reflexivity.
Defined.

(** X17. The section pages of [build_text_pages] follow the sections one
    to one, in order.  The page of a section shows that section alone with
    its apparatus; its previous link is the number of the section before
    it and its next link the number of the section after it, and these
    are absent for the first and for the last section. *)
Theorem X17_section_page_links (sections : list SectionRecord.t)
    (witnesses : PyDict.t (option str) Build.WitnessInfo.t)
    (lexicon : PyDict.t str Build.LexiconInfo.t) (i : nat) :
  let pages := Build.section_pages sections witnesses lexicon in
  length pages = length sections
  /\ (forall page,
        nth_error pages i = Some page ->
        exists section,
          nth_error sections i = Some section
          /\ Build.TextPage.file page
             = u "text/" ++ SectionRecord.n section ++ u ".html"
          /\ Build.TextPage.displayed_sections page = [section]
          /\ Build.TextPage.apparatus page = SectionRecord.apparatus section
          /\ Build.TextPage.current_section page = SectionRecord.n section
          /\ Build.TextPage.prev_section page
             = match i with
               | O => None
               | S j => option_map SectionRecord.n (nth_error sections j)
               end
          /\ Build.TextPage.next_section page
             = option_map SectionRecord.n (nth_error sections (S i))).
Proof.
  intros pages. unfold pages, Build.section_pages. split.
  - apply section_pages_from_length.
  - intros page H. rewrite nth_error_section_pages in H. simpl in H.
    destruct (nth_error sections i) as [section|] eqn:E; [|discriminate].
    injection H as <-. exists section. split; [reflexivity|].
    cbn [Build.section_page Build.TextPage.file
         Build.TextPage.displayed_sections Build.TextPage.apparatus
         Build.TextPage.current_section Build.TextPage.prev_section
         Build.TextPage.next_section].
    repeat split.
    + destruct i as [|j]; [reflexivity|].
      cbn [Nat.ltb Nat.leb]. unfold Build.section_n_at.
      replace (S j - 1)%nat with j by lia. reflexivity.
    + unfold Build.section_n_at. replace (i + 1)%nat with (S i) by lia.
      destruct (Nat.ltb_spec i (length sections - 1)); [reflexivity|].
      assert (Hlast : nth_error sections (S i) = None)
        by (apply nth_error_None; lia).
      rewrite Hlast. reflexivity.
Qed.

Lemma X17_witness :
  map (fun p => (Build.TextPage.prev_section p, Build.TextPage.next_section p))
    (Build.section_pages Fixtures.three_sections [] [])
    = [(None, Some (u "2")); (Some (u "1"), Some (u "3")); (Some (u "2"), None)]
  /\ exists section,
       nth_error Fixtures.three_sections 1 = Some section
       /\ Build.TextPage.file (Build.section_page Fixtures.three_sections [] []
                                 1 (Fixtures.bare_section "2"))
          = u "text/" ++ SectionRecord.n section ++ u ".html".
Proof.
  split; [reflexivity|].
  destruct (proj2 (X17_section_page_links Fixtures.three_sections [] [] 1)
              (Build.section_page Fixtures.three_sections [] [] 1
                 (Fixtures.bare_section "2")) eq_refl)
    as (section & Hs & Hf & _).
  exists section. split; assumption.
Defined.

(** X18. [build_text_pages] builds on [get_sections]: when the parser
    raises nothing is rendered; otherwise the page of all sections is
    rendered with the apparatus of all the sections in document order,
    whose indices are 1, 2, 3, ... without gap, and the pages are the main
    page (when there is a section), the page of all sections and one page
    for each section. *)
Theorem X18_all_sections_page (treatise lexicon : elem) :
  (forall x, get_sections treatise = Raise x ->
   Build.build_text_pages treatise lexicon = Build.Throw Build.ParserError)
  /\ (forall sections, get_sections treatise = Ok sections ->
      exists pages all_page,
        Build.build_text_pages treatise lexicon = Build.Return pages
        /\ In all_page pages
        /\ Build.TextPage.file all_page = u "text/all.html"
        /\ Build.TextPage.displayed_sections all_page = sections
        /\ Build.TextPage.apparatus all_page
           = flat_map SectionRecord.apparatus sections
        /\ map AppEntry.index (Build.TextPage.apparatus all_page)
           = zseq 1 (length (Build.TextPage.apparatus all_page))
        /\ length pages
           = (length sections + (if length sections =? 0 then 1 else 2))%nat).
Proof.
  unfold Build.build_text_pages. split.
  - intros x ->. reflexivity.
  - intros sections H. rewrite H.
    set (w := Build.witnesses_to_dict (get_witnesses treatise)).
    set (l := Build.lexicon_to_dict (get_lexicon_entries lexicon)).
    exists (Build.text_pages sections w l), (Build.all_sections_page sections w l).
    split; [reflexivity|].
    assert (Happ : Build.TextPage.apparatus (Build.all_sections_page sections w l)
                   = flat_map SectionRecord.apparatus sections).
    { cbn [Build.all_sections_page Build.TextPage.apparatus].
      apply (fold_left_app_flat_map SectionRecord.apparatus sections []). }
    split; [|split; [reflexivity|split; [reflexivity|split; [exact Happ|split]]]].
    + unfold Build.text_pages. apply in_or_app. right. left. reflexivity.
    + rewrite Happ. unfold get_sections in H.
      apply sections_loop_numbered with (counter := 0) in H.
      * destruct H as (k & Hidx & _). exact Hidx.
      * repeat split. constructor.
    + unfold Build.text_pages. rewrite !length_app.
      unfold Build.section_pages. rewrite section_pages_from_length.
      unfold Build.main_text_page. destruct sections; simpl; lia.
Qed.

Lemma X18_witness :
  Build.build_text_pages Fixtures.failing_treatise Fixtures.lexicon_doc
    = Build.Throw Build.ParserError
  /\ exists pages,
       Build.build_text_pages Fixtures.treatise Fixtures.lexicon_doc
       = Build.Return pages
       /\ length pages = 5%nat.
Proof.
  split.
  - apply (proj1 (X18_all_sections_page Fixtures.failing_treatise
                    Fixtures.lexicon_doc) ValueError).
    vm_compute. reflexivity.
  - destruct (get_sections Fixtures.treatise) as [sections|x] eqn:E;
      [|vm_compute in E; discriminate E].
    destruct (proj2 (X18_all_sections_page Fixtures.treatise
                       Fixtures.lexicon_doc) sections E)
      as (pages & all_page & Hb & _ & _ & _ & _ & _ & Hlen).
    exists pages. split; [exact Hb|]. rewrite Hlen.
    vm_compute in E. injection E as <-. reflexivity.
Defined.

(** X19. The main text page is the page of the first section under the
    file name [text/index.html]: the same displayed section, apparatus,
    current section and links (no previous link; the next link is the
    second section when there is one).  Without sections there is no main
    page. *)
Theorem X19_main_page_is_first_section (sections : list SectionRecord.t)
    (witnesses : PyDict.t (option str) Build.WitnessInfo.t)
    (lexicon : PyDict.t str Build.LexiconInfo.t) :
  Build.main_text_page sections witnesses lexicon
  = match sections with
    | first_section :: _ =>
        [with_file (u "text/index.html")
           (Build.section_page sections witnesses lexicon 0 first_section)]
    | [] => []
    end.
Proof.
  unfold Build.main_text_page. destruct sections as [|s rest]; [reflexivity|].
  unfold with_file, Build.section_page.
  cbn [Build.TextPage.sections Build.TextPage.displayed_sections
       Build.TextPage.apparatus Build.TextPage.current_section
       Build.TextPage.section_count Build.TextPage.prev_section
       Build.TextPage.next_section Build.TextPage.show_all_link
       Build.TextPage.show_all Build.TextPage.witnesses
       Build.TextPage.lexicon].
  do 2 f_equal. destruct rest; reflexivity.
Qed.

